(** * Lock logger PWA: the service worker and the application state

    A shallow embedding of [src/service-worker.js]: the offline cache
    controller (the [install], [activate] and [fetch] listeners), the
    hook [useLocalStorage], and the state operations of the React
    component [App] ([recordEntry], [addLockable], [undoLast],
    [exportData], [importData], [shareLast], [updateTheme]) with the
    derived values [streak], [last7] and [filteredEntries] and the
    helper [readableTextColor].

    Conventions.
    - A JavaScript string is a [string], the bytes of its UTF-8 form;
      where the source counts the characters of a string (the [slice]
      and [parseInt] of [readableTextColor]) the model is that of ASCII
      text. [undefined] and [null] results of the browser calls are
      [None].
    - A time value is a [Z], the milliseconds since the epoch; a Date
      object is an [option Z], [None] being the Invalid Date (NaN). The
      date functions are those of ECMA-262, [toISOString] and [Date.parse]
      on the Date Time String Format included.
    - A handler is a function from the state of the last render to a
      computation [M Document] that ends with the state it sets; the
      computation reads the browser (the [World]) and may throw.
    - [JSON.stringify] and [JSON.parse] are a serializer and a parser of
      JSON texts over the values [json].
    - What the engine and the host decide (the random identifiers of
      [uid], the clock, the replies to [window.prompt], the time zone, the
      parsing of date strings outside the standard format, the Number
      values and their texts, the messages of native errors, the white
      space and the case mappings of Unicode, the localized texts of
      dates) is a parameter; so is what [navigator] and [localStorage]
      offer and answer. *)

From Stdlib Require Import ZArith QArith List String Ascii Bool Lia Arith.
From Stdlib Require Import DecimalString.
Import ListNotations.
Set Warnings "-register-all".
Local Open Scope string_scope.
Local Open Scope Z_scope.

(** ** The Document (defaultState, lines 56-68) *)

Module Lockable.
Record t : Type := mk
  { id : string;
    name : string;
    icon : string;
    (** [window.prompt] yields [null] when the colour prompt is cancelled *)
    color : option string }.
End Lockable.

Module Entry.
Record t : Type := mk
  { id : string;
    lockableId : string;
    tsISO : string;
    (** [undefined] when there is no note *)
    note : option string }.
End Entry.

Record Preferences : Type := mkPreferences
  { theme : string;
    confirmNote : bool;
    quickNoteSuggestions : list string }.

Record Document : Type := mkDocument
  { lockables : list Lockable.t;
    entries : list Entry.t;
    prefs : Preferences }.

Definition defaultSuggestions : list string :=
  ["Salí apurado"; "Doble chequeo"; "Con alarma"].

Definition defaultState : Document :=
  {| lockables :=
       [ Lockable.mk "casa" "Casa" "🏠" (Some "#0ea5e9");
         Lockable.mk "auto" "Auto" "🚗" (Some "#0ea5e9");
         Lockable.mk "oficina" "Oficina" "🏢" (Some "#0ea5e9") ];
     entries := [];
     prefs := {| theme := "system";
                 confirmNote := false;
                 quickNoteSuggestions := defaultSuggestions |} |}.

(** ** The browser around the component *)

(** An exception value: [new Error(message)] of the source, or one of the
    native errors a built-in raises: the TypeError of a property read on
    [null], the TypeError of an object that cannot be converted to a
    primitive value, the SyntaxError of [JSON.parse], the RangeError of
    [toISOString]. *)
Inductive JsError : Type :=
| Error (message : string)
| TypeError (property : string)
| NotPrimitive
| SyntaxError (text : string)
| RangeError.

(** What the run of a handler sees of the browser and leaves in it: the
    successive results of [Math.random] as [uid] renders them, of
    [new Date()], of [window.prompt], each with the number of calls made so
    far, and the messages passed to [alert], the latest first. *)
Record World : Type := mkWorld
  { random_ids : nat -> string;
    clock : nat -> Z;
    prompt_replies : nat -> option string;
    n_random : nat;
    n_clock : nat;
    n_prompt : nat;
    alerts : list string }.

Inductive Completion (A : Type) : Type :=
| Normal (a : A)
| Throw (e : JsError).
Arguments Normal {A} a.
Arguments Throw {A} e.

(** A computation: it reads and advances the world and ends normally or
    with a thrown exception. *)
Definition M (A : Type) : Type := World -> Completion A * World.

Definition ret {A} (a : A) : M A := fun w => (Normal a, w).

Definition bind {A B} (c : M A) (k : A -> M B) : M B :=
  fun w => match c w with
           | (Normal a, w') => k a w'
           | (Throw e, w') => (Throw e, w')
           end.

Definition throw {A} (e : JsError) : M A := fun w => (Throw e, w).

(** A conversion, which reads nothing of the browser, in a computation *)
Definition lift {A} (c : Completion A) : M A := fun w => (c, w).

(** [try { c } catch (err) { h err }] *)
Definition try_catch {A} (c : M A) (h : JsError -> M A) : M A :=
  fun w => match c w with
           | (Normal a, w') => (Normal a, w')
           | (Throw e, w') => h e w'
           end.

Declare Scope js_scope.
Delimit Scope js_scope with js.
Notation "x <- c ;; k" := (bind c (fun x => k))
  (at level 61, c at next level, right associativity) : js_scope.
Notation "c ;;; k" := (bind c (fun _ => k))
  (at level 61, right associativity) : js_scope.
Local Open Scope js_scope.

(** [Math.random().toString(36).substr(2, 9)], lines 111-113 *)
Definition uid : M string :=
  fun w => (Normal (random_ids w (n_random w)),
            mkWorld (random_ids w) (clock w) (prompt_replies w)
                    (S (n_random w)) (n_clock w) (n_prompt w) (alerts w)).

(** The time value of [new Date()] *)
Definition Date_now : M Z :=
  fun w => (Normal (clock w (n_clock w)),
            mkWorld (random_ids w) (clock w) (prompt_replies w)
                    (n_random w) (S (n_clock w)) (n_prompt w) (alerts w)).

(** [window.prompt(...)]: the text entered, [None] when cancelled *)
Definition prompt : M (option string) :=
  fun w => (Normal (prompt_replies w (n_prompt w)),
            mkWorld (random_ids w) (clock w) (prompt_replies w)
                    (n_random w) (n_clock w) (S (n_prompt w)) (alerts w)).

Definition alert (msg : string) : M unit :=
  fun w => (Normal tt,
            mkWorld (random_ids w) (clock w) (prompt_replies w)
                    (n_random w) (n_clock w) (n_prompt w) (msg :: alerts w)).

Fixpoint mapM {A B} (f : A -> M B) (xs : list A) : M (list B) :=
  match xs with
  | [] => ret []
  | x :: xs' => y <- f x ;; ys <- mapM f xs' ;; ret (y :: ys)
  end.

(** ** Dates: the time functions of ECMA-262 that the source calls *)

Definition msPerDay : Z := 86400000.
Definition msPerHour : Z := 3600000.
Definition msPerMinute : Z := 60000.
Definition msPerSecond : Z := 1000.

Definition Day (t : Z) : Z := t / msPerDay.
Definition TimeWithinDay (t : Z) : Z := t mod msPerDay.

(** A time value further than 8.64e15 ms from the epoch is NaN. *)
Definition TimeClip (t : Z) : option Z :=
  if Z.abs t <=? 8640000000000000 then Some t else None.

(** Day number (days since 1970-01-01) of the proleptic Gregorian date
    [y]-[m]-[d], [m] counted from 1. *)
Definition days_from_civil (y m d : Z) : Z :=
  let y' := if m <=? 2 then y - 1 else y in
  let era := y' / 400 in
  let yoe := y' - era * 400 in
  let mp := if 2 <? m then m - 3 else m + 9 in
  let doy := (153 * mp + 2) / 5 + d - 1 in
  let doe := yoe * 365 + yoe / 4 - yoe / 100 + doy in
  era * 146097 + doe - 719468.

(** Year, month (from 1) and day of the month of a day number. *)
Definition civil_from_days (z : Z) : Z * Z * Z :=
  let z' := z + 719468 in
  let era := z' / 146097 in
  let doe := z' - era * 146097 in
  let yoe := (doe - doe / 1460 + doe / 36524 - doe / 146096) / 365 in
  let doy := doe - (365 * yoe + yoe / 4 - yoe / 100) in
  let mp := (5 * doy + 2) / 153 in
  let d := doy - (153 * mp + 2) / 5 + 1 in
  let m := if mp <? 10 then mp + 3 else mp - 9 in
  let y := yoe + era * 400 in
  (if m <=? 2 then y + 1 else y, m, d).

Definition YearFromTime (t : Z) : Z := fst (fst (civil_from_days (Day t))).
(** counted from 0, as in ECMA-262 *)
Definition MonthFromTime (t : Z) : Z := snd (fst (civil_from_days (Day t))) - 1.
Definition DateFromTime (t : Z) : Z := snd (civil_from_days (Day t)).
Definition HourFromTime (t : Z) : Z := (t / msPerHour) mod 24.
Definition MinFromTime (t : Z) : Z := (t / msPerMinute) mod 60.
Definition SecFromTime (t : Z) : Z := (t / msPerSecond) mod 60.
Definition msFromTime (t : Z) : Z := t mod msPerSecond.

Definition DaysInMonth (y m : Z) : Z :=
  (if m =? 12 then days_from_civil (y + 1) 1 1 else days_from_civil y (m + 1) 1)
  - days_from_civil y m 1.

Definition digit_char (d : Z) : ascii := ascii_of_nat (48 + Z.to_nat d).

(** The last [width] decimal digits of [n], most significant first. *)
Fixpoint digits (width : nat) (n : Z) : string :=
  match width with
  | O => ""
  | S w => digits w (n / 10) ++ String (digit_char (n mod 10)) ""
  end.

(** The text [toISOString] gives for a time value:
    YYYY-MM-DDTHH:mm:ss.sssZ, the year with a sign and six digits outside
    0..9999. *)
Definition ISOString (t : Z) : string :=
  let y := YearFromTime t in
  (if (0 <=? y) && (y <=? 9999) then digits 4 y
   else (if 0 <=? y then "+" else "-") ++ digits 6 (Z.abs y))
  ++ "-" ++ digits 2 (MonthFromTime t + 1)
  ++ "-" ++ digits 2 (DateFromTime t)
  ++ "T" ++ digits 2 (HourFromTime t)
  ++ ":" ++ digits 2 (MinFromTime t)
  ++ ":" ++ digits 2 (SecFromTime t)
  ++ "." ++ digits 3 (msFromTime t)
  ++ "Z".

(** [Date.prototype.toISOString]: a RangeError on the Invalid Date *)
Definition toISOString (d : option Z) : M string :=
  match d with
  | Some t => ret (ISOString t)
  | None => throw RangeError
  end.

Definition digit_val (c : ascii) : option Z :=
  let n := Z.of_nat (nat_of_ascii c) in
  if (48 <=? n) && (n <=? 57) then Some (n - 48) else None.

(** Exactly [n] decimal digits at the head of [cs]: their value and the
    rest. *)
Fixpoint take_digits (n : nat) (acc : Z) (cs : list ascii) : option (Z * list ascii) :=
  match n with
  | O => Some (acc, cs)
  | S n' =>
      match cs with
      | c :: cs' =>
          match digit_val c with
          | Some d => take_digits n' (10 * acc + d) cs'
          | None => None
          end
      | [] => None
      end
  end.

(** The fields of a string in the Date Time String Format of ECMA-262:
    YYYY[-MM[-DD]] or a signed six-digit year, then optionally
    THH:mm[:ss[.sss]] and an offset Z or +HH:mm or -HH:mm. *)
Record IsoFields : Type := mkIsoFields
  { iso_year : Z; iso_month : Z; iso_day : Z;
    iso_time : option (Z * Z * Z * Z);
    (** minutes east of UTC; [None] when the string has no offset *)
    iso_offset : option Z }.

Definition iso_parse_year (cs : list ascii) : option (Z * list ascii) :=
  match cs with
  | "+"%char :: r => take_digits 6 0 r
  | "-"%char :: r =>
      match take_digits 6 0 r with
      | Some (y, r') => if y =? 0 then None else Some (- y, r')
      | None => None
      end
  | _ => take_digits 4 0 cs
  end.

Definition iso_parse_offset (cs : list ascii) : option (option Z) :=
  match cs with
  | [] => Some None
  | ["Z"%char] => Some (Some 0)
  | s :: r =>
      if (Ascii.eqb s "+" || Ascii.eqb s "-")%bool then
        match take_digits 2 0 r with
        | Some (h, ":"%char :: r1) =>
            match take_digits 2 0 r1 with
            | Some (m, []) =>
                if (h <=? 23) && (m <=? 59)
                then Some (Some ((if Ascii.eqb s "+" then 1 else -1) * (h * 60 + m)))
                else None
            | _ => None
            end
        | _ => None
        end
      else None
  end.

Definition iso_parse_time (cs : list ascii) : option (Z * Z * Z * Z * list ascii) :=
  match take_digits 2 0 cs with
  | Some (h, ":"%char :: r1) =>
      match take_digits 2 0 r1 with
      | Some (m, ":"%char :: r2) =>
          match take_digits 2 0 r2 with
          | Some (s, "."%char :: r3) =>
              match take_digits 3 0 r3 with
              | Some (ms, r4) => Some (h, m, s, ms, r4)
              | None => None
              end
          | Some (s, r3) => Some (h, m, s, 0, r3)
          | None => None
          end
      | Some (m, r2) => Some (h, m, 0, 0, r2)
      | None => None
      end
  | _ => None
  end.

Definition iso_parse_rest (y m d : Z) (cs : list ascii) : option IsoFields :=
  match cs with
  | [] => Some (mkIsoFields y m d None None)
  | "T"%char :: r =>
      match iso_parse_time r with
      | Some (h, mi, s, ms, r') =>
          match iso_parse_offset r' with
          | Some off => Some (mkIsoFields y m d (Some (h, mi, s, ms)) off)
          | None => None
          end
      | None => None
      end
  | _ => None
  end.

Definition iso_fields (s : string) : option IsoFields :=
  match iso_parse_year (list_ascii_of_string s) with
  | Some (y, "-"%char :: r) =>
      match take_digits 2 0 r with
      | Some (m, "-"%char :: r1) =>
          match take_digits 2 0 r1 with
          | Some (d, r2) => iso_parse_rest y m d r2
          | None => None
          end
      | Some (m, r1) => iso_parse_rest y m 1 r1
      | None => None
      end
  | Some (y, r) => iso_parse_rest y 1 1 r
  | None => None
  end.

(** The element values the format allows: a day that exists in its
    month, and 24:00:00.000 as the only time with hour 24. *)
Definition iso_legal (f : IsoFields) : bool :=
  (1 <=? iso_month f) && (iso_month f <=? 12)
  && (1 <=? iso_day f) && (iso_day f <=? DaysInMonth (iso_year f) (iso_month f))
  && match iso_time f with
     | None => true
     | Some (h, mi, s, ms) =>
         (mi <=? 59) && (s <=? 59)
         && ((h <=? 23) || ((h =? 24) && (mi =? 0) && (s =? 0) && (ms =? 0)))
     end.

(** ** The offline cache controller (lines 7-48) *)

Definition CACHE_NAME : string := "lock-logger-v1".

Definition ASSETS : list string :=
  [ "./"; "./index.html"; "./main.js"; "./manifest.webmanifest";
    "./icons/icon-192.png"; "./icons/icon-512.png" ].

Record Request : Type := mkRequest
  { method : string;
    url : string }.

Section ServiceWorker.

(** What a response holds is the browser's affair. *)
Variable Response : Type.

(** One cache: the responses stored under the URLs of their requests. *)
Definition Cache : Type := list (string * Response).

(** [caches]: the caches by name, the oldest first. *)
Definition CacheStorage : Type := list (string * Cache).

(** The network as the worker sees it at one request: [fetch] resolves
    with a response or rejects ([None]). *)
Definition Network : Type := Request -> option Response.

Fixpoint Cache_match (c : Cache) (u : string) : option Response :=
  match c with
  | [] => None
  | (k, r) :: c' => if String.eqb k u then Some r else Cache_match c' u
  end.

(** [caches.match(request)]: the first stored response of any cache;
    [undefined] ([None]) when there is none. Only GET requests match. *)
Fixpoint caches_match (caches : CacheStorage) (request : Request) : option Response :=
  match caches with
  | [] => None
  | (_, c) :: rest =>
      if String.eqb (method request) "GET" then
        match Cache_match c (url request) with
        | Some r => Some r
        | None => caches_match rest request
        end
      else None
  end.

(** What the listener does with a fetch event: it returns without
    calling [respondWith], and the browser handles the request as if there
    were no worker, or it answers with the settled value of the promise
    it passed ([None]: the promise resolved with [undefined]). *)
Inductive FetchHandling : Type :=
| PassThrough
| RespondWith (response : option Response).

(** The [fetch] listener, lines 39-48 *)
Definition onfetch (caches : CacheStorage) (fetch : Network) (request : Request)
  : FetchHandling :=
  if negb (String.eqb (method request) "GET") then PassThrough
  else
    RespondWith
      match caches_match caches request with
      | Some cached => Some cached
      | None =>
          match fetch request with
          | Some response => Some response
          | None => caches_match caches (mkRequest "GET" "./index.html")
          end
      end.

(** [cache.addAll(ASSETS)] on the cache [CACHE_NAME], lines 17-23: every
    asset is fetched; the responses are stored only when all arrived. *)
Fixpoint fetchAll (fetch : Network) (urls : list string) : option Cache :=
  match urls with
  | [] => Some []
  | u :: rest =>
      match fetch (mkRequest "GET" u), fetchAll fetch rest with
      | Some r, Some c => Some ((u, r) :: c)
      | _, _ => None
      end
  end.

Fixpoint Cache_put (c : Cache) (u : string) (r : Response) : Cache :=
  match c with
  | [] => [(u, r)]
  | (k, r') :: c' =>
      if String.eqb k u then (k, r) :: c' else (k, r') :: Cache_put c' u r
  end.

Fixpoint caches_update (caches : CacheStorage) (name : string) (f : Cache -> Cache)
  : CacheStorage :=
  match caches with
  | [] => [(name, f [])]
  | (k, c) :: rest =>
      if String.eqb k name then (k, f c) :: rest
      else (k, c) :: caches_update rest name f
  end.

(** The [install] listener, lines 17-23: the caches afterwards, and
    whether the promise given to [waitUntil] was fulfilled. The cache is
    opened (and so created) before the assets are fetched. *)
Definition oninstall (caches : CacheStorage) (fetch : Network)
  : CacheStorage * bool :=
  let opened := caches_update caches CACHE_NAME (fun c => c) in
  match fetchAll fetch ASSETS with
  | Some fetched =>
      (caches_update opened CACHE_NAME
         (fun c => fold_left (fun c' ur => Cache_put c' (fst ur) (snd ur)) fetched c),
       true)
  | None => (opened, false)
  end.

(** The [activate] listener, lines 25-37: every cache of another name is
    deleted. *)
Definition onactivate (caches : CacheStorage) : CacheStorage :=
  filter (fun kc => String.eqb (fst kc) CACHE_NAME) caches.

End ServiceWorker.

Arguments PassThrough {Response}.
Arguments RespondWith {Response} response.
Arguments caches_match {Response} caches request.
Arguments onfetch {Response} caches fetch request.
Arguments oninstall {Response} caches fetch.
Arguments onactivate {Response} caches.

(** ** readableTextColor (lines 95-106) *)

(** [hex.replace('#', '')]: the first [#] is dropped. *)
Fixpoint remove_first_hash (s : string) : string :=
  match s with
  | EmptyString => EmptyString
  | String c s' => if Ascii.eqb c "#" then s' else String c (remove_first_hash s')
  end.

(** [c.slice(i, j)] for [0 <= i <= j] *)
Definition slice (i j : nat) (s : string) : string := substring i (j - i) s.

Definition hex_digit_val (c : ascii) : option Z :=
  let n := Z.of_nat (nat_of_ascii c) in
  if (48 <=? n) && (n <=? 57) then Some (n - 48)
  else if (65 <=? n) && (n <=? 70) then Some (n - 55)
  else if (97 <=? n) && (n <=? 102) then Some (n - 87)
  else None.

Definition is_white_space (c : ascii) : bool :=
  let n := Z.of_nat (nat_of_ascii c) in
  ((9 <=? n) && (n <=? 13)) || (n =? 32).

Fixpoint trim_start (s : string) : string :=
  match s with
  | String c s' => if is_white_space c then trim_start s' else s
  | EmptyString => EmptyString
  end.

(** The value of the longest prefix of hexadecimal digits, [None] when
    that prefix is empty. *)
Fixpoint hex_prefix (acc : option Z) (s : string) : option Z :=
  match s with
  | String c s' =>
      match hex_digit_val c with
      | Some d =>
          hex_prefix (Some (16 * match acc with Some a => a | None => 0 end + d)) s'
      | None => acc
      end
  | EmptyString => acc
  end.

(** [parseInt(s, 16)]: leading white space, a sign and a prefix [0x] or
    [0X] are skipped; the result is NaN ([None]) when no digit follows. *)
Definition parseInt16 (s : string) : option Z :=
  let s1 := trim_start s in
  let (sign, s2) :=
    match s1 with
    | String "-" r => (-1, r)
    | String "+" r => (1, r)
    | _ => (1, s1)
    end in
  let s3 :=
    match s2 with
    | String "0" (String "x" r) => r
    | String "0" (String "X" r) => r
    | _ => s2
    end in
  option_map (Z.mul sign) (hex_prefix None s3).

(** The quotient [(r * 299 + g * 587 + b * 114) / 1000], NaN when a
    component is. The numbers are doubles in the source; the sum is an
    integer far below 2^53, the division rounds the exact quotient to
    the nearest double, which keeps its order with the double 140, so
    the test [yiq >= 140] is the one on the exact quotient. *)
Definition yiq_of (r g b : option Z) : option Q :=
  match r, g, b with
  | Some r, Some g, Some b => Some (inject_Z (r * 299 + g * 587 + b * 114) / 1000)%Q
  | _, _, _ => None
  end.

(** [hex] is the colour of a lockable: a string, or [null] ([None]),
    on which [hex.replace] throws and the [catch] answers white. A
    comparison with NaN is false. *)
Definition readableTextColor (hex : option string) : string :=
  match hex with
  | None => "#ffffff"
  | Some hex =>
      let c := remove_first_hash hex in
      let r := parseInt16 (slice 0 2 c) in
      let g := parseInt16 (slice 2 4 c) in
      let b := parseInt16 (slice 4 6 c) in
      match yiq_of r g b with
      | Some yiq => if Qle_bool 140 yiq then "#18181b" else "#ffffff"
      | None => "#ffffff"
      end
  end.

(** The colour that a CSS hex notation stands for, as the browser paints
    the button: [#rrggbb], or the shorthand [#rgb] for the colour
    [#rrggbb] with each digit written twice. *)
Definition css_hex_rgb (hex : string) : option (Z * Z * Z) :=
  match hex with
  | String "#" (String r (String g (String b EmptyString))) =>
      match hex_digit_val r, hex_digit_val g, hex_digit_val b with
      | Some r, Some g, Some b => Some (17 * r, 17 * g, 17 * b)
      | _, _, _ => None
      end
  | String "#" (String r1 (String r2 (String g1 (String g2
      (String b1 (String b2 EmptyString)))))) =>
      match hex_digit_val r1, hex_digit_val r2, hex_digit_val g1,
            hex_digit_val g2, hex_digit_val b1, hex_digit_val b2 with
      | Some r1, Some r2, Some g1, Some g2, Some b1, Some b2 =>
          Some (16 * r1 + r2, 16 * g1 + g2, 16 * b1 + b2)
      | _, _, _, _, _, _ => None
      end
  | _ => None
  end.

(** The YIQ-weighted luminance of a colour, on the scale 0-255 *)
Definition luminance (rgb : Z * Z * Z) : Q :=
  let '(r, g, b) := rgb in
  (inject_Z (r * 299 + g * 587 + b * 114) / 1000)%Q.

(** ** What the derived views and shareLast work with *)

(** [s.includes(term)]: [term] occurs in [s]. An occurrence in the
    UTF-8 form of well-formed strings is one of the characters. *)
Fixpoint includes (s term : string) : bool :=
  String.prefix term s
  || match s with
     | String _ s' => includes s' term
     | EmptyString => false
     end.

(** One bar of the chart of [last7]: [{ label, count }] *)
Module Bar.
Record t : Type := mk
  { label : string;
    count : nat }.
End Bar.

(** The object [buckets] of [last7]: the counts by time value, NaN
    ([None]) being a key as any other. *)
Definition Buckets : Type := list (option Z * nat).

(** [navigator]: [share] and [clipboard] are there or not; where there,
    a call of [navigator.share] or [navigator.clipboard.writeText] ends
    in a promise that is fulfilled ([true]) or rejected. *)
Record Navigator : Type := mkNavigator
  { share : option (string -> string -> bool);
    clipboard : option (string -> bool) }.

(** A call that shareLast makes on [navigator] *)
Inductive NavigatorCall : Type :=
| navigator_share (title text : string)
| clipboard_writeText (text : string).

(** [localStorage]: the items by key; whether the page is denied its
    use, every access then throwing; and the items that are over the
    quota, which is the browser's to set: [setItem] throws rather than
    leave such items. *)
Record Storage : Type := mkStorage
  { items : list (string * string);
    denied : bool;
    over_quota : list (string * string) -> bool }.

Fixpoint getItem_in (kvs : list (string * string)) (key : string) : option string :=
  match kvs with
  | [] => None
  | (k, v) :: rest => if String.eqb k key then Some v else getItem_in rest key
  end.

Fixpoint setItem_in (kvs : list (string * string)) (key value : string)
  : list (string * string) :=
  match kvs with
  | [] => [(key, value)]
  | (k, v) :: rest =>
      if String.eqb k key then (k, value) :: rest
      else (k, v) :: setItem_in rest key value
  end.

(** [localStorage.getItem(key)]: [None] when it throws; the item, or
    [null] ([Some None]) when there is no such item *)
Definition getItem (storage : Storage) (key : string) : option (option string) :=
  if denied storage then None else Some (getItem_in (items storage) key).

(** [localStorage.setItem(key, value)]: [None] when it throws, the
    storage then being as before *)
Definition setItem (storage : Storage) (key value : string) : option Storage :=
  let items' := setItem_in (items storage) key value in
  if denied storage then None
  else if over_quota storage items' then None
  else Some (mkStorage items' false (over_quota storage)).

(** ** The application state and its operations (lines 125-367) *)

Section App.

(** *** What the engine and the host decide *)

(** The Number values, with what the source makes of one: its truth
    value, whether it is finite, [String(n)], and the time value of
    [new Date(n)]. *)
Variable number : Type.
Variable Number_truthy : number -> bool.
Variable Number_isFinite : number -> bool.
Variable Number_toString : number -> string.
Variable Number_toTimeValue : number -> option Z.
(** The value of a number of a JSON text, [None] when the characters are
    no number of the JSON grammar. *)
Variable Number_parse : string -> option number.

(** [LocalTZA t isUTC] of ECMA-262: the offset of the local time zone in
    milliseconds, at the UTC time [t] ([isUTC]) or at the local time [t]. *)
Variable LocalTZA : Z -> bool -> Z.

(** [Date.parse] on a string that is not in the Date Time String Format,
    or holds an illegal element value: each engine has heuristics of its
    own. *)
Variable Date_parse_other : string -> option Z.

(** The [message] of a native error. *)
Variable native_message : JsError -> string.

(** [s.trim()] and [s.toLowerCase()], on the white space and the case
    mappings of Unicode *)
Variable String_trim : string -> string.
Variable String_toLowerCase : string -> string.

(** [date.toLocaleString('es-AR', { dateStyle: 'short', timeStyle:
    'short' })] and [date.toLocaleDateString('es-AR', { weekday:
    'short' })], of the Invalid Date ([None]) too *)
Variable toLocaleString : option Z -> string.
Variable toLocaleDateString : option Z -> string.

(** *** JSON values *)

Inductive json : Type :=
| JNull
| JBool (b : bool)
| JNumber (n : number)
| JString (s : string)
| JArray (elements : list json)
| JObject (properties : list (string * json)).

(** *** JSON texts

    A text is the list of the bytes of its UTF-8 form. *)

Definition dquote : ascii := "034"%char.
Definition backslash : ascii := "\"%char.
Definition newline : ascii := "010"%char.

Definition chars (s : string) : list ascii := list_ascii_of_string s.

Definition hex_char (d : Z) : ascii :=
  if d <? 10 then ascii_of_nat (48 + Z.to_nat d) else ascii_of_nat (87 + Z.to_nat d).

(** One character of a string as [QuoteJSONString] writes it *)
Definition quote_char (c : ascii) : list ascii :=
  let n := Z.of_nat (nat_of_ascii c) in
  if Ascii.eqb c dquote then [backslash; dquote]
  else if Ascii.eqb c backslash then [backslash; backslash]
  else if n =? 8 then [backslash; "b"%char]
  else if n =? 12 then [backslash; "f"%char]
  else if n =? 10 then [backslash; "n"%char]
  else if n =? 13 then [backslash; "r"%char]
  else if n =? 9 then [backslash; "t"%char]
  else if n <? 32 then
    [backslash; "u"%char; "0"%char; "0"%char; hex_char (n / 16); hex_char (n mod 16)]
  else [c].

Definition QuoteJSONString (s : string) : list ascii :=
  (dquote :: flat_map quote_char (chars s) ++ [dquote])%list.

Fixpoint join (sep : list ascii) (parts : list (list ascii)) : list ascii :=
  match parts with
  | [] => []
  | [p] => p
  | p :: rest => (p ++ sep ++ join sep rest)%list
  end.

(** [JSON.stringify(value, null, 2)] at the indentation [indent]. The
    properties of an object are written in the order of the list: the
    order of their creation, no name being an array index. A number that
    is not finite is written [null]. *)
Fixpoint serialize (indent : list ascii) (v : json) : list ascii :=
  let indent' := (indent ++ chars "  ")%list in
  let sep := ("," :: newline :: indent')%char%list in
  match v with
  | JNull => chars "null"
  | JBool true => chars "true"
  | JBool false => chars "false"
  | JNumber n => chars (if Number_isFinite n then Number_toString n else "null")
  | JString s => QuoteJSONString s
  | JArray [] => chars "[]"
  | JArray xs =>
      ("["%char :: newline :: indent'
         ++ join sep (map (serialize indent') xs)
         ++ newline :: indent ++ ["]"%char])%list
  | JObject [] => chars "{}"
  | JObject kvs =>
      ("{"%char :: newline :: indent'
         ++ join sep
              (map (fun kv => QuoteJSONString (fst kv) ++ chars ": "
                              ++ serialize indent' (snd kv)) kvs)
         ++ newline :: indent ++ ["}"%char])%list
  end.

Definition JSON_stringify (v : json) : string :=
  string_of_list_ascii (serialize [] v).

Definition is_json_ws (c : ascii) : bool :=
  let n := Z.of_nat (nat_of_ascii c) in
  (n =? 32) || (n =? 9) || (n =? 10) || (n =? 13).

Fixpoint skip_ws (cs : list ascii) : list ascii :=
  match cs with
  | c :: r => if is_json_ws c then skip_ws r else cs
  | [] => []
  end.

Definition byte (n : Z) : ascii := ascii_of_nat (Z.to_nat n).

(** The UTF-8 form of a code point (of a lone surrogate too) *)
Definition utf8 (cp : Z) : list ascii :=
  if cp <? 128 then [byte cp]
  else if cp <? 2048 then [byte (192 + cp / 64); byte (128 + cp mod 64)]
  else if cp <? 65536 then
    [byte (224 + cp / 4096); byte (128 + (cp / 64) mod 64); byte (128 + cp mod 64)]
  else
    [byte (240 + cp / 262144); byte (128 + (cp / 4096) mod 64);
     byte (128 + (cp / 64) mod 64); byte (128 + cp mod 64)].

Definition hex4 (a b c d : ascii) : option Z :=
  match hex_digit_val a, hex_digit_val b, hex_digit_val c, hex_digit_val d with
  | Some x, Some y, Some z, Some w => Some (((x * 16 + y) * 16 + z) * 16 + w)
  | _, _, _, _ => None
  end.

(** The character an escape other than [\u] stands for *)
Definition unescape (e : ascii) : option ascii :=
  if Ascii.eqb e dquote then Some dquote
  else if Ascii.eqb e backslash then Some backslash
  else if Ascii.eqb e "/" then Some "/"%char
  else if Ascii.eqb e "b" then Some "008"%char
  else if Ascii.eqb e "f" then Some "012"%char
  else if Ascii.eqb e "n" then Some "010"%char
  else if Ascii.eqb e "r" then Some "013"%char
  else if Ascii.eqb e "t" then Some "009"%char
  else None.

Definition cons_chars (cs : list ascii) (r : option (list ascii * list ascii))
  : option (list ascii * list ascii) :=
  match r with
  | Some (s, rest) => Some ((cs ++ s)%list, rest)
  | None => None
  end.

(** The low surrogate escaped at the head of [cs], with what follows *)
Definition low_surrogate (cs : list ascii) : option Z :=
  match cs with
  | b :: u :: a1 :: a2 :: a3 :: a4 :: _ =>
      if Ascii.eqb b backslash && Ascii.eqb u "u" then
        match hex4 a1 a2 a3 a4 with
        | Some lo => if (56320 <=? lo) && (lo <=? 57343) then Some lo else None
        | None => None
        end
      else None
  | _ => None
  end.

(** The characters of a string after its opening quote, and the text
    after its closing quote *)
Fixpoint parse_chars (cs : list ascii) : option (list ascii * list ascii) :=
  match cs with
  | [] => None
  | c :: r =>
      if Ascii.eqb c dquote then Some ([], r)
      else if Ascii.eqb c backslash then
        match r with
        | [] => None
        | e :: r1 =>
            if Ascii.eqb e "u" then
              match r1 with
              | a1 :: a2 :: a3 :: a4 :: r2 =>
                  match hex4 a1 a2 a3 a4 with
                  | Some hi =>
                      match (if (55296 <=? hi) && (hi <=? 56319)
                             then low_surrogate r2 else None), r2 with
                      | Some lo, _ :: _ :: _ :: _ :: _ :: _ :: r3 =>
                          cons_chars
                            (utf8 (65536 + (hi - 55296) * 1024 + (lo - 56320)))
                            (parse_chars r3)
                      | _, _ => cons_chars (utf8 hi) (parse_chars r2)
                      end
                  | None => None
                  end
              | _ => None
              end
            else
              match unescape e with
              | Some x => cons_chars [x] (parse_chars r1)
              | None => None
              end
        end
      else if Z.of_nat (nat_of_ascii c) <? 32 then None
      else cons_chars [c] (parse_chars r)
  end.

Definition is_number_char (c : ascii) : bool :=
  match digit_val c with
  | Some _ => true
  | None => existsb (Ascii.eqb c) ["-"; "+"; "."; "e"; "E"]%char
  end.

Fixpoint number_lexeme (cs : list ascii) : list ascii * list ascii :=
  match cs with
  | c :: r =>
      if is_number_char c
      then let (l, rest) := number_lexeme r in (c :: l, rest)
      else ([], cs)
  | [] => ([], [])
  end.

(** The text after [word], when [cs] starts with it *)
Fixpoint expect (word : list ascii) (cs : list ascii) : option (list ascii) :=
  match word with
  | [] => Some cs
  | c :: word' =>
      match cs with
      | d :: cs' => if Ascii.eqb c d then expect word' cs' else None
      | [] => None
      end
  end.

(** The elements after [[], a first one being there *)
Fixpoint parse_elements (value : list ascii -> option (json * list ascii))
  (n : nat) (cs : list ascii) : option (list json * list ascii) :=
  match n with
  | O => None
  | S n' =>
      match value cs with
      | Some (v, r) =>
          match skip_ws r with
          | c :: r' =>
              if Ascii.eqb c "," then
                match parse_elements value n' r' with
                | Some (vs, rest) => Some (v :: vs, rest)
                | None => None
                end
              else if Ascii.eqb c "]" then Some ([v], r')
              else None
          | [] => None
          end
      | None => None
      end
  end.

(** The members after [{], a first one being there *)
Fixpoint parse_members (value : list ascii -> option (json * list ascii))
  (n : nat) (cs : list ascii) : option (list (string * json) * list ascii) :=
  match n with
  | O => None
  | S n' =>
      match skip_ws cs with
      | q :: r0 =>
          if Ascii.eqb q dquote then
            match parse_chars r0 with
            | Some (k, r1) =>
                match skip_ws r1 with
                | c1 :: r2 =>
                    if Ascii.eqb c1 ":" then
                      match value r2 with
                      | Some (v, r3) =>
                          match skip_ws r3 with
                          | c :: r' =>
                              if Ascii.eqb c "," then
                                match parse_members value n' r' with
                                | Some (kvs, rest) =>
                                    Some ((string_of_list_ascii k, v) :: kvs, rest)
                                | None => None
                                end
                              else if Ascii.eqb c "}"
                              then Some ([(string_of_list_ascii k, v)], r')
                              else None
                          | [] => None
                          end
                      | None => None
                      end
                    else None
                | [] => None
                end
            | None => None
            end
          else None
      | [] => None
      end
  end.

(** A value at the head of [cs], white space before it skipped, and the
    text after it; [fuel] bounds the nesting and the number of elements
    of one array or object. *)
Fixpoint parse_value (fuel : nat) (cs : list ascii) : option (json * list ascii) :=
  match fuel with
  | O => None
  | S fuel' =>
      match skip_ws cs with
      | [] => None
      | c :: r =>
          if Ascii.eqb c "n" then option_map (pair JNull) (expect (chars "ull") r)
          else if Ascii.eqb c "t" then option_map (pair (JBool true)) (expect (chars "rue") r)
          else if Ascii.eqb c "f" then option_map (pair (JBool false)) (expect (chars "alse") r)
          else if Ascii.eqb c dquote then
            match parse_chars r with
            | Some (s, rest) => Some (JString (string_of_list_ascii s), rest)
            | None => None
            end
          else if Ascii.eqb c "[" then
            match skip_ws r with
            | c' :: r' =>
                if Ascii.eqb c' "]" then Some (JArray [], r')
                else
                  match parse_elements (parse_value fuel') fuel' r with
                  | Some (vs, rest) => Some (JArray vs, rest)
                  | None => None
                  end
            | [] => None
            end
          else if Ascii.eqb c "{" then
            match skip_ws r with
            | c' :: r' =>
                if Ascii.eqb c' "}" then Some (JObject [], r')
                else
                  match parse_members (parse_value fuel') fuel' r with
                  | Some (kvs, rest) => Some (JObject kvs, rest)
                  | None => None
                  end
            | [] => None
            end
          else
            if is_number_char c then
              let (l, rest) := number_lexeme (c :: r) in
              match Number_parse (string_of_list_ascii l) with
              | Some n => Some (JNumber n, rest)
              | None => None
              end
            else None
      end
  end.

(** [JSON.parse]: [None] for a SyntaxError *)
Definition JSON_parse (text : string) : option json :=
  let cs := chars text in
  match parse_value (S (List.length cs)) cs with
  | Some (v, rest) =>
      match skip_ws rest with
      | [] => Some v
      | _ => None
      end
  | None => None
  end.

(** [ToBoolean] *)
Definition ToBoolean (v : json) : bool :=
  match v with
  | JNull => false
  | JBool b => b
  | JNumber n => Number_truthy n
  | JString s => negb (String.eqb s "")
  | JArray _ | JObject _ => true
  end.

(** A property read gives a value or [undefined] ([None]). *)
Definition truthy (v : option json) : bool :=
  match v with
  | Some j => ToBoolean j
  | None => false
  end.

(** The value of the last property named [key]: [JSON.parse] keeps the
    last of the properties of one name. *)
Fixpoint lookup (key : string) (kvs : list (string * json)) : option json :=
  match kvs with
  | [] => None
  | (k, v) :: rest =>
      match lookup key rest with
      | Some v' => Some v'
      | None => if String.eqb k key then Some v else None
      end
  end.

(** [String(v)]: an array is its elements joined by commas, [null] among
    them as the empty string; an object is [[object Object]], the text
    of [Object.prototype.toString], unless it has a property [toString]
    of its own: no value of a JSON text can be called, neither that
    property nor what [valueOf] returns gives a primitive value, and the
    conversion throws a TypeError. *)
Fixpoint ToString (v : json) : Completion string :=
  match v with
  | JNull => Normal "null"
  | JBool true => Normal "true"
  | JBool false => Normal "false"
  | JNumber n => Normal (Number_toString n)
  | JString s => Normal s
  | JArray xs =>
      match (fix elements (xs : list json) : Completion (list string) :=
               match xs with
               | [] => Normal []
               | x :: rest =>
                   match match x with
                         | JNull => Normal ""
                         | _ => ToString x
                         end with
                   | Normal s =>
                       match elements rest with
                       | Normal ss => Normal (s :: ss)
                       | Throw e => Throw e
                       end
                   | Throw e => Throw e
                   end
               end) xs with
      | Normal ss => Normal (String.concat "," ss)
      | Throw e => Throw e
      end
  | JObject kvs =>
      match lookup "toString" kvs with
      | Some _ => Throw NotPrimitive
      | None => Normal "[object Object]"
      end
  end.

(** [v.key] on a value other than [null], for the keys the source reads:
    none of them is a property of a string, a number, a boolean or an
    array, but for [entries], a method of arrays, which is no array. *)
Definition prop (v : json) (key : string) : option json :=
  match v with
  | JObject kvs => lookup key kvs
  | _ => None
  end.

(** [v.key]: a TypeError on [null] *)
Definition Get (v : json) (key : string) : M (option json) :=
  match v with
  | JNull => throw (TypeError key)
  | _ => ret (prop v key)
  end.

(** [v?.key] *)
Definition Get_opt (v : option json) (key : string) : option json :=
  match v with
  | None | Some JNull => None
  | Some j => prop j key
  end.

Definition isArray (v : option json) : bool :=
  match v with
  | Some (JArray _) => true
  | _ => false
  end.

Definition elements_of (v : option json) : list json :=
  match v with
  | Some (JArray xs) => xs
  | _ => []
  end.

(** [String(v || d)] *)
Definition String_or (v : option json) (d : M string) : M string :=
  match v with
  | Some j => if ToBoolean j then lift (ToString j) else d
  | None => d
  end.

(** *** Date.parse and new Date(value) *)

Definition LocalTime (t : Z) : Z := t + LocalTZA t true.
Definition UTC (t : Z) : Z := t - LocalTZA t false.

Definition MakeTime (h m s ms : Z) : Z :=
  h * msPerHour + m * msPerMinute + s * msPerSecond + ms.

(** [MakeDay year month date], the month counted from 0 *)
Definition MakeDay (year month date : Z) : Z :=
  days_from_civil (year + month / 12) (month mod 12 + 1) 1 + date - 1.

Definition MakeDate (day time : Z) : Z := day * msPerDay + time.

(** The time value of a string in the Date Time String Format: a date
    alone is UTC, a date and time without an offset is local time. *)
Definition iso_time_value (f : IsoFields) : option Z :=
  let day := MakeDay (iso_year f) (iso_month f - 1) (iso_day f) in
  match iso_time f with
  | None => TimeClip (MakeDate day 0)
  | Some (h, mi, s, ms) =>
      let t := MakeDate day (MakeTime h mi s ms) in
      match iso_offset f with
      | Some east => TimeClip (t - east * msPerMinute)
      | None => TimeClip (UTC t)
      end
  end.

Definition Date_parse (s : string) : option Z :=
  match iso_fields s with
  | Some f => if iso_legal f then iso_time_value f else Date_parse_other s
  | None => Date_parse_other s
  end.

(** [new Date(v)] for a JSON value: a string is parsed; an array or an
    object is first turned into a string, which throws where [String(v)]
    does; anything else into a number. *)
Definition new_Date (v : json) : Completion (option Z) :=
  match v with
  | JString s => Normal (Date_parse s)
  | JArray _ | JObject _ =>
      match ToString v with
      | Normal s => Normal (Date_parse s)
      | Throw e => Throw e
      end
  | JNumber n => Normal (Number_toTimeValue n)
  | JBool b => Normal (TimeClip (if b then 1 else 0))
  | JNull => Normal (TimeClip 0)
  end.

(** *** The handlers

    A handler runs on the state of the last render and ends with the
    state it sets; [setState (fun prev => ...)] receives that state as
    [prev], no other update being pending. *)

Definition setState (update : Document -> Document) (state : Document)
  : M Document :=
  ret (update state).

(** [note || undefined] *)
Definition note_or_undefined (note : option string) : option string :=
  match note with
  | Some s => if String.eqb s "" then None else Some s
  | None => None
  end.

(** recordEntry, lines 155-170 *)
Definition recordEntry (lockable : Lockable.t) (state : Document) : M Document :=
  note <- (if confirmNote (prefs state) then prompt else ret None) ;;
  i <- uid ;;
  now <- Date_now ;;
  ts <- toISOString (Some now) ;;
  let entry :=
    {| Entry.id := i;
       Entry.lockableId := Lockable.id lockable;
       Entry.tsISO := ts;
       Entry.note := note_or_undefined note |} in
  setState (fun prev =>
              {| lockables := lockables prev;
                 entries := firstn 200 (entry :: entries prev);
                 prefs := prefs prev |}) state.

(** [!s] for the reply of a prompt *)
Definition no_reply (s : option string) : bool :=
  match s with
  | Some s => String.eqb s ""
  | None => true
  end.

Definition reply_text (s : option string) : string :=
  match s with
  | Some s => s
  | None => ""
  end.

(** addLockable, lines 175-187 *)
Definition addLockable (state : Document) : M Document :=
  name <- prompt ;;
  if no_reply name then ret state else
  icon <- prompt ;;
  if no_reply icon then ret state else
  color <- prompt ;;
  i <- uid ;;
  let newLockable :=
    {| Lockable.id := i;
       Lockable.name := reply_text name;
       Lockable.icon := reply_text icon;
       Lockable.color := color |} in
  setState (fun prev =>
              {| lockables := (lockables prev ++ [newLockable])%list;
                 entries := entries prev;
                 prefs := prefs prev |}) state.

(** undoLast, lines 192-197 *)
Definition undoLast (state : Document) : M Document :=
  setState (fun prev =>
              {| lockables := lockables prev;
                 entries := skipn 1 (entries prev);
                 prefs := prefs prev |}) state.

(** updateTheme, lines 362-367 *)
Definition updateTheme (theme' : string) (state : Document) : M Document :=
  setState (fun prev =>
              {| lockables := lockables prev;
                 entries := entries prev;
                 prefs := {| theme := theme';
                             confirmNote := confirmNote (prefs prev);
                             quickNoteSuggestions := quickNoteSuggestions (prefs prev) |} |})
           state.

(** *** Export and import *)

(** The value [JSON.stringify] walks: the properties in the order of
    their creation, those that are [undefined] left out. *)
Definition Lockable_json (l : Lockable.t) : json :=
  JObject [ ("id", JString (Lockable.id l));
            ("name", JString (Lockable.name l));
            ("icon", JString (Lockable.icon l));
            ("color", match Lockable.color l with
                      | Some c => JString c
                      | None => JNull
                      end) ].

Definition Entry_json (e : Entry.t) : json :=
  JObject ([ ("id", JString (Entry.id e));
             ("lockableId", JString (Entry.lockableId e));
             ("tsISO", JString (Entry.tsISO e)) ]
           ++ match Entry.note e with
              | Some n => [("note", JString n)]
              | None => []
              end)%list.

Definition Preferences_json (p : Preferences) : json :=
  JObject [ ("theme", JString (theme p));
            ("confirmNote", JBool (confirmNote p));
            ("quickNoteSuggestions", JArray (map JString (quickNoteSuggestions p))) ].

Definition Document_json (state : Document) : json :=
  JObject [ ("lockables", JArray (map Lockable_json (lockables state)));
            ("entries", JArray (map Entry_json (entries state)));
            ("prefs", Preferences_json (prefs state)) ].

(** exportData, lines 202-214: the name and the text of the file that is
    downloaded. *)
Definition exportData (state : Document) : string * string :=
  ("lock-logger-data.json", JSON_stringify (Document_json state)).

(** [err.message] *)
Definition message_of (err : JsError) : string :=
  match err with
  | Error m => m
  | _ => native_message err
  end.

(** One element of [data.lockables.map(...)], lines 231-236 *)
Definition import_lockable (l : json) : M Lockable.t :=
  id_ <- Get l "id" ;;
  i <- String_or id_ uid ;;
  name_ <- Get l "name" ;;
  n <- String_or name_ (ret "Sin nombre") ;;
  icon_ <- Get l "icon" ;;
  ic <- String_or icon_ (ret "🔒") ;;
  color_ <- Get l "color" ;;
  c <- String_or color_ (ret "#0ea5e9") ;;
  ret {| Lockable.id := i; Lockable.name := n;
         Lockable.icon := ic; Lockable.color := Some c |}.

(** [data.lockables[0]?.id] *)
Definition first_lockable_id (data_lockables : list json) : option json :=
  Get_opt (nth_error data_lockables 0) "id".

(** One element of [data.entries.map(...)], lines 237-242 *)
Definition import_entry (data_lockables : list json) (e : json) : M Entry.t :=
  id_ <- Get e "id" ;;
  i <- String_or id_ uid ;;
  lockableId_ <- Get e "lockableId" ;;
  li <- String_or lockableId_
          (String_or (first_lockable_id data_lockables) (ret "casa")) ;;
  tsISO_ <- Get e "tsISO" ;;
  date <- match tsISO_ with
          | Some v => if ToBoolean v then lift (new_Date v)
                      else now <- Date_now ;; ret (Some now)
          | None => now <- Date_now ;; ret (Some now)
          end ;;
  ts <- toISOString date ;;
  note_ <- Get e "note" ;;
  note <- match note_ with
          | Some v => if ToBoolean v
                      then n <- lift (ToString v) ;; ret (Some n)
                      else ret None
          | None => ret None
          end ;;
  ret {| Entry.id := i; Entry.lockableId := li; Entry.tsISO := ts;
         Entry.note := note |}.

(** The [prefs] of the imported document, lines 243-251 *)
Definition import_prefs (data_prefs : option json) : M Preferences :=
  let theme_ :=
    match Get_opt data_prefs "theme" with
    | Some (JString s) =>
        if existsb (String.eqb s) ["system"; "light"; "dark"] then s else "system"
    | _ => "system"
    end in
  let confirmNote_ := truthy (Get_opt data_prefs "confirmNote") in
  suggestions <- match Get_opt data_prefs "quickNoteSuggestions" with
                 | Some (JArray xs) => mapM (fun x => lift (ToString x)) xs
                 | _ => ret defaultSuggestions
                 end ;;
  ret {| theme := theme_;
         confirmNote := confirmNote_;
         quickNoteSuggestions := suggestions |}.

(** The [try] block of [reader.onload], lines 225-252, after
    [JSON.parse] *)
Definition import_document (data : json) : M Document :=
  data_lockables <- Get data "lockables" ;;
  if negb (isArray data_lockables) then throw (Error "Formato inválido") else
  data_entries <- Get data "entries" ;;
  if negb (isArray data_entries) then throw (Error "Formato inválido") else
  ls <- mapM import_lockable (elements_of data_lockables) ;;
  es <- mapM (import_entry (elements_of data_lockables)) (elements_of data_entries) ;;
  data_prefs <- Get data "prefs" ;;
  p <- import_prefs data_prefs ;;
  ret {| lockables := ls; entries := es; prefs := p |}.

(** importData, lines 219-260: [file] is the text of the chosen file,
    [None] when no file was chosen. *)
Definition importData (file : option string) (state : Document) : M Document :=
  match file with
  | None => ret state
  | Some text =>
      try_catch
        (data <- match JSON_parse text with
                 | Some data => ret data
                 | None => throw (SyntaxError text)
                 end ;;
         imported <- import_document data ;;
         setState (fun _ => imported) state)
        (fun err =>
           alert ("No se pudo importar: " ++ message_of err) ;;;
           ret state)
  end.

(** *** The streak (lines 301-318) *)

(** [d.setHours(0, 0, 0, 0)]: the start of the local day of [d] *)
Definition setHours0 (d : option Z) : option Z :=
  match d with
  | Some tv =>
      let t := LocalTime tv in
      TimeClip (UTC (MakeDate (Day t) (MakeTime 0 0 0 0)))
  | None => None
  end.

(** [d.getDate()] *)
Definition getDate (d : option Z) : option Z :=
  match d with
  | Some tv => Some (DateFromTime (LocalTime tv))
  | None => None
  end.

(** [d.setDate(dt)] *)
Definition setDate (d : option Z) (dt : option Z) : option Z :=
  match d, dt with
  | Some tv, Some dt =>
      let t := LocalTime tv in
      TimeClip (UTC (MakeDate (MakeDay (YearFromTime t) (MonthFromTime t) dt)
                              (TimeWithinDay t)))
  | _, _ => None
  end.

(** [date.setDate(date.getDate() - 1)] *)
Definition previous_day (date : option Z) : option Z :=
  setDate date (option_map (fun dt => dt - 1) (getDate date)).

(** The key of an entry in [daysWithEntry] *)
Definition day_key (e : Entry.t) : option Z :=
  setHours0 (Date_parse (Entry.tsISO e)).

Definition same_time (a b : option Z) : bool :=
  match a, b with
  | Some x, Some y => x =? y
  | None, None => true
  | _, _ => false
  end.

(** [daysWithEntry.has(t)]: NaN is found as well *)
Definition has (days : list (option Z)) (t : option Z) : bool :=
  existsb (same_time t) days.

(** The [while] loop; [None] when it has not ended after [fuel] tests. *)
Fixpoint streak_loop (fuel : nat) (daysWithEntry : list (option Z))
  (date : option Z) (count : nat) : option nat :=
  match fuel with
  | O => None
  | S fuel' =>
      if has daysWithEntry date
      then streak_loop fuel' daysWithEntry (previous_day date) (S count)
      else Some count
  end.

(** The streak at the time [now] of the render. The loop is given one
    test more than there are entries. *)
Definition streak (state : Document) (now : Z) : option nat :=
  if (List.length (entries state) =? 0)%nat then Some 0%nat
  else
    let daysWithEntry := map day_key (entries state) in
    streak_loop (S (List.length (entries state))) daysWithEntry
      (setHours0 (Some now)) 0%nat.

(** [n] clicks on lockable buttons, one handler after the other, each on
    the state the one before has set *)
Fixpoint recordEntries (ls : list Lockable.t) (state : Document) : M Document :=
  match ls with
  | [] => ret state
  | l :: rest => state' <- recordEntry l state ;; recordEntries rest state'
  end.

(** The entry the handler [recordEntry] builds in the world [w] *)
Definition entry_made (confirm : bool) (l : Lockable.t) (w : World) : Entry.t :=
  {| Entry.id := random_ids w (n_random w);
     Entry.lockableId := Lockable.id l;
     Entry.tsISO := ISOString (clock w (n_clock w));
     Entry.note := if confirm
                   then note_or_undefined (prompt_replies w (n_prompt w))
                   else None |}.

(** The world after one [recordEntry] *)
Definition world_after_record (confirm : bool) (w : World) : World :=
  mkWorld (random_ids w) (clock w) (prompt_replies w)
          (S (n_random w)) (S (n_clock w))
          (if confirm then S (n_prompt w) else n_prompt w) (alerts w).

(** The entries that [recordEntries ls] builds from the world [w] on,
    the first built first *)
Fixpoint entries_made (confirm : bool) (ls : list Lockable.t) (w : World)
  : list Entry.t :=
  match ls with
  | [] => []
  | l :: rest =>
      entry_made confirm l w :: entries_made confirm rest (world_after_record confirm w)
  end.

(** *** The bars of the last seven days (lines 323-343) *)

(** [buckets[key]], [undefined] ([None]) when there is no such
    property *)
Fixpoint bucket (buckets : Buckets) (key : option Z) : option nat :=
  match buckets with
  | [] => None
  | (k, n) :: rest => if same_time k key then Some n else bucket rest key
  end.

(** [buckets[key] = n] *)
Fixpoint set_bucket (buckets : Buckets) (key : option Z) (n : nat) : Buckets :=
  match buckets with
  | [] => [(key, n)]
  | (k, m) :: rest =>
      if same_time k key then (k, n) :: rest
      else (k, m) :: set_bucket rest key n
  end.

(** [n || 0] for a count or [undefined] *)
Definition or_zero (n : option nat) : nat :=
  match n with
  | Some n => n
  | None => 0
  end.

(** One round of [state.entries.forEach], lines 328-333 *)
Definition count_entry (buckets : Buckets) (e : Entry.t) : Buckets :=
  let key := day_key e in
  set_bucket buckets key (or_zero (bucket buckets key) + 1).

(** The bars at the time [now] of the render, that of the day six days
    ago first *)
Definition last7 (state : Document) (now : Z) : list Bar.t :=
  let today := setHours0 (Some now) in
  let buckets := fold_left count_entry (entries state) [] in
  map (fun i =>
         let d := setDate today (option_map (fun dt => dt - i) (getDate today)) in
         {| Bar.label := toLocaleDateString d;
            Bar.count := or_zero (bucket buckets d) |})
      [6; 5; 4; 3; 2; 1; 0].

(** *** The entries that match the search (lines 348-357) *)

(** [state.lockables.find((l) => l.id === id)] *)
Definition find_lockable (state : Document) (id : string) : option Lockable.t :=
  find (fun l => String.eqb (Lockable.id l) id) (lockables state).

Definition filteredEntries (filter : string) (state : Document) : list Entry.t :=
  let term := String_toLowerCase (String_trim filter) in
  if String.eqb term "" then entries state
  else
    List.filter
      (fun e =>
         let lock := find_lockable state (Entry.lockableId e) in
         let name := match lock with
                     | Some l => String_toLowerCase (Lockable.name l)
                     | None => ""
                     end in
         let note := String_toLowerCase (match Entry.note e with
                                         | Some n => n
                                         | None => ""
                                         end) in
         includes name term || includes note term)
      (entries state).

(** *** shareLast (lines 265-296) *)

(** formatDateTime, lines 118-123 *)
Definition formatDateTime (date : option Z) : string := toLocaleString date.

(** The text that is shared for the entry [last] *)
Definition share_message (state : Document) (last : Entry.t) : string :=
  let lock := find_lockable state (Entry.lockableId last) in
  "Último registro: "
  ++ match lock with
     | Some l => Lockable.name l
     | None => Entry.lockableId last
     end
  ++ " a las " ++ formatDateTime (Date_parse (Entry.tsISO last)).

(** [navigator.clipboard.writeText(msg).then(() => alert(...))
    .catch(() => {})]; a TypeError where there is no
    [navigator.clipboard] *)
Definition copy_to_clipboard (navigator : Navigator) (msg : string)
  : M (list NavigatorCall) :=
  match clipboard navigator with
  | Some writeText =>
      if writeText msg
      then alert "Copiado al portapapeles" ;;; ret [clipboard_writeText msg]
      else ret [clipboard_writeText msg]
  | None => throw (TypeError "writeText")
  end.

(** shareLast: the calls made on [navigator], the first one first; the
    messages shown are in the world. An exception at the end is that of
    the callback given to [catch], which nothing handles. *)
Definition shareLast (navigator : Navigator) (state : Document)
  : M (list NavigatorCall) :=
  match entries state with
  | [] => alert "No hay registros aún." ;;; ret []
  | last :: _ =>
      let msg := share_message state last in
      match share navigator with
      | Some share_ =>
          if share_ "¿Cerré con llave?" msg
          then ret [navigator_share "¿Cerré con llave?" msg]
          else
            calls <- copy_to_clipboard navigator msg ;;
            ret (navigator_share "¿Cerré con llave?" msg :: calls)
      | None =>
          match clipboard navigator with
          | Some _ => copy_to_clipboard navigator msg
          | None => alert msg ;;; ret []
          end
      end
  end.

(** *** The state in localStorage (useLocalStorage, lines 73-90) *)

(** [JSON.stringify(value)], without indentation *)
Fixpoint serialize_compact (v : json) : list ascii :=
  match v with
  | JNull => chars "null"
  | JBool true => chars "true"
  | JBool false => chars "false"
  | JNumber n => chars (if Number_isFinite n then Number_toString n else "null")
  | JString s => QuoteJSONString s
  | JArray xs =>
      ("["%char :: join [","%char] (map serialize_compact xs) ++ ["]"%char])%list
  | JObject kvs =>
      ("{"%char
         :: join [","%char]
              (map (fun kv => QuoteJSONString (fst kv) ++ ":"%char
                              :: serialize_compact (snd kv)) kvs)
         ++ ["}"%char])%list
  end.

Definition JSON_stringify_compact (v : json) : string :=
  string_of_list_ascii (serialize_compact v).

(** The initial state, lines 74-81: the value of the stored text; the
    default where there is no text, or an empty one, or where [getItem]
    or [JSON.parse] throws. *)
Definition initial_state (storage : Storage) (key : string) (defaultValue : json)
  : json :=
  match getItem storage key with
  | Some (Some stored) =>
      if String.eqb stored "" then defaultValue
      else match JSON_parse stored with
           | Some v => v
           | None => defaultValue
           end
  | Some None => defaultValue
  | None => defaultValue
  end.

(** The effect, lines 82-88: the state is stored; an exception of
    [setItem] is ignored. *)
Definition persist (storage : Storage) (key : string) (state : json) : Storage :=
  match setItem storage key (JSON_stringify_compact state) with
  | Some storage' => storage'
  | None => storage
  end.

(** The state of [App] at its first render, line 127, and the storage
    after the effect of a render with the Document [state] *)
Definition App_initial_state (storage : Storage) : json :=
  initial_state storage "lockLoggerData" (Document_json defaultState).

Definition App_persist (storage : Storage) (state : Document) : Storage :=
  persist storage "lockLoggerData" (Document_json state).

(** *** The controls (lines 424-471) *)

(** [disabled] of the button Deshacer, line 431 *)
Definition undo_disabled (state : Document) : bool :=
  (List.length (entries state) =? 0)%nat.

(** ** Properties *)

Lemma recordEntry_eq (l : Lockable.t) (state : Document) (w : World) :
  recordEntry l state w =
  (Normal {| lockables := lockables state;
             entries := firstn 200
                          (entry_made (confirmNote (prefs state)) l w :: entries state);
             prefs := prefs state |},
   world_after_record (confirmNote (prefs state)) w).
Proof.
  unfold recordEntry, entry_made, world_after_record, bind, setState, ret.
  destruct (confirmNote (prefs state)); reflexivity.
Qed.

Lemma firstn_app_firstn {A} (xs ys : list A) :
  forall n m : nat, (n <= m)%nat ->
  firstn n (xs ++ firstn m ys) = firstn n (xs ++ ys).
Proof.
  induction xs as [|x xs IH]; intros n m Hnm.
  - rewrite !app_nil_l, firstn_firstn. f_equal. lia.
  - destruct n as [|n]; [reflexivity|].
    rewrite <- !app_comm_cons, !firstn_cons. f_equal. apply IH. lia.
Qed.

Lemma recordEntries_eq (ls : list Lockable.t) :
  forall (state : Document) (w : World),
  exists w',
    recordEntries ls state w =
    (Normal {| lockables := lockables state;
               entries := firstn 200
                            (rev (entries_made (confirmNote (prefs state)) ls w)
                             ++ entries state);
               prefs := prefs state |}, w')
    \/ (ls = [] /\ recordEntries ls state w = (Normal state, w')).
Proof.
  induction ls as [|l rest IH]; intros state w.
  - exists w. right. split; reflexivity.
  - simpl recordEntries. unfold bind at 1. rewrite recordEntry_eq.
    set (c := confirmNote (prefs state)).
    set (s1 := {| lockables := lockables state;
                  entries := firstn 200 (entry_made c l w :: entries state);
                  prefs := prefs state |}).
    destruct (IH s1 (world_after_record c w)) as [w' [H | [Hnil H]]].
    + exists w'. left. rewrite H. unfold s1.
      cbn [lockables entries prefs entries_made rev]. fold c.
      rewrite <- app_assoc. cbn [app].
      rewrite firstn_app_firstn by lia. reflexivity.
    + exists w'. left. rewrite H. subst rest. reflexivity.
Qed.

Lemma entries_made_length (confirm : bool) (ls : list Lockable.t) :
  forall w, List.length (entries_made confirm ls w) = List.length ls.
Proof.
  induction ls as [|l rest IH]; intros w; simpl; [reflexivity|].
  now rewrite IH.
Qed.

(** C2: from a Document without entries, N calls of recordEntry leave
    min(N, 200) entries, and they are the entries built by the calls, the
    newest first: the reversed list of the entries in the order they were
    built, cut after the first 200. *)
Theorem recordEntry_sequence_newest_first
  (ls : list Lockable.t) (state : Document) (w : World) :
  entries state = [] ->
  exists state' w',
    recordEntries ls state w = (Normal state', w')
    /\ List.length (entries state') = Nat.min (List.length ls) 200
    /\ entries state'
       = firstn 200 (rev (entries_made (confirmNote (prefs state)) ls w))
    /\ lockables state' = lockables state
    /\ prefs state' = prefs state.
Proof.
  intros Hempty.
  destruct (recordEntries_eq ls state w) as [w' [H | [Hnil H]]].
  - eexists. exists w'. split; [exact H|]. cbn [lockables entries prefs].
    rewrite Hempty, app_nil_r. repeat split.
    rewrite length_firstn, length_rev, entries_made_length. lia.
  - exists state, w'. subst ls. split; [exact H|].
    rewrite Hempty. repeat split.
Qed.

Lemma undoLast_eq (state : Document) (w : World) :
  undoLast state w =
  (Normal {| lockables := lockables state;
             entries := skipn 1 (entries state);
             prefs := prefs state |}, w).
Proof. reflexivity. Qed.

(** After recordEntry and undoLast the entries are the first 199 of
    those before, whatever their number; nothing else changes. *)
Lemma undo_after_record (l : Lockable.t) (state : Document) (w : World) :
  exists state1 w1 state2,
    recordEntry l state w = (Normal state1, w1)
    /\ undoLast state1 w1 = (Normal state2, w1)
    /\ lockables state2 = lockables state
    /\ prefs state2 = prefs state
    /\ entries state2 = firstn 199 (entries state).
Proof.
  rewrite recordEntry_eq. do 3 eexists. split; [reflexivity|].
  rewrite undoLast_eq. split; [reflexivity|].
  cbn [lockables entries prefs]. repeat split.
Qed.

(** C4, as the code has it: on a Document with fewer than 200 entries,
    recordEntry followed by undoLast gives the Document back, every
    field as it was. *)
Theorem undo_after_record_identity
  (l : Lockable.t) (state : Document) (w : World) :
  (List.length (entries state) < 200)%nat ->
  exists state1 w1,
    recordEntry l state w = (Normal state1, w1)
    /\ undoLast state1 w1 = (Normal state, w1).
Proof.
  intros Hlen.
  destruct (undo_after_record l state w)
    as (state1 & w1 & state2 & Hrec & Hundo & Hl & Hp & He).
  exists state1, w1. split; [exact Hrec|]. rewrite Hundo. do 2 f_equal.
  rewrite firstn_all2 in He by lia.
  destruct state2, state. cbn [lockables entries prefs] in *. congruence.
Qed.

(** C10: updateTheme sets the theme and leaves the lockables, the
    entries and the other two preferences as they were; it reads and
    changes nothing of the browser. *)
Theorem updateTheme_changes_only_theme
  (theme' : string) (state : Document) (w : World) :
  exists state',
    updateTheme theme' state w = (Normal state', w)
    /\ theme (prefs state') = theme'
    /\ lockables state' = lockables state
    /\ entries state' = entries state
    /\ confirmNote (prefs state') = confirmNote (prefs state)
    /\ quickNoteSuggestions (prefs state') = quickNoteSuggestions (prefs state).
Proof.
  eexists. split; [reflexivity|]. repeat split.
Qed.

(** The invariant of the spec, [entries.length <= 200] *)
Definition entries_capped (state : Document) : Prop :=
  (List.length (entries state) <= 200)%nat.

Lemma recordEntry_capped (l : Lockable.t) (state : Document) (w : World) :
  exists state' w',
    recordEntry l state w = (Normal state', w') /\ entries_capped state'.
Proof.
  rewrite recordEntry_eq. do 2 eexists. split; [reflexivity|].
  unfold entries_capped. cbn [entries]. rewrite length_firstn. lia.
Qed.

Lemma addLockable_entries (state : Document) (w : World) :
  exists state' w',
    addLockable state w = (Normal state', w') /\ entries state' = entries state.
Proof.
  unfold addLockable, bind, prompt, uid, setState, ret. simpl.
  destruct (no_reply (prompt_replies w (n_prompt w))); [eauto|]. simpl.
  destruct (no_reply (prompt_replies w (S (n_prompt w)))); simpl; eauto.
Qed.

(** recordEntry, addLockable, undoLast and updateTheme keep the cap:
    recordEntry sets it, the other three add no entry. *)
Lemma handlers_keep_cap (state : Document) (w : World) :
  entries_capped state ->
  (forall l, exists state' w',
      recordEntry l state w = (Normal state', w') /\ entries_capped state')
  /\ (exists state' w',
      addLockable state w = (Normal state', w') /\ entries_capped state')
  /\ (exists state' w',
      undoLast state w = (Normal state', w') /\ entries_capped state')
  /\ (forall t, exists state' w',
      updateTheme t state w = (Normal state', w') /\ entries_capped state').
Proof.
  intros Hcap. repeat split.
  - intros l. apply recordEntry_capped.
  - destruct (addLockable_entries state w) as (s' & w' & H & He).
    exists s', w'. split; [exact H|]. unfold entries_capped. now rewrite He.
  - rewrite undoLast_eq. do 2 eexists. split; [reflexivity|].
    unfold entries_capped in *. cbn [entries]. rewrite length_skipn. lia.
  - intros t. do 2 eexists. split; [reflexivity|]. exact Hcap.
Qed.

(** *** The fetch listener *)

(** C8: a request of another method than GET is not answered by the
    worker. A GET request is answered with the cached response when
    there is one; otherwise with the response of the network; and when
    the network fails, with what the caches hold for [./index.html]. *)
Theorem onfetch_policy (Response : Type)
  (caches : CacheStorage Response) (fetch : Network Response) (request : Request) :
  (method request <> "GET" -> onfetch caches fetch request = PassThrough)
  /\ (method request = "GET" ->
      onfetch caches fetch request <> PassThrough
      /\ (forall cached,
             caches_match caches request = Some cached ->
             onfetch caches fetch request = RespondWith (Some cached))
      /\ (forall response,
             caches_match caches request = None ->
             fetch request = Some response ->
             onfetch caches fetch request = RespondWith (Some response))
      /\ (caches_match caches request = None ->
          fetch request = None ->
          onfetch caches fetch request
          = RespondWith (caches_match caches (mkRequest "GET" "./index.html")))).
Proof.
  unfold onfetch. split.
  - intros Hm. apply String.eqb_neq in Hm. now rewrite Hm.
  - intros Hm. apply String.eqb_eq in Hm. rewrite Hm. cbn [negb].
    split; [discriminate|]. split; [|split].
    + intros cached Hc. now rewrite Hc.
    + intros response Hc Hf. now rewrite Hc, Hf.
    + intros Hc Hf. now rewrite Hc, Hf.
Qed.

(** *** readableTextColor *)

Definition all_ascii : list ascii := map ascii_of_nat (seq 0 256).

Lemma in_all_ascii (c : ascii) : In c all_ascii.
Proof.
  unfold all_ascii. rewrite <- (ascii_nat_embedding c).
  apply in_map, in_seq. pose proof (nat_ascii_bounded c). lia.
Qed.

Definition parseInt16_pair_ok (c1 c2 : ascii) : bool :=
  match hex_digit_val c1, hex_digit_val c2 with
  | Some d1, Some d2 =>
      match parseInt16 (String c1 (String c2 "")) with
      | Some n => n =? 16 * d1 + d2
      | None => false
      end
  | _, _ => true
  end.

Lemma parseInt16_pairs_ok :
  forallb (fun c1 => forallb (parseInt16_pair_ok c1) all_ascii) all_ascii = true.
Proof. vm_compute. reflexivity. Qed.

(** [parseInt] of two hexadecimal digits is their value. *)
Lemma parseInt16_two_digits (c1 c2 : ascii) (d1 d2 : Z) :
  hex_digit_val c1 = Some d1 ->
  hex_digit_val c2 = Some d2 ->
  parseInt16 (String c1 (String c2 "")) = Some (16 * d1 + d2).
Proof.
  intros H1 H2. pose proof parseInt16_pairs_ok as Hall.
  rewrite forallb_forall in Hall. specialize (Hall c1 (in_all_ascii c1)).
  rewrite forallb_forall in Hall. specialize (Hall c2 (in_all_ascii c2)).
  unfold parseInt16_pair_ok in Hall. rewrite H1, H2 in Hall.
  destruct (parseInt16 (String c1 (String c2 ""))) as [n|]; [|discriminate].
  apply Z.eqb_eq in Hall. now subst.
Qed.

(** The colour [#c1c2c3c4c5c6] *)
Definition hex_color (c1 c2 c3 c4 c5 c6 : ascii) : string :=
  String "#" (String c1 (String c2 (String c3 (String c4 (String c5 (String c6 "")))))).

(** C9: for a colour of six hexadecimal digits, with red 16 r1 + r2,
    green 16 g1 + g2 and blue 16 b1 + b2, the text is white exactly when
    (r * 299 + g * 587 + b * 114) / 1000 is below 140 and dark exactly
    when it is 140 or more; black gives white text and white dark text. *)
Theorem readableTextColor_threshold
  (c1 c2 c3 c4 c5 c6 : ascii) (r1 r2 g1 g2 b1 b2 : Z) :
  hex_digit_val c1 = Some r1 -> hex_digit_val c2 = Some r2 ->
  hex_digit_val c3 = Some g1 -> hex_digit_val c4 = Some g2 ->
  hex_digit_val c5 = Some b1 -> hex_digit_val c6 = Some b2 ->
  let r := 16 * r1 + r2 in
  let g := 16 * g1 + g2 in
  let b := 16 * b1 + b2 in
  let yiq := (inject_Z (r * 299 + g * 587 + b * 114) / 1000)%Q in
  let text := readableTextColor (Some (hex_color c1 c2 c3 c4 c5 c6)) in
  (text = "#ffffff" <-> (yiq < 140)%Q)
  /\ (text = "#18181b" <-> (140 <= yiq)%Q)
  /\ readableTextColor (Some "#000000") = "#ffffff"
  /\ readableTextColor (Some "#ffffff") = "#18181b".
Proof.
  intros H1 H2 H3 H4 H5 H6 r g b yiq text.
  assert (Htext : text = if Qle_bool 140 yiq then "#18181b" else "#ffffff").
  { unfold text, readableTextColor, hex_color.
    cbn [remove_first_hash Ascii.eqb Bool.eqb slice substring Nat.sub].
    rewrite (parseInt16_two_digits c1 c2 r1 r2 H1 H2).
    rewrite (parseInt16_two_digits c3 c4 g1 g2 H3 H4).
    rewrite (parseInt16_two_digits c5 c6 b1 b2 H5 H6).
    reflexivity. }
  rewrite Htext. destruct (Qle_bool 140 yiq) eqn:Hle.
  - apply Qle_bool_iff in Hle. repeat split; try reflexivity; try discriminate.
    + intros Hlt. exfalso. exact (Qlt_not_le _ _ Hlt Hle).
    + intros _. exact Hle.
  - assert (Hlt : (yiq < 140)%Q).
    { apply Qnot_le_lt. intros Hle'. apply Qle_bool_iff in Hle'. congruence. }
    repeat split; try reflexivity; try discriminate.
    + intros _. exact Hlt.
    + intros Hle'. exfalso. exact (Qlt_not_le _ _ Hlt Hle').
Qed.

(** *** importData *)

(** The world after [alert(msg)] *)
Definition alerted (msg : string) (w : World) : World :=
  mkWorld (random_ids w) (clock w) (prompt_replies w)
          (n_random w) (n_clock w) (n_prompt w) (msg :: alerts w).

(** What [importData] does with the outcome of its [try] block *)
Lemma importData_eq (text : string) (data : json) (state : Document) (w : World) :
  JSON_parse text = Some data ->
  importData (Some text) state w =
  match import_document data w with
  | (Normal imported, w') => (Normal imported, w')
  | (Throw err, w') =>
      (Normal state, alerted ("No se pudo importar: " ++ message_of err) w')
  end.
Proof.
  intros Hparse. unfold importData, try_catch, bind, setState, ret.
  rewrite Hparse. destruct (import_document data w) as [[imported|err] w'];
    reflexivity.
Qed.

(** The validation of lines 227-229 *)
Lemma import_document_rejects (data : json) (w : World) :
  isArray (prop data "lockables") && isArray (prop data "entries") = false ->
  exists err,
    import_document data w = (Throw err, w)
    /\ (data <> JNull -> err = Error "Formato inválido").
Proof.
  intros Hbad. destruct data as [| b | n | s | xs | kvs].
  - exists (TypeError "lockables"). split; [reflexivity|]. congruence.
  - exists (Error "Formato inválido"). split; reflexivity.
  - exists (Error "Formato inválido"). split; reflexivity.
  - exists (Error "Formato inválido"). split; reflexivity.
  - exists (Error "Formato inválido"). split; reflexivity.
  - exists (Error "Formato inválido"). split; [|reflexivity].
    unfold import_document, bind, Get, ret, throw.
    cbn [prop] in *.
    destruct (isArray (lookup "lockables" kvs)); cbn [negb]; [|reflexivity].
    cbn [andb] in Hbad. rewrite Hbad. reflexivity.
Qed.

(** C3: when the parsed text has not both [lockables] and [entries] as
    arrays, importData shows a message that starts with
    [No se pudo importar: ] and sets no state: the Document and the rest
    of the browser are as before. The message ends with
    [Formato inválido], the error of the validation, for every parsed
    value but [null], on which the property read itself throws and the
    message is that of the engine's TypeError. *)
Theorem importData_rejects_malformed
  (text : string) (data : json) (state : Document) (w : World) :
  JSON_parse text = Some data ->
  isArray (prop data "lockables") && isArray (prop data "entries") = false ->
  exists reason,
    importData (Some text) state w
    = (Normal state, alerted ("No se pudo importar: " ++ reason) w)
    /\ (data <> JNull -> reason = "Formato inválido").
Proof.
  intros Hparse Hbad.
  destruct (import_document_rejects data w Hbad) as (err & Himp & Herr).
  exists (message_of err). rewrite (importData_eq text data state w Hparse), Himp.
  split; [reflexivity|]. intros Hnn. now rewrite (Herr Hnn).
Qed.

Lemma mapM_length {A B} (f : A -> M B) (xs : list A) :
  forall (w w' : World) (ys : list B),
  mapM f xs w = (Normal ys, w') -> List.length ys = List.length xs.
Proof.
  induction xs as [|x xs IH]; intros w w' ys H; cbn [mapM] in H.
  - inversion H. reflexivity.
  - unfold bind in H. destruct (f x w) as [[y|e] w1]; [|discriminate].
    destruct (mapM f xs w1) as [[ys'|e] w2] eqn:Hrest; [|discriminate].
    inversion H; subst. cbn [List.length]. f_equal. exact (IH _ _ _ Hrest).
Qed.

(** An import that succeeds keeps every entry of the file: the entries
    are mapped one by one and not cut to 200. *)
Lemma import_document_entries_length
  (data : json) (w w' : World) (imported : Document) :
  import_document data w = (Normal imported, w') ->
  List.length (entries imported)
  = List.length (elements_of (prop data "entries")).
Proof.
  unfold import_document, bind. intros H.
  destruct (Get data "lockables" w) as [[dl|e] w1] eqn:Hdl; [|discriminate].
  destruct (negb (isArray dl)); [discriminate|].
  destruct (Get data "entries" w1) as [[de|e] w2] eqn:Hde; [|discriminate].
  destruct (negb (isArray de)); [discriminate|].
  destruct (mapM import_lockable (elements_of dl) w2) as [[ls|e] w3]; [|discriminate].
  destruct (mapM (import_entry (elements_of dl)) (elements_of de) w3)
    as [[es|e] w4] eqn:Hes; [|discriminate].
  destruct (Get data "prefs" w4) as [[dp|e] w5]; [|discriminate].
  destruct (import_prefs dp w5) as [[p|e] w6]; [|discriminate].
  inversion H; subst. cbn [entries].
  rewrite (mapM_length _ _ _ _ _ Hes).
  destruct data; cbn in Hde; inversion Hde; reflexivity.
Qed.

Lemma bind_normal {A B} (c : M A) (k : A -> M B) (w w' : World) (a : A) :
  c w = (Normal a, w') -> bind c k w = k a w'.
Proof. intros H. unfold bind. now rewrite H. Qed.

Lemma bind_throw {A B} (c : M A) (k : A -> M B) (w w' : World) (e : JsError) :
  c w = (Throw e, w') -> bind c k w = (Throw e, w').
Proof. intros H. unfold bind. now rewrite H. Qed.

(** A computation that ends normally in every world *)
Definition never_throws {A} (c : M A) : Prop :=
  forall w, exists a w', c w = (Normal a, w').

Lemma uid_never_throws : never_throws uid.
Proof. intros w. unfold uid. eauto. Qed.

Lemma ret_never_throws {A} (a : A) : never_throws (ret a).
Proof. intros w. unfold ret. eauto. Qed.

(** Induction on a JSON value, with the hypothesis for every element of
    an array and every property value of an object *)
Fixpoint json_induction (P : json -> Prop)
  (Hnull : P JNull)
  (Hbool : forall b, P (JBool b))
  (Hnumber : forall n, P (JNumber n))
  (Hstring : forall s, P (JString s))
  (Harray : forall xs, Forall P xs -> P (JArray xs))
  (Hobject : forall kvs, Forall (fun kv => P (snd kv)) kvs -> P (JObject kvs))
  (v : json) {struct v} : P v :=
  match v with
  | JNull => Hnull
  | JBool b => Hbool b
  | JNumber n => Hnumber n
  | JString s => Hstring s
  | JArray xs =>
      Harray xs
        ((fix all (xs : list json) : Forall P xs :=
            match xs with
            | [] => Forall_nil P
            | x :: xs' =>
                Forall_cons x
                  (json_induction P Hnull Hbool Hnumber Hstring Harray Hobject x)
                  (all xs')
            end) xs)
  | JObject kvs =>
      Hobject kvs
        ((fix all (kvs : list (string * json))
            : Forall (fun kv => P (snd kv)) kvs :=
            match kvs with
            | [] => Forall_nil _
            | kv :: kvs' =>
                Forall_cons kv
                  (json_induction P Hnull Hbool Hnumber Hstring Harray Hobject (snd kv))
                  (all kvs')
            end) kvs)
  end.

(** A value that has no property [toString] in any of its objects:
    every conversion of it, and of a part of it, to a string ends
    normally. *)
Fixpoint no_toString (v : json) : bool :=
  match v with
  | JArray xs => forallb no_toString xs
  | JObject kvs =>
      match lookup "toString" kvs with
      | Some _ => false
      | None => true
      end && forallb (fun kv => no_toString (snd kv)) kvs
  | _ => true
  end.

(** An element of [lockables] or [entries] on which no property read and
    no conversion throws a TypeError *)
Definition plain (v : json) : Prop := v <> JNull /\ no_toString v = true.

Lemma no_toString_ToString (v : json) :
  no_toString v = true -> exists s, ToString v = Normal s.
Proof.
  induction v as [| b | n | s | xs IH | kvs IH] using json_induction; intros H.
  - eexists. reflexivity.
  - destruct b; eexists; reflexivity.
  - eexists. reflexivity.
  - eexists. reflexivity.
  - cbn [no_toString] in H. cbn [ToString].
    match goal with
    | |- exists s, match ?f xs with _ => _ end = _ =>
        assert (Hel : exists ss, f xs = Normal ss)
    end.
    { induction xs as [|x xs IHxs]; [eauto|].
      inversion IH as [|? ? Hx Hxs]; subst.
      cbn [forallb] in H. apply andb_prop in H as [Hnx Hnxs].
      destruct (IHxs Hxs Hnxs) as (ss & Hss). rewrite Hss.
      destruct (Hx Hnx) as (sx & Hsx). rewrite Hsx.
      destruct x; eauto. }
    destruct Hel as (ss & ->). eauto.
  - cbn [no_toString] in H. apply andb_prop in H as [H _]. cbn [ToString].
    destruct (lookup "toString" kvs); [discriminate|eauto].
Qed.

Lemma lookup_no_toString (key : string) (kvs : list (string * json)) (x : json) :
  forallb (fun kv => no_toString (snd kv)) kvs = true ->
  lookup key kvs = Some x ->
  no_toString x = true.
Proof.
  induction kvs as [|[k v] kvs IH]; cbn [lookup forallb snd]; [discriminate|].
  intros H Hl. apply andb_prop in H as [Hv Hkvs].
  destruct (lookup key kvs) as [v'|] eqn:Hrest.
  - injection Hl as <-. now apply IH.
  - destruct (String.eqb k key); [|discriminate]. now injection Hl as <-.
Qed.

Lemma prop_no_toString (v : json) (key : string) (x : json) :
  no_toString v = true -> prop v key = Some x -> no_toString x = true.
Proof.
  destruct v; cbn [prop]; try discriminate. cbn [no_toString].
  intros H. apply andb_prop in H as [_ H]. now apply lookup_no_toString.
Qed.

Lemma first_lockable_id_no_toString (data_lockables : list json) (x : json) :
  Forall plain data_lockables ->
  first_lockable_id data_lockables = Some x ->
  no_toString x = true.
Proof.
  unfold first_lockable_id. intros Hall.
  destruct data_lockables as [|l ls]; cbn [nth_error Get_opt]; [discriminate|].
  inversion Hall as [|? ? [_ Hl] _]; subst.
  destruct l; try discriminate; intros H;
    match goal with
    | Hp : prop ?v _ = Some x |- _ => exact (prop_no_toString v _ x Hl Hp)
    end.
Qed.

Lemma String_or_never_throws (v : option json) (d : M string) :
  (forall x, v = Some x -> no_toString x = true) ->
  never_throws d -> never_throws (String_or v d).
Proof.
  intros Hv Hd w. unfold String_or.
  destruct v as [j|]; [|apply Hd]. destruct (ToBoolean j); [|apply Hd].
  destruct (no_toString_ToString j (Hv j eq_refl)) as (s & Hs).
  unfold lift. rewrite Hs. eauto.
Qed.

Lemma Get_not_null (e : json) (key : string) (w : World) :
  e <> JNull -> Get e key w = (Normal (prop e key), w).
Proof. intros Hnn. destruct e; try reflexivity. congruence. Qed.

Lemma Get_Normal (e : json) (key : string) (w w' : World) (x : option json) :
  Get e key w = (Normal x, w') -> x = prop e key /\ w' = w.
Proof. destruct e; cbn; intros H; inversion H; split; reflexivity. Qed.

Lemma new_Date_no_toString (v : json) :
  no_toString v = true -> exists d, new_Date v = Normal d.
Proof.
  intros H. destruct (no_toString_ToString v H) as (s & Hs).
  destruct v; cbn [new_Date]; try rewrite Hs; eauto.
Qed.

(** An entry whose [tsISO] is truthy and no date: [toISOString] throws
    the RangeError out of the mapping function. *)
Lemma import_entry_invalid_timestamp
  (data_lockables : list json) (e v : json) (w : World) :
  Forall plain data_lockables ->
  plain e ->
  prop e "tsISO" = Some v ->
  ToBoolean v = true ->
  new_Date v = Normal None ->
  exists w', import_entry data_lockables e w = (Throw RangeError, w').
Proof.
  intros Hdl [Hnn Hplain] Hts Htruthy Hdate. unfold import_entry.
  rewrite (bind_normal _ _ _ _ _ (Get_not_null e "id" w Hnn)).
  destruct (String_or_never_throws (prop e "id") uid
              (fun x => prop_no_toString e "id" x Hplain) uid_never_throws w)
    as (i & w1 & Hi).
  rewrite (bind_normal _ _ _ _ _ Hi).
  rewrite (bind_normal _ _ _ _ _ (Get_not_null e "lockableId" w1 Hnn)).
  destruct (String_or_never_throws (prop e "lockableId")
              (String_or (first_lockable_id data_lockables) (ret "casa"))
              (fun x => prop_no_toString e "lockableId" x Hplain)
              (String_or_never_throws _ _
                 (fun x => first_lockable_id_no_toString data_lockables x Hdl)
                 (ret_never_throws "casa")) w1)
    as (li & w2 & Hli).
  rewrite (bind_normal _ _ _ _ _ Hli).
  rewrite (bind_normal _ _ _ _ _ (Get_not_null e "tsISO" w2 Hnn)).
  rewrite Hts, Htruthy.
  rewrite (bind_normal (lift (new_Date v)) _ w2 w2 None)
    by (unfold lift; now rewrite Hdate).
  exists w2. reflexivity.
Qed.

Lemma import_lockable_never_throws (l : json) :
  plain l -> never_throws (import_lockable l).
Proof.
  intros [Hnn Hplain] w. unfold import_lockable.
  rewrite (bind_normal _ _ _ _ _ (Get_not_null l "id" w Hnn)).
  destruct (String_or_never_throws (prop l "id") uid
              (fun x => prop_no_toString l "id" x Hplain) uid_never_throws w)
    as (i & w1 & Hi).
  rewrite (bind_normal _ _ _ _ _ Hi).
  rewrite (bind_normal _ _ _ _ _ (Get_not_null l "name" w1 Hnn)).
  destruct (String_or_never_throws (prop l "name") _
              (fun x => prop_no_toString l "name" x Hplain)
              (ret_never_throws "Sin nombre") w1) as (n & w2 & Hn).
  rewrite (bind_normal _ _ _ _ _ Hn).
  rewrite (bind_normal _ _ _ _ _ (Get_not_null l "icon" w2 Hnn)).
  destruct (String_or_never_throws (prop l "icon") _
              (fun x => prop_no_toString l "icon" x Hplain)
              (ret_never_throws "🔒") w2) as (ic & w3 & Hic).
  rewrite (bind_normal _ _ _ _ _ Hic).
  rewrite (bind_normal _ _ _ _ _ (Get_not_null l "color" w3 Hnn)).
  destruct (String_or_never_throws (prop l "color") _
              (fun x => prop_no_toString l "color" x Hplain)
              (ret_never_throws "#0ea5e9") w3) as (c & w4 & Hc).
  rewrite (bind_normal _ _ _ _ _ Hc). unfold ret. eauto.
Qed.

Lemma mapM_never_throws {A B} (f : A -> M B) (xs : list A) :
  Forall (fun x => never_throws (f x)) xs -> never_throws (mapM f xs).
Proof.
  induction 1 as [|x xs Hx _ IH]; intros w; cbn [mapM].
  - unfold ret. eauto.
  - destruct (Hx w) as (y & w1 & Hy). rewrite (bind_normal _ _ _ _ _ Hy).
    destruct (IH w1) as (ys & w2 & Hys). rewrite (bind_normal _ _ _ _ _ Hys).
    unfold ret. eauto.
Qed.

(** On a plain entry the mapping function ends normally or with the
    RangeError of [toISOString]. *)
Lemma import_entry_outcome (data_lockables : list json) (e : json) (w : World) :
  Forall plain data_lockables ->
  plain e ->
  (exists en w', import_entry data_lockables e w = (Normal en, w'))
  \/ (exists w', import_entry data_lockables e w = (Throw RangeError, w')).
Proof.
  intros Hdl [Hnn Hplain]. unfold import_entry.
  rewrite (bind_normal _ _ _ _ _ (Get_not_null e "id" w Hnn)).
  destruct (String_or_never_throws (prop e "id") uid
              (fun x => prop_no_toString e "id" x Hplain) uid_never_throws w)
    as (i & w1 & Hi).
  rewrite (bind_normal _ _ _ _ _ Hi).
  rewrite (bind_normal _ _ _ _ _ (Get_not_null e "lockableId" w1 Hnn)).
  destruct (String_or_never_throws (prop e "lockableId")
              (String_or (first_lockable_id data_lockables) (ret "casa"))
              (fun x => prop_no_toString e "lockableId" x Hplain)
              (String_or_never_throws _ _
                 (fun x => first_lockable_id_no_toString data_lockables x Hdl)
                 (ret_never_throws "casa")) w1)
    as (li & w2 & Hli).
  rewrite (bind_normal _ _ _ _ _ Hli).
  rewrite (bind_normal _ _ _ _ _ (Get_not_null e "tsISO" w2 Hnn)).
  match goal with
  | |- context [bind ?c _ w2] =>
      assert (Hdate : exists d w3, c w2 = (Normal d, w3))
  end.
  { destruct (prop e "tsISO") as [v|] eqn:Hts;
      [destruct (ToBoolean v)|]; unfold bind, Date_now, ret; eauto.
    destruct (new_Date_no_toString v (prop_no_toString e "tsISO" v Hplain Hts))
      as (d & Hd).
    unfold lift. rewrite Hd. eauto. }
  destruct Hdate as (d & w3 & Hd). rewrite (bind_normal _ _ _ _ _ Hd).
  destruct d as [t|].
  - left. rewrite (bind_normal (toISOString (Some t)) _ w3 w3 (ISOString t) eq_refl).
    rewrite (bind_normal _ _ _ _ _ (Get_not_null e "note" w3 Hnn)).
    destruct (prop e "note") as [v|] eqn:Hnote;
      [destruct (ToBoolean v)|]; unfold bind, ret; eauto.
    destruct (no_toString_ToString v (prop_no_toString e "note" v Hplain Hnote))
      as (n & Hn).
    unfold lift. rewrite Hn. eauto.
  - right. exists w3. reflexivity.
Qed.

(** A timestamp that is there and is no date *)
Definition invalid_timestamp (e : json) : Prop :=
  exists v, prop e "tsISO" = Some v /\ ToBoolean v = true
            /\ new_Date v = Normal None.

Lemma mapM_import_entry_invalid (data_lockables es : list json) :
  Forall plain data_lockables ->
  Forall plain es ->
  Exists invalid_timestamp es ->
  forall w, exists w',
    mapM (import_entry data_lockables) es w = (Throw RangeError, w').
Proof.
  intros Hdl. induction 1 as [|e es Hnn Hall IH]; intros Hex w.
  - inversion Hex.
  - cbn [mapM].
    destruct (import_entry_outcome data_lockables e w Hdl Hnn)
      as [(en & w1 & Hen) | (w1 & Hthrow)].
    + rewrite (bind_normal _ _ _ _ _ Hen).
      inversion Hex as [? ? Hbad | ? ? Hrest]; subst.
      * destruct Hbad as (v & Hts & Htr & Hd).
        destruct (import_entry_invalid_timestamp data_lockables e v w
                    Hdl Hnn Hts Htr Hd) as (w2 & Hthrow). congruence.
      * destruct (IH Hrest w1) as (w2 & Hthrow).
        rewrite (bind_throw _ _ _ _ _ Hthrow). eauto.
    + rewrite (bind_throw _ _ _ _ _ Hthrow). eauto.
Qed.

(** An entry with an invalid timestamp never gets through the mapping
    function: where nothing throws before, [toISOString] does. *)
Lemma import_entry_invalid_throws (data_lockables : list json) (e : json)
  (w : World) :
  invalid_timestamp e ->
  exists err w', import_entry data_lockables e w = (Throw err, w').
Proof.
  intros (v & Hts & Htruthy & Hdate). unfold import_entry, bind.
  destruct (Get e "id" w) as [[id_|err] w1]; [|eauto].
  destruct (String_or id_ uid w1) as [[i|err] w2]; [|eauto].
  destruct (Get e "lockableId" w2) as [[lid|err] w3]; [|eauto].
  destruct (String_or lid _ w3) as [[li|err] w4]; [|eauto].
  destruct (Get e "tsISO" w4) as [[ts_|err] w5] eqn:Hget; [|eauto].
  apply Get_Normal in Hget as [-> ->]. rewrite Hts, Htruthy.
  unfold lift. rewrite Hdate. cbn [toISOString throw]. eauto.
Qed.

Lemma mapM_invalid_throws (data_lockables es : list json) :
  Exists invalid_timestamp es ->
  forall w, exists err w',
    mapM (import_entry data_lockables) es w = (Throw err, w').
Proof.
  induction 1 as [e es Hbad | e es _ IH]; intros w; cbn [mapM].
  - destruct (import_entry_invalid_throws data_lockables e w Hbad)
      as (err & w1 & Hthrow).
    rewrite (bind_throw _ _ _ _ _ Hthrow). eauto.
  - unfold bind at 1.
    destruct (import_entry data_lockables e w) as [[en|err] w1]; [|eauto].
    destruct (IH w1) as (err & w2 & Hthrow).
    rewrite (bind_throw _ _ _ _ _ Hthrow). eauto.
Qed.

(** A file that passes the validation and holds an entry with an invalid
    timestamp: the [try] block throws; where the elements of the file
    are plain, what it throws is the RangeError. *)
Lemma import_document_invalid
  (data : json) (data_lockables data_entries : list json) (w : World) :
  prop data "lockables" = Some (JArray data_lockables) ->
  prop data "entries" = Some (JArray data_entries) ->
  Exists invalid_timestamp data_entries ->
  exists err w',
    import_document data w = (Throw err, w')
    /\ (Forall plain data_lockables -> Forall plain data_entries ->
        err = RangeError).
Proof.
  intros Hl He Hbad.
  assert (Hdnn : data <> JNull) by (intros ->; discriminate).
  unfold import_document.
  rewrite (bind_normal _ _ _ _ _ (Get_not_null data "lockables" w Hdnn)), Hl.
  cbn [isArray negb].
  rewrite (bind_normal _ _ _ _ _ (Get_not_null data "entries" w Hdnn)), He.
  cbn [isArray negb elements_of].
  destruct (mapM import_lockable data_lockables w) as [[ls|err] w1] eqn:Hls.
  - rewrite (bind_normal _ _ _ _ _ Hls).
    destruct (mapM_invalid_throws data_lockables data_entries Hbad w1)
      as (err & w2 & Hthrow).
    rewrite (bind_throw _ _ _ _ _ Hthrow). exists err, w2.
    split; [reflexivity|]. intros Hpl Hpe.
    destruct (mapM_import_entry_invalid data_lockables data_entries Hpl Hpe Hbad w1)
      as (w3 & Hrange).
    congruence.
  - rewrite (bind_throw _ _ _ _ _ Hls). exists err, w1.
    split; [reflexivity|]. intros Hpl _.
    assert (Hnever : never_throws (mapM import_lockable data_lockables)).
    { apply mapM_never_throws. eapply Forall_impl; [|exact Hpl].
      intros l. apply import_lockable_never_throws. }
    destruct (Hnever w) as (ls & w2 & Hnormal). congruence.
Qed.

(** C5, what the code does: in a file that passes the validation, an
    entry whose timestamp is there and is no date is never rebuilt with
    the current time. The import is given up: the Document stays as it
    was and one message is shown. Where the elements of [lockables] and
    [entries] are plain (none is [null], none holds an object with a
    property [toString]) the message is that of the RangeError that
    [toISOString] throws on the Invalid Date; otherwise it is that of a
    TypeError thrown before. *)
Theorem importData_invalid_timestamp_rejected
  (text : string) (data : json) (data_lockables data_entries : list json)
  (state : Document) (w : World) :
  JSON_parse text = Some data ->
  prop data "lockables" = Some (JArray data_lockables) ->
  prop data "entries" = Some (JArray data_entries) ->
  Exists invalid_timestamp data_entries ->
  exists err w',
    importData (Some text) state w
    = (Normal state, alerted ("No se pudo importar: " ++ message_of err) w')
    /\ (Forall plain data_lockables -> Forall plain data_entries ->
        err = RangeError).
Proof.
  intros Hparse Hl He Hbad.
  rewrite (importData_eq text data state w Hparse).
  destruct (import_document_invalid data data_lockables data_entries w Hl He Hbad)
    as (err & w' & Himp & Hrange).
  rewrite Himp. exists err, w'. split; [reflexivity|exact Hrange].
Qed.

(** *** Export, then import *)

Definition nonempty (s : string) : bool := negb (String.eqb s "").

Definition valid_theme (t : string) : bool :=
  existsb (String.eqb t) ["system"; "light"; "dark"].


(** A timestamp as [toISOString] writes it:
    [new Date(ts).toISOString() === ts] *)
Definition canonical_timestamp (ts : string) : bool :=
  match Date_parse ts with
  | Some t => String.eqb (ISOString t) ts
  | None => false
  end.

Definition Lockable_wf (l : Lockable.t) : bool :=
  nonempty (Lockable.id l) && nonempty (Lockable.name l)
  && nonempty (Lockable.icon l)
  && match Lockable.color l with
     | Some c => nonempty c
     | None => false
     end.

Definition Entry_wf (timestamp_ok : string -> bool) (e : Entry.t) : bool :=
  nonempty (Entry.id e) && nonempty (Entry.lockableId e)
  && timestamp_ok (Entry.tsISO e)
  && match Entry.note e with
     | Some n => nonempty n
     | None => true
     end.

(** The well-formed Documents, for a given reading of a well-formed
    timestamp *)
Definition Document_wf (timestamp_ok : string -> bool) (d : Document) : bool :=
  forallb Lockable_wf (lockables d)
  && forallb (Entry_wf timestamp_ok) (entries d)
  && valid_theme (theme (prefs d)).

Lemma String_or_nonempty (s : string) (d : M string) (w : World) :
  nonempty s = true -> String_or (Some (JString s)) d w = (Normal s, w).
Proof.
  intros H. unfold String_or, ToBoolean. fold (nonempty s). now rewrite H.
Qed.

Lemma import_lockable_json (l : Lockable.t) (w : World) :
  Lockable_wf l = true ->
  import_lockable (Lockable_json l) w = (Normal l, w).
Proof.
  destruct l as [i n ic c]. unfold Lockable_wf. cbn [Lockable.id Lockable.name Lockable.icon Lockable.color].
  intros H. destruct c as [c|]; [|rewrite andb_false_r in H; discriminate].
  apply andb_prop in H as [H Hc]. apply andb_prop in H as [H Hic].
  apply andb_prop in H as [Hi Hn].
  unfold import_lockable, Lockable_json, Get.
  cbn [Lockable.id Lockable.name Lockable.icon Lockable.color prop].
  repeat (rewrite (bind_normal (ret _) _ w w _ eq_refl)).
  change (lookup "id" _) with (Some (JString i)).
  rewrite (bind_normal _ _ _ _ _ (String_or_nonempty i _ w Hi)).
  repeat (rewrite (bind_normal (ret _) _ w w _ eq_refl)).
  change (lookup "name" _) with (Some (JString n)).
  rewrite (bind_normal _ _ _ _ _ (String_or_nonempty n _ w Hn)).
  repeat (rewrite (bind_normal (ret _) _ w w _ eq_refl)).
  change (lookup "icon" _) with (Some (JString ic)).
  rewrite (bind_normal _ _ _ _ _ (String_or_nonempty ic _ w Hic)).
  repeat (rewrite (bind_normal (ret _) _ w w _ eq_refl)).
  change (lookup "color" _) with (Some (JString c)).
  rewrite (bind_normal _ _ _ _ _ (String_or_nonempty c _ w Hc)).
  reflexivity.
Qed.

(** A timestamp that [new Date] reads as a date *)
Definition valid_timestamp (ts : string) : bool :=
  match Date_parse ts with
  | Some _ => nonempty ts
  | None => false
  end.

(** [new Date(ts).toISOString()], where [ts] is a date *)
Definition normalize_timestamp (ts : string) : string :=
  match Date_parse ts with
  | Some t => ISOString t
  | None => ts
  end.

Definition normalize_entry (e : Entry.t) : Entry.t :=
  {| Entry.id := Entry.id e;
     Entry.lockableId := Entry.lockableId e;
     Entry.tsISO := normalize_timestamp (Entry.tsISO e);
     Entry.note := Entry.note e |}.

Definition normalize_document (d : Document) : Document :=
  {| lockables := lockables d;
     entries := map normalize_entry (entries d);
     prefs := prefs d |}.

Lemma nonempty_app_cons (a b : string) (c : ascii) :
  nonempty (a ++ String c b) = true.
Proof. destruct a; reflexivity. Qed.

Lemma ISOString_nonempty (t : Z) : nonempty (ISOString t) = true.
Proof. unfold ISOString. apply nonempty_app_cons. Qed.

Lemma canonical_is_valid (ts : string) :
  canonical_timestamp ts = true ->
  valid_timestamp ts = true /\ normalize_timestamp ts = ts.
Proof.
  unfold canonical_timestamp, valid_timestamp, normalize_timestamp.
  destruct (Date_parse ts) as [t|]; [|discriminate].
  intros H. apply String.eqb_eq in H. split; [|exact H].
  rewrite <- H. apply ISOString_nonempty.
Qed.

Lemma import_entry_json (data_lockables : list json) (e : Entry.t) (w : World) :
  Entry_wf valid_timestamp e = true ->
  import_entry data_lockables (Entry_json e) w = (Normal (normalize_entry e), w).
Proof.
  destruct e as [i li ts nt]. unfold Entry_wf, normalize_entry, valid_timestamp,
    normalize_timestamp.
  cbn [Entry.id Entry.lockableId Entry.tsISO Entry.note].
  intros H. apply andb_prop in H as [H Hnt]. apply andb_prop in H as [H Hts].
  apply andb_prop in H as [Hi Hli].
  destruct (Date_parse ts) as [t|] eqn:Hdate; [|discriminate].
  unfold import_entry, Entry_json, Get.
  cbn [Entry.id Entry.lockableId Entry.tsISO Entry.note prop].
  assert (Hid : forall tl, lookup "id"
            ([("id", JString i); ("lockableId", JString li); ("tsISO", JString ts)]
             ++ match tl with Some n => [("note", JString n)] | None => [] end)%list
            = Some (JString i)) by (intros [n|]; reflexivity).
  assert (Hlid : forall tl, lookup "lockableId"
            ([("id", JString i); ("lockableId", JString li); ("tsISO", JString ts)]
             ++ match tl with Some n => [("note", JString n)] | None => [] end)%list
            = Some (JString li)) by (intros [n|]; reflexivity).
  assert (Htsl : forall tl, lookup "tsISO"
            ([("id", JString i); ("lockableId", JString li); ("tsISO", JString ts)]
             ++ match tl with Some n => [("note", JString n)] | None => [] end)%list
            = Some (JString ts)) by (intros [n|]; reflexivity).
  assert (Hntl : lookup "note"
            ([("id", JString i); ("lockableId", JString li); ("tsISO", JString ts)]
             ++ match nt with Some n => [("note", JString n)] | None => [] end)%list
            = option_map JString nt) by (destruct nt; reflexivity).
  repeat (rewrite (bind_normal (ret _) _ w w _ eq_refl)).
  rewrite Hid, (bind_normal _ _ _ _ _ (String_or_nonempty i _ w Hi)).
  repeat (rewrite (bind_normal (ret _) _ w w _ eq_refl)).
  rewrite Hlid, (bind_normal _ _ _ _ _ (String_or_nonempty li _ w Hli)).
  repeat (rewrite (bind_normal (ret _) _ w w _ eq_refl)).
  rewrite Htsl. unfold ToBoolean at 1. fold (nonempty ts). rewrite Hts.
  repeat (rewrite (bind_normal (ret _) _ w w _ eq_refl)).
  rewrite (bind_normal (lift (new_Date (JString ts))) _ w w (Some t))
    by (unfold lift; cbn [new_Date]; now rewrite Hdate).
  rewrite (bind_normal (toISOString (Some t)) _ w w (ISOString t) eq_refl).
  repeat (rewrite (bind_normal (ret _) _ w w _ eq_refl)).
  rewrite Hntl.
  destruct nt as [n|]; [|reflexivity].
  cbn [option_map ToBoolean]. fold (nonempty n). now rewrite Hnt.
Qed.

Lemma mapM_pure {A B} (f : A -> M B) (g : A -> B) (P : A -> bool) (xs : list A) :
  (forall x w, P x = true -> f x w = (Normal (g x), w)) ->
  forallb P xs = true ->
  forall w, mapM f xs w = (Normal (map g xs), w).
Proof.
  intros Hf. induction xs as [|x xs IH]; intros Hall w; cbn [mapM map].
  - reflexivity.
  - cbn [forallb] in Hall. apply andb_prop in Hall as [Hx Hxs].
    rewrite (bind_normal _ _ _ _ _ (Hf x w Hx)).
    rewrite (bind_normal _ _ _ _ _ (IH Hxs w)). reflexivity.
Qed.

Lemma mapM_map {A B C} (f : B -> M C) (h : A -> B) (xs : list A) (w : World) :
  mapM f (map h xs) w = mapM (fun x => f (h x)) xs w.
Proof.
  revert w. induction xs as [|x xs IH]; intros w; cbn [mapM map]; [reflexivity|].
  unfold bind. destruct (f (h x) w) as [[y|e] w1]; [|reflexivity].
  now rewrite IH.
Qed.

Lemma import_prefs_json (p : Preferences) (w : World) :
  valid_theme (theme p) = true ->
  import_prefs (Some (Preferences_json p)) w = (Normal p, w).
Proof.
  destruct p as [t c q]. cbn [theme]. intros Ht.
  unfold import_prefs, Preferences_json, Get_opt.
  cbn [theme confirmNote quickNoteSuggestions prop].
  change (lookup "theme" _) with (Some (JString t)).
  change (lookup "confirmNote" _) with (Some (JBool c)).
  change (lookup "quickNoteSuggestions" _) with (Some (JArray (map JString q))).
  cbv beta iota. unfold valid_theme in Ht. rewrite Ht.
  cbn [truthy ToBoolean].
  rewrite (bind_normal _ _ w w q).
  - reflexivity.
  - rewrite mapM_map.
    rewrite (mapM_pure (fun x => lift (ToString (JString x))) (fun x => x)
               (fun _ => true) q (fun x w0 _ => eq_refl)).
    + now rewrite map_id.
    + now apply forallb_forall.
Qed.

(** What the import makes of the value that [exportData] serializes:
    the Document, each timestamp written anew by [toISOString]; nothing
    of the browser is read or changed. *)
Lemma import_document_json (d : Document) (w : World) :
  Document_wf valid_timestamp d = true ->
  import_document (Document_json d) w = (Normal (normalize_document d), w).
Proof.
  unfold Document_wf. intros H. apply andb_prop in H as [H Ht].
  apply andb_prop in H as [Hl He].
  unfold import_document, Document_json, Get. cbn [prop].
  repeat (rewrite (bind_normal (ret _) _ w w _ eq_refl)).
  change (lookup "lockables" _)
    with (Some (JArray (map Lockable_json (lockables d)))).
  cbn [isArray negb elements_of].
  repeat (rewrite (bind_normal (ret _) _ w w _ eq_refl)).
  change (lookup "entries" _)
    with (Some (JArray (map Entry_json (entries d)))).
  cbn [isArray negb elements_of].
  rewrite (bind_normal _ _ w w (lockables d)).
  2:{ rewrite mapM_map.
      rewrite (mapM_pure (fun l => import_lockable (Lockable_json l))
                 (fun l => l) Lockable_wf (lockables d)
                 (fun l w0 => import_lockable_json l w0) Hl w).
      now rewrite map_id. }
  rewrite (bind_normal _ _ w w (map normalize_entry (entries d))).
  2:{ rewrite mapM_map.
      exact (mapM_pure (fun e => import_entry _ (Entry_json e))
               normalize_entry (Entry_wf valid_timestamp) (entries d)
               (fun e w0 => import_entry_json _ e w0) He w). }
  repeat (rewrite (bind_normal (ret _) _ w w _ eq_refl)).
  change (lookup "prefs" _) with (Some (Preferences_json (prefs d))).
  rewrite (bind_normal _ _ _ _ _ (import_prefs_json _ w Ht)). reflexivity.
Qed.

(** *** JSON.parse reads back what JSON.stringify writes *)

(** A value without numbers, as [Document_json] builds them *)
Fixpoint number_free (v : json) : bool :=
  match v with
  | JNumber _ => false
  | JArray xs => forallb number_free xs
  | JObject kvs => forallb (fun kv => number_free (snd kv)) kvs
  | _ => true
  end.

(** The nodes of a value: a bound on the fuel its parsing needs *)
Fixpoint size (v : json) : nat :=
  match v with
  | JArray xs => S (list_sum (map size xs))
  | JObject kvs => S (list_sum (map (fun kv => size (snd kv)) kvs))
  | _ => 1%nat
  end.

Definition spaces (cs : list ascii) : Prop := Forall (fun c => c = " "%char) cs.

Lemma skip_ws_spaces (indent rest : list ascii) :
  spaces indent -> skip_ws (indent ++ rest) = skip_ws rest.
Proof.
  induction 1 as [|c indent Hc _ IH]; [reflexivity|].
  subst c. cbn [app skip_ws]. exact IH.
Qed.

Lemma spaces_app (a b : list ascii) : spaces a -> spaces b -> spaces (a ++ b).
Proof. intros Ha Hb. apply Forall_app. now split. Qed.

Lemma quote_char_parse (c : ascii) (tl : list ascii) :
  parse_chars (quote_char c ++ tl) = cons_chars [c] (parse_chars tl).
Proof.
  destruct c as [[] [] [] [] [] [] [] []]; reflexivity.
Qed.

Lemma parse_quoted (cs rest : list ascii) :
  parse_chars (flat_map quote_char cs ++ dquote :: rest) = Some (cs, rest).
Proof.
  induction cs as [|c cs IH]; [reflexivity|].
  cbn [flat_map]. rewrite <- app_assoc, quote_char_parse, IH. reflexivity.
Qed.

Lemma QuoteJSONString_app (s : string) (rest : list ascii) :
  (QuoteJSONString s ++ rest
   = dquote :: flat_map quote_char (chars s) ++ dquote :: rest)%list.
Proof.
  unfold QuoteJSONString. cbn [app]. now rewrite <- app_assoc.
Qed.

Lemma skip_ws_idempotent (cs : list ascii) : skip_ws (skip_ws cs) = skip_ws cs.
Proof.
  induction cs as [|c cs IH]; [reflexivity|].
  cbn [skip_ws]. destruct (is_json_ws c) eqn:Hc; [exact IH|].
  cbn [skip_ws]. now rewrite Hc.
Qed.

Lemma parse_value_skip_ws (fuel : nat) (cs : list ascii) :
  parse_value fuel (skip_ws cs) = parse_value fuel cs.
Proof.
  destruct fuel; [reflexivity|]. cbn [parse_value].
  now rewrite skip_ws_idempotent.
Qed.

(** The line break and the indentation before an element are skipped. *)
Lemma parse_value_indented (fuel : nat) (indent cs : list ascii) :
  spaces indent ->
  parse_value fuel (newline :: indent ++ cs) = parse_value fuel cs.
Proof.
  intros Hi. rewrite <- parse_value_skip_ws.
  change (skip_ws (newline :: indent ++ cs)) with (skip_ws (indent ++ cs)).
  now rewrite skip_ws_spaces, parse_value_skip_ws.
Qed.

Lemma serialize_array (indent : list ascii) (x : json) (xs : list json) :
  serialize indent (JArray (x :: xs))
  = ("["%char :: newline :: (indent ++ chars "  ")
       ++ join ("," :: newline :: indent ++ chars "  ")%char
            (map (serialize (indent ++ chars "  ")) (x :: xs))
       ++ newline :: indent ++ ["]"%char])%list.
Proof. reflexivity. Qed.

Lemma serialize_object (indent : list ascii) (kv : string * json)
  (kvs : list (string * json)) :
  serialize indent (JObject (kv :: kvs))
  = ("{"%char :: newline :: (indent ++ chars "  ")
       ++ join ("," :: newline :: indent ++ chars "  ")%char
            (map (fun kv => QuoteJSONString (fst kv) ++ chars ": "
                            ++ serialize (indent ++ chars "  ") (snd kv))
                 (kv :: kvs))
       ++ newline :: indent ++ ["}"%char])%list.
Proof. reflexivity. Qed.

(** The first character of a serialized value that is no number: no
    white space, and none of the two closing brackets. *)
Definition opens_value (c : ascii) : bool :=
  existsb (Ascii.eqb c) ["n"; "t"; "f"; dquote; "["; "{"]%char.

Lemma serialize_head (indent : list ascii) (v : json) :
  (forall n, v <> JNumber n) ->
  exists c tl, serialize indent v = c :: tl /\ opens_value c = true.
Proof.
  intros Hn. destruct v as [| [] | n | s | [|x xs] | [|kv kvs]];
    try (do 2 eexists; split; [reflexivity|reflexivity]).
  exfalso. exact (Hn n eq_refl).
Qed.

Lemma opens_value_skip_ws (c : ascii) (tl : list ascii) :
  opens_value c = true -> skip_ws (c :: tl) = c :: tl.
Proof.
  intros H. cbn [skip_ws].
  destruct c as [[] [] [] [] [] [] [] []]; try discriminate; reflexivity.
Qed.

Lemma opens_value_not_closing (c : ascii) :
  opens_value c = true -> Ascii.eqb c "]" = false /\ Ascii.eqb c "}" = false.
Proof.
  destruct c as [[] [] [] [] [] [] [] []]; try discriminate; now split.
Qed.

Lemma number_free_not_number (v : json) :
  number_free v = true -> forall n, v <> JNumber n.
Proof. intros H n ->. discriminate. Qed.

(** What the round trip says of one value: any fuel from its size on
    reads it back, at every indentation and before every text. *)
Definition reads_back (v : json) : Prop :=
  number_free v = true ->
  forall (fuel : nat) (indent rest : list ascii),
    spaces indent -> (size v <= fuel)%nat ->
    parse_value fuel (serialize indent v ++ rest) = Some (v, rest).

Lemma parse_value_array (f : nat) (r r' : list ascii) (c' : ascii) :
  skip_ws r = c' :: r' ->
  Ascii.eqb c' "]" = false ->
  parse_value (S f) ("["%char :: r)
  = match parse_elements (parse_value f) f r with
    | Some (vs, rest) => Some (JArray vs, rest)
    | None => None
    end.
Proof.
  intros Hr Hc. cbn [parse_value].
  change (skip_ws ("["%char :: r)) with ("["%char :: r).
  cbv beta iota. change (Ascii.eqb "[" "n") with false.
  change (Ascii.eqb "[" "t") with false. change (Ascii.eqb "[" "f") with false.
  change (Ascii.eqb "[" dquote) with false. change (Ascii.eqb "[" "[") with true.
  cbv beta iota. rewrite Hr, Hc. reflexivity.
Qed.

Lemma parse_value_object (f : nat) (r r' : list ascii) (c' : ascii) :
  skip_ws r = c' :: r' ->
  Ascii.eqb c' "}" = false ->
  parse_value (S f) ("{"%char :: r)
  = match parse_members (parse_value f) f r with
    | Some (kvs, rest) => Some (JObject kvs, rest)
    | None => None
    end.
Proof.
  intros Hr Hc. cbn [parse_value].
  change (skip_ws ("{"%char :: r)) with ("{"%char :: r).
  cbv beta iota. change (Ascii.eqb "{" "n") with false.
  change (Ascii.eqb "{" "t") with false. change (Ascii.eqb "{" "f") with false.
  change (Ascii.eqb "{" dquote) with false. change (Ascii.eqb "{" "[") with false.
  change (Ascii.eqb "{" "{") with true.
  cbv beta iota. rewrite Hr, Hc. reflexivity.
Qed.

Lemma skip_ws_closing (indent rest : list ascii) (c : ascii) :
  spaces indent -> is_json_ws c = false ->
  skip_ws (newline :: indent ++ c :: rest) = c :: rest.
Proof.
  intros Hi Hc. change (skip_ws (newline :: indent ++ c :: rest))
    with (skip_ws (indent ++ c :: rest)).
  rewrite skip_ws_spaces by exact Hi. cbn [skip_ws]. now rewrite Hc.
Qed.

Lemma parse_elements_serialized (f : nat) (indent' indent rest : list ascii) :
  spaces indent' -> spaces indent ->
  forall xs : list json,
    xs <> [] ->
    Forall reads_back xs ->
    forallb number_free xs = true ->
    Forall (fun x => (size x <= f)%nat) xs ->
    forall n : nat, (List.length xs <= n)%nat ->
    parse_elements (parse_value f) n
      (newline :: indent'
         ++ join ("," :: newline :: indent')%char (map (serialize indent') xs)
         ++ newline :: indent ++ "]"%char :: rest)
    = Some (xs, rest).
Proof.
  intros Hi' Hi. induction xs as [|x xs IH]; intros Hne Hrb Hnf Hsz n Hn;
    [congruence|].
  inversion Hrb as [|? ? Hx Hxs]; subst.
  inversion Hsz as [|? ? Hsx Hsxs]; subst.
  cbn [forallb] in Hnf. apply andb_prop in Hnf as [Hnx Hnxs].
  destruct n as [|n]; [cbn in Hn; lia|]. cbn [List.length] in Hn.
  cbn [parse_elements]. rewrite parse_value_indented by exact Hi'.
  destruct xs as [|y ys].
  - cbn [map join]. rewrite (Hx Hnx f indent' _ Hi' Hsx).
    rewrite (skip_ws_closing indent rest "]" Hi eq_refl). reflexivity.
  - change (join ("," :: newline :: indent')%char
              (map (serialize indent') (x :: y :: ys)))
      with (serialize indent' x
              ++ ("," :: newline :: indent')%char
              ++ join ("," :: newline :: indent')%char
                   (map (serialize indent') (y :: ys)))%list.
    rewrite <- !app_assoc. rewrite (Hx Hnx f indent' _ Hi' Hsx).
    cbn [app]. change (skip_ws (","%char :: ?r)) with (","%char :: r).
    cbn [skip_ws is_json_ws]. cbv beta iota.
    change (Ascii.eqb "," ",") with true. cbv beta iota.
    rewrite (IH ltac:(discriminate) Hxs Hnxs Hsxs n ltac:(lia)).
    reflexivity.
Qed.

Lemma member_app (k : string) (value tail : list ascii) :
  ((QuoteJSONString k ++ chars ": " ++ value) ++ tail
   = dquote :: flat_map quote_char (chars k)
       ++ dquote :: ":"%char :: " "%char :: value ++ tail)%list.
Proof.
  unfold QuoteJSONString. cbn [app chars list_ascii_of_string].
  rewrite <- !app_assoc. reflexivity.
Qed.

Lemma parse_members_serialized (f : nat) (indent' indent rest : list ascii) :
  spaces indent' -> spaces indent ->
  forall kvs : list (string * json),
    kvs <> [] ->
    Forall (fun kv => reads_back (snd kv)) kvs ->
    forallb (fun kv => number_free (snd kv)) kvs = true ->
    Forall (fun kv => (size (snd kv) <= f)%nat) kvs ->
    forall n : nat, (List.length kvs <= n)%nat ->
    parse_members (parse_value f) n
      (newline :: indent'
         ++ join ("," :: newline :: indent')%char
              (map (fun kv => (QuoteJSONString (fst kv) ++ chars ": "
                               ++ serialize indent' (snd kv))%list) kvs)
         ++ newline :: indent ++ "}"%char :: rest)
    = Some (kvs, rest).
Proof.
  intros Hi' Hi. induction kvs as [|[k v] kvs IH]; intros Hne Hrb Hnf Hsz n Hn;
    [congruence|].
  inversion Hrb as [|? ? Hx Hxs]; subst.
  inversion Hsz as [|? ? Hsx Hsxs]; subst.
  cbn [forallb] in Hnf. apply andb_prop in Hnf as [Hnx Hnxs].
  cbn [snd] in Hx, Hsx, Hnx.
  destruct n as [|n]; [cbn in Hn; lia|]. cbn [List.length] in Hn.
  assert (Hstep : forall tail,
    skip_ws tail <> [] ->
    parse_members (parse_value f) (S n)
      (newline :: indent'
         ++ ((QuoteJSONString k ++ chars ": " ++ serialize indent' v) ++ tail))
    = match skip_ws tail with
      | c :: r' =>
          if Ascii.eqb c ","
          then match parse_members (parse_value f) n r' with
               | Some (kvs', rest') => Some ((k, v) :: kvs', rest')
               | None => None
               end
          else if Ascii.eqb c "}" then Some ([(k, v)], r') else None
      | [] => None
      end).
  { intros tail Htail. cbn [parse_members].
    change (skip_ws (newline :: ?r)) with (skip_ws r).
    rewrite skip_ws_spaces by exact Hi'. rewrite member_app.
    change (skip_ws (dquote :: ?r)) with (dquote :: r). cbv beta iota.
    change (Ascii.eqb dquote dquote) with true. cbv beta iota.
    rewrite parse_quoted.
    change (skip_ws (":"%char :: ?r)) with (":"%char :: r). cbv beta iota.
    change (Ascii.eqb ":" ":") with true. cbv beta iota.
    rewrite <- parse_value_skip_ws.
    change (skip_ws (" "%char :: ?r)) with (skip_ws r).
    rewrite parse_value_skip_ws.
    rewrite (Hx Hnx f indent' _ Hi' Hsx).
    unfold chars. rewrite string_of_list_ascii_of_string. reflexivity. }
  destruct kvs as [|kv' kvs'].
  - cbn [map join fst snd]. rewrite Hstep.
    + rewrite (skip_ws_closing indent rest "}" Hi eq_refl). reflexivity.
    + rewrite (skip_ws_closing indent rest "}" Hi eq_refl). discriminate.
  - set (member := fun kv : string * json =>
                     (QuoteJSONString (fst kv) ++ chars ": "
                      ++ serialize indent' (snd kv))%list) in *.
    change (join ("," :: newline :: indent')%char (map member ((k, v) :: kv' :: kvs')))
      with (member (k, v)
              ++ ("," :: newline :: indent')%char
              ++ join ("," :: newline :: indent')%char
                   (map member (kv' :: kvs')))%list.
    unfold member at 1. cbn [fst snd].
    rewrite <- (app_assoc (QuoteJSONString k ++ chars ": " ++ serialize indent' v)).
    rewrite Hstep.
    + cbn [app]. change (skip_ws (","%char :: ?r)) with (","%char :: r).
      cbv beta iota. change (Ascii.eqb "," ",") with true. cbv beta iota.
      rewrite <- app_assoc.
      rewrite (IH ltac:(discriminate) Hxs Hnxs Hsxs n ltac:(lia)).
      reflexivity.
    + cbn [app]. discriminate.
Qed.

Lemma size_positive (v : json) : (1 <= size v)%nat.
Proof. destruct v; cbn [size]; lia. Qed.

Lemma list_sum_bounds {A} (g : A -> nat) (xs : list A) :
  (forall x, (1 <= g x)%nat) ->
  Forall (fun x => (g x <= list_sum (map g xs))%nat) xs
  /\ (List.length xs <= list_sum (map g xs))%nat.
Proof.
  intros Hg. induction xs as [|x xs [IH1 IH2]]; cbn [map List.length].
  - split; [constructor|cbn; lia].
  - change (list_sum (g x :: map g xs)) with (g x + list_sum (map g xs))%nat.
    split.
    + constructor; [lia|]. eapply Forall_impl; [|exact IH1].
      cbv beta. intros. lia.
    + specialize (Hg x). lia.
Qed.

Lemma join_head (sep p : list ascii) (ps : list (list ascii)) (tail : list ascii)
  (c : ascii) (tl : list ascii) :
  p = c :: tl ->
  exists tl', (join sep (p :: ps) ++ tail = c :: tl')%list.
Proof.
  intros ->. destruct ps as [|q ps]; cbn [join app]; eauto.
Qed.

Lemma bracket_text (o c : ascii) (indent' body indent rest : list ascii) :
  ((o :: newline :: indent' ++ body ++ newline :: indent ++ [c]) ++ rest
   = o :: newline :: indent' ++ body ++ newline :: indent ++ c :: rest)%list.
Proof.
  cbn [app]. rewrite <- !app_assoc. cbn [app]. rewrite <- !app_assoc.
  reflexivity.
Qed.

Lemma serialize_reads_back (v : json) : reads_back v.
Proof.
  induction v as [| b | n | s | xs IH | kvs IH] using json_induction;
    intros Hnf fuel indent rest Hi Hsz;
    (destruct fuel as [|f];
     [match type of Hsz with (size ?v <= _)%nat => pose proof (size_positive v) end;
      lia|]).
  - reflexivity.
  - destruct b; reflexivity.
  - discriminate.
  - cbn [serialize]. rewrite QuoteJSONString_app.
    cbn [parse_value]. change (skip_ws (dquote :: ?r)) with (dquote :: r).
    cbv beta iota. change (Ascii.eqb dquote "n") with false.
    change (Ascii.eqb dquote "t") with false.
    change (Ascii.eqb dquote "f") with false.
    change (Ascii.eqb dquote dquote) with true. cbv beta iota.
    rewrite parse_quoted. unfold chars.
    now rewrite string_of_list_ascii_of_string.
  - destruct xs as [|x xs]; [reflexivity|].
    rewrite serialize_array, bracket_text.
    cbn [number_free] in Hnf. cbn [size] in Hsz.
    destruct (list_sum_bounds size (x :: xs) size_positive) as [Hall Hlen].
    assert (Hhead : exists c tl, serialize (indent ++ chars "  ") x = c :: tl
                                 /\ opens_value c = true).
    { apply serialize_head, number_free_not_number.
      cbn [forallb] in Hnf. now apply andb_prop in Hnf. }
    destruct Hhead as (c & tl & Hser & Hopen).
    destruct (join_head ("," :: newline :: indent ++ chars "  ")%char
                (serialize (indent ++ chars "  ") x)
                (map (serialize (indent ++ chars "  ")) xs)
                (newline :: indent ++ "]"%char :: rest) c tl Hser) as (tl' & Hjoin).
    assert (Hi' : spaces (indent ++ chars "  ")).
    { apply spaces_app; [exact Hi|]. repeat constructor. }
    rewrite (parse_value_array f _ tl' c).
    + rewrite (parse_elements_serialized f _ indent rest Hi' Hi (x :: xs));
        try assumption; try discriminate; try lia.
      * reflexivity.
      * eapply Forall_impl; [|exact Hall]. cbv beta. intros. lia.
    + change (skip_ws (newline :: ?r)) with (skip_ws r).
      rewrite skip_ws_spaces by exact Hi'.
      cbn [map] in Hjoin |- *. rewrite Hjoin. now apply opens_value_skip_ws.
    + now apply opens_value_not_closing.
  - destruct kvs as [|kv kvs]; [reflexivity|].
    rewrite serialize_object, bracket_text.
    cbn [number_free] in Hnf. cbn [size] in Hsz.
    destruct (list_sum_bounds (fun kv => size (snd kv)) (kv :: kvs)
                (fun kv => size_positive (snd kv))) as [Hall Hlen].
    assert (Hi' : spaces (indent ++ chars "  ")).
    { apply spaces_app; [exact Hi|]. repeat constructor. }
    set (member := fun kv : string * json =>
                     (QuoteJSONString (fst kv) ++ chars ": "
                      ++ serialize (indent ++ chars "  ") (snd kv))%list) in *.
    destruct (join_head ("," :: newline :: indent ++ chars "  ")%char
                (member kv) (map member kvs)
                (newline :: indent ++ "}"%char :: rest) dquote
                (flat_map quote_char (chars (fst kv)) ++ [dquote] ++ chars ": "
                   ++ serialize (indent ++ chars "  ") (snd kv))%list)
      as (tl' & Hjoin).
    { unfold member, QuoteJSONString. cbn [app]. now rewrite <- !app_assoc. }
    rewrite (parse_value_object f _ tl' dquote).
    + unfold member.
      rewrite (parse_members_serialized f _ indent rest Hi' Hi (kv :: kvs));
        try assumption; try discriminate; try lia.
      * reflexivity.
      * eapply Forall_impl; [|exact Hall]. cbv beta. intros. lia.
    + change (skip_ws (newline :: ?r)) with (skip_ws r).
      rewrite skip_ws_spaces by exact Hi'.
      cbn [map] in Hjoin |- *. rewrite Hjoin. reflexivity.
    + reflexivity.
Qed.

Lemma length_join (sep : list ascii) (parts : list (list ascii)) :
  (list_sum (map (@List.length ascii) parts) <= List.length (join sep parts))%nat.
Proof.
  induction parts as [|p ps IH]; [cbn; lia|].
  change (list_sum (map (@List.length ascii) (p :: ps)))
    with (List.length p + list_sum (map (@List.length ascii) ps))%nat.
  destruct ps as [|q ps].
  - cbn. lia.
  - change (join sep (p :: q :: ps)) with (p ++ sep ++ join sep (q :: ps))%list.
    rewrite !length_app. lia.
Qed.

Lemma list_sum_le {A} (g h : A -> nat) (xs : list A) :
  Forall (fun x => (g x <= h x)%nat) xs ->
  (list_sum (map g xs) <= list_sum (map h xs))%nat.
Proof.
  induction 1 as [|x xs Hx _ IH]; [cbn; lia|].
  change (list_sum (map g (x :: xs))) with (g x + list_sum (map g xs))%nat.
  change (list_sum (map h (x :: xs))) with (h x + list_sum (map h xs))%nat.
  lia.
Qed.

(** The text of a value is at least as long as the value has nodes. *)
Lemma size_le_serialize (v : json) :
  number_free v = true ->
  forall indent, (size v <= List.length (serialize indent v))%nat.
Proof.
  induction v as [| b | n | s | xs IH | kvs IH] using json_induction;
    intros Hnf indent.
  - cbn. lia.
  - destruct b; cbn; lia.
  - discriminate.
  - cbn [serialize size]. unfold QuoteJSONString. cbn [List.length]. lia.
  - destruct xs as [|x xs]; [cbn; lia|].
    rewrite serialize_array. cbn [size number_free] in *.
    cbn [List.length]. rewrite !length_app. cbn [List.length].
    pose proof (length_join ("," :: newline :: indent ++ chars "  ")%char
                  (map (serialize (indent ++ chars "  ")) (x :: xs))) as Hj.
    rewrite map_map in Hj.
    assert (Hle : (list_sum (map size (x :: xs))
                   <= list_sum (map (fun y => List.length
                                       (serialize (indent ++ chars "  ") y))
                                  (x :: xs)))%nat).
    { apply list_sum_le. rewrite forallb_forall in Hnf.
      rewrite Forall_forall in IH |- *. intros y Hy.
      apply IH; [exact Hy|]. now apply Hnf. }
    lia.
  - destruct kvs as [|kv kvs]; [cbn; lia|].
    rewrite serialize_object. cbn [size number_free] in *.
    cbn [List.length]. rewrite !length_app. cbn [List.length].
    pose proof (length_join ("," :: newline :: indent ++ chars "  ")%char
                  (map (fun kv => (QuoteJSONString (fst kv) ++ chars ": "
                          ++ serialize (indent ++ chars "  ") (snd kv))%list)
                       (kv :: kvs))) as Hj.
    rewrite map_map in Hj.
    assert (Hle : (list_sum (map (fun kv => size (snd kv)) (kv :: kvs))
                   <= list_sum (map (fun kv => List.length
                          (QuoteJSONString (fst kv) ++ chars ": "
                           ++ serialize (indent ++ chars "  ") (snd kv))%list)
                                  (kv :: kvs)))%nat).
    { apply list_sum_le. rewrite forallb_forall in Hnf.
      rewrite Forall_forall in IH |- *. intros y Hy.
      rewrite !length_app. specialize (IH y Hy (Hnf y Hy) (indent ++ chars "  ")%list).
      lia. }
    lia.
Qed.

(** [JSON.parse] reads back the text [JSON.stringify] writes for a value
    without numbers. *)
Lemma JSON_parse_stringify (v : json) :
  number_free v = true -> JSON_parse (JSON_stringify v) = Some v.
Proof.
  intros Hnf. unfold JSON_parse, JSON_stringify, chars.
  rewrite list_ascii_of_string_of_list_ascii.
  rewrite <- (app_nil_r (serialize [] v)) at 2.
  rewrite (serialize_reads_back v Hnf); [reflexivity|constructor|].
  pose proof (size_le_serialize v Hnf []). lia.
Qed.

Lemma Lockables_json_number_free (ls : list Lockable.t) :
  forallb number_free (map Lockable_json ls) = true.
Proof.
  induction ls as [|l ls IH]; [reflexivity|].
  cbn [map forallb]. rewrite IH, andb_true_r.
  cbn. now destruct (Lockable.color l).
Qed.

Lemma Entries_json_number_free (es : list Entry.t) :
  forallb number_free (map Entry_json es) = true.
Proof.
  induction es as [|e es IH]; [reflexivity|].
  cbn [map forallb]. rewrite IH, andb_true_r.
  unfold Entry_json. now destruct (Entry.note e).
Qed.

Lemma strings_json_number_free (xs : list string) :
  forallb number_free (map JString xs) = true.
Proof. induction xs as [|x xs IH]; [reflexivity|exact IH]. Qed.

Lemma Document_json_number_free (d : Document) :
  number_free (Document_json d) = true.
Proof.
  unfold Document_json, Preferences_json. cbn [number_free forallb snd].
  now rewrite Lockables_json_number_free, Entries_json_number_free,
    strings_json_number_free.
Qed.

(** Export, then import, of a Document that is well-formed with
    timestamps that are dates: the Document comes back with each
    timestamp written anew by [toISOString]. *)
Lemma export_import_normalizes (d state : Document) (w : World) :
  Document_wf valid_timestamp d = true ->
  importData (Some (snd (exportData d))) state w
  = (Normal (normalize_document d), w).
Proof.
  intros Hwf. unfold exportData. cbn [snd].
  rewrite (importData_eq _ (Document_json d) state w
             (JSON_parse_stringify _ (Document_json_number_free d))).
  now rewrite (import_document_json d w Hwf).
Qed.

Lemma canonical_document (d : Document) :
  Document_wf canonical_timestamp d = true ->
  Document_wf valid_timestamp d = true /\ normalize_document d = d.
Proof.
  unfold Document_wf. intros Hwf. apply andb_prop in Hwf as [Hwf Ht].
  apply andb_prop in Hwf as [Hl He]. rewrite Hl, Ht.
  cbn [andb]. rewrite andb_true_r.
  destruct d as [ls es p]. unfold normalize_document.
  cbn [lockables entries prefs] in *. clear Hl Ht.
  induction es as [|e es IH]; [split; reflexivity|].
  cbn [forallb] in He. apply andb_prop in He as [He Hes].
  destruct (IH Hes) as [IH1 IH2].
  unfold Entry_wf in He. apply andb_prop in He as [He Hnote].
  apply andb_prop in He as [Hids Hts].
  destruct (canonical_is_valid _ Hts) as [Hv Hn].
  split.
  - cbn [forallb]. rewrite IH1. unfold Entry_wf. now rewrite Hids, Hv, Hnote.
  - cbn [map]. injection IH2 as IH2. rewrite IH2. do 2 f_equal.
    destruct e as [i li ts nt]. unfold normalize_entry.
    cbn [Entry.id Entry.lockableId Entry.tsISO Entry.note] in *. now rewrite Hn.
Qed.


(** *** The streak *)

(** The date the loop holds after [k] rounds: the start of the local day
    [k] days before the day of [now] *)
Definition day_back (now : Z) (k : nat) : option Z :=
  Nat.iter k previous_day (setHours0 (Some now)).

(** Some entry falls on the day that starts at [d]. *)
Definition has_entry (state : Document) (d : option Z) : Prop :=
  exists e, In e (entries state) /\ day_key e = d.

Lemma same_time_eq (a b : option Z) : same_time a b = true <-> a = b.
Proof.
  destruct a as [x|], b as [y|]; cbn [same_time]; split; intros H;
    try discriminate; try reflexivity.
  - apply Z.eqb_eq in H. now subst.
  - injection H as ->. apply Z.eqb_refl.
Qed.

Lemma has_In (days : list (option Z)) (d : option Z) :
  has days d = true <-> In d days.
Proof.
  unfold has. rewrite existsb_exists. split.
  - intros (x & Hx & Heq). apply same_time_eq in Heq. now subst.
  - intros H. exists d. split; [exact H|]. now apply same_time_eq.
Qed.

Lemma has_entry_has (state : Document) (d : option Z) :
  has_entry state d <-> has (map day_key (entries state)) d = true.
Proof.
  rewrite has_In, in_map_iff. unfold has_entry. split.
  - intros (e & He & Hd). exists e. now split.
  - intros (e & Hd & He). exists e. now split.
Qed.

(** The loop counts the rounds up to the first date that is no key. *)
Lemma streak_loop_counts (days : list (option Z)) (n : nat) :
  forall (fuel : nat) (date : option Z) (count : nat),
    (forall k, (k < n)%nat -> has days (Nat.iter k previous_day date) = true) ->
    has days (Nat.iter n previous_day date) = false ->
    (n < fuel)%nat ->
    streak_loop fuel days date count = Some (count + n)%nat.
Proof.
  induction n as [|n IH]; intros fuel date count Hin Hout Hfuel;
    (destruct fuel as [|fuel]; [lia|]); cbn [streak_loop].
  - change (Nat.iter 0 previous_day date) with date in Hout.
    rewrite Hout. f_equal. lia.
  - pose proof (Hin 0%nat ltac:(lia)) as H0.
    change (Nat.iter 0 previous_day date) with date in H0. rewrite H0.
    rewrite (IH fuel (previous_day date) (S count)).
    + f_equal. lia.
    + intros k Hk. rewrite <- Nat.iter_succ_r. apply Hin. lia.
    + rewrite <- Nat.iter_succ_r. exact Hout.
    + lia.
Qed.

(** The streak is [n] when the [n] days from today back are different
    days with an entry each and the day before them has none. *)
Lemma streak_counts (state : Document) (now : Z) (n : nat) :
  NoDup (map (day_back now) (seq 0 n)) ->
  (forall k, (k < n)%nat -> has_entry state (day_back now k)) ->
  ~ has_entry state (day_back now n) ->
  streak state now = Some n.
Proof.
  intros Hnd Hin Hout. unfold streak.
  destruct (entries state) as [|e es] eqn:He.
  - cbn [List.length Nat.eqb]. destruct n as [|n]; [reflexivity|].
    destruct (Hin 0%nat ltac:(lia)) as (e & Hine & _). rewrite He in Hine.
    destruct Hine.
  - rewrite <- He. replace (List.length (entries state) =? 0)%nat with false
      by (rewrite He; reflexivity).
    rewrite (streak_loop_counts _ n).
    + reflexivity.
    + intros k Hk. apply has_entry_has. exact (Hin k Hk).
    + destruct (has (map day_key (entries state)) (Nat.iter n previous_day (setHours0 (Some now))))
        eqn:Hh; [|reflexivity].
      exfalso. apply Hout. now apply has_entry_has.
    + assert (Hle : (List.length (map (day_back now) (seq 0 n))
                     <= List.length (map day_key (entries state)))%nat).
      { apply NoDup_incl_length; [exact Hnd|].
        intros d Hd. apply in_map_iff in Hd as (k & <- & Hk).
        apply in_seq in Hk. apply has_In, has_entry_has, Hin. lia. }
      rewrite !length_map, length_seq in Hle. lia.
Qed.

(** **** Local calendar days *)

(** The local calendar day of an instant, as the number of the day
    since 1970-01-01 *)
Definition local_day (t : Z) : Z := Day (LocalTime t).

(** The local calendar day an entry falls on; none when its timestamp
    is no date *)
Definition entry_day (e : Entry.t) : option Z :=
  option_map local_day (Date_parse (Entry.tsISO e)).

(** The time value of the local midnight that starts day [D] *)
Definition day_start (D : Z) : option Z := TimeClip (UTC (MakeDate D 0)).

(** Every local midnight exists: the local time at the instant that
    [UTC] gives for it is that midnight. It is so in a zone with a
    constant offset, and in a zone that changes its clocks at another
    hour than midnight. *)
Definition midnights_exist : Prop :=
  forall D : Z, LocalTime (UTC (MakeDate D 0)) = MakeDate D 0.

Lemma TimeClip_Some (t x : Z) : TimeClip t = Some x -> x = t.
Proof. unfold TimeClip. destruct (Z.abs t <=? _); congruence. Qed.

Lemma Day_MakeDate (D : Z) : Day (MakeDate D 0) = D.
Proof.
  unfold Day, MakeDate, msPerDay. rewrite Z.add_0_r. now apply Z.div_mul.
Qed.

Lemma TimeWithinDay_MakeDate (D : Z) : TimeWithinDay (MakeDate D 0) = 0.
Proof.
  unfold TimeWithinDay, MakeDate, msPerDay. rewrite Z.add_0_r.
  now apply Z.mod_mul.
Qed.

(** The day number of the first of a month, plus the day of the month
    less one, is the day number the date was read from: [MakeDay] undoes
    [YearFromTime], [MonthFromTime] and [DateFromTime]. *)
Lemma civil_from_days_inverse (z : Z) :
  1 <= snd (fst (civil_from_days z)) <= 12
  /\ days_from_civil (fst (fst (civil_from_days z)))
       (snd (fst (civil_from_days z))) 1
     + snd (civil_from_days z) - 1 = z.
Proof.
  unfold civil_from_days.
  set (z' := z + 719468).
  set (era := z' / 146097).
  set (doe := z' - era * 146097).
  assert (Hdoe : 0 <= doe < 146097)
    by (subst doe era; Z.div_mod_to_equations; lia).
  set (yoe := (doe - doe / 1460 + doe / 36524 - doe / 146096) / 365).
  assert (Hyoe : 0 <= yoe <= 399) by (subst yoe; Z.div_mod_to_equations; lia).
  set (doy := doe - (365 * yoe + yoe / 4 - yoe / 100)).
  assert (Hdoy : 0 <= doy <= 365)
    by (subst doy yoe; Z.div_mod_to_equations; lia).
  set (mp := (5 * doy + 2) / 153).
  assert (Hmp : 0 <= mp <= 11) by (subst mp; Z.div_mod_to_equations; lia).
  cbn [fst snd].
  assert (Hera : (yoe + era * 400) / 400 = era)
    by (Z.div_mod_to_equations; lia).
  unfold days_from_civil.
  destruct (mp <? 10) eqn:Hlt.
  - apply Z.ltb_lt in Hlt.
    replace (mp + 3 <=? 2) with false by (symmetry; apply Z.leb_gt; lia).
    replace (2 <? mp + 3) with true by (symmetry; apply Z.ltb_lt; lia).
    split; [lia|]. rewrite Hera.
    replace (mp + 3 - 3) with mp by lia.
    replace (yoe + era * 400 - era * 400) with yoe by lia.
    subst doy doe z'. lia.
  - apply Z.ltb_ge in Hlt.
    replace (mp - 9 <=? 2) with true by (symmetry; apply Z.leb_le; lia).
    replace (2 <? mp - 9) with false by (symmetry; apply Z.ltb_ge; lia).
    split; [lia|].
    replace (yoe + era * 400 + 1 - 1) with (yoe + era * 400) by lia.
    rewrite Hera.
    replace (mp - 9 + 9) with mp by lia.
    replace (yoe + era * 400 - era * 400) with yoe by lia.
    subst doy doe z'. lia.
Qed.

Lemma MakeDay_previous (t : Z) :
  MakeDay (YearFromTime t) (MonthFromTime t) (DateFromTime t - 1) = Day t - 1.
Proof.
  unfold MakeDay, YearFromTime, MonthFromTime, DateFromTime.
  destruct (civil_from_days_inverse (Day t)) as [Hm Hinv].
  set (m := snd (fst (civil_from_days (Day t)))) in *.
  replace ((m - 1) / 12) with 0 by (Z.div_mod_to_equations; lia).
  replace ((m - 1) mod 12 + 1) with m by (Z.div_mod_to_equations; lia).
  rewrite Z.add_0_r. lia.
Qed.

Lemma setHours0_day_start (tv : Z) :
  setHours0 (Some tv) = day_start (local_day tv).
Proof. reflexivity. Qed.

Lemma previous_day_day_start (D x : Z) :
  midnights_exist ->
  day_start D = Some x ->
  previous_day (Some x) = day_start (D - 1).
Proof.
  intros Hm Hx. apply TimeClip_Some in Hx. subst x.
  unfold previous_day, getDate, setDate, day_start. cbn [option_map].
  rewrite (Hm D), MakeDay_previous, Day_MakeDate, TimeWithinDay_MakeDate.
  reflexivity.
Qed.

Lemma day_back_day_start (now : Z) (k : nat) :
  midnights_exist ->
  (forall j, (j < k)%nat -> day_start (local_day now - Z.of_nat j) <> None) ->
  day_back now k = day_start (local_day now - Z.of_nat k).
Proof.
  intros Hm. induction k as [|k IH]; intros Hrange.
  - unfold day_back. change (Nat.iter 0 _ ?x) with x.
    rewrite setHours0_day_start. f_equal. cbn. lia.
  - unfold day_back in *. rewrite Nat.iter_succ, IH by (intros; apply Hrange; lia).
    destruct (day_start (local_day now - Z.of_nat k)) as [x|] eqn:Hx.
    + rewrite (previous_day_day_start _ x Hm Hx). f_equal. lia.
    + exfalso. apply (Hrange k); [lia|exact Hx].
Qed.

Lemma day_start_injective (D D' x : Z) :
  midnights_exist -> day_start D = Some x -> day_start D' = Some x -> D = D'.
Proof.
  intros Hm H H'. apply TimeClip_Some in H, H'.
  assert (Heq : MakeDate D 0 = MakeDate D' 0).
  { rewrite <- (Hm D), <- (Hm D'). congruence. }
  unfold MakeDate, msPerDay in Heq. lia.
Qed.

Lemma day_key_entry_day (e : Entry.t) :
  day_key e = match entry_day e with
              | Some D => day_start D
              | None => None
              end.
Proof.
  unfold day_key, entry_day. destruct (Date_parse (Entry.tsISO e)); reflexivity.
Qed.

(** Some entry falls on the local calendar day [D]. *)
Definition entry_on (state : Document) (D : Z) : Prop :=
  exists e, In e (entries state) /\ entry_day e = Some D.

Lemma has_entry_entry_on (state : Document) (D : Z) :
  midnights_exist ->
  day_start D <> None ->
  has_entry state (day_start D) <-> entry_on state D.
Proof.
  intros Hm Hrange. unfold has_entry, entry_on. split.
  - intros (e & He & Hk). exists e. split; [exact He|].
    rewrite day_key_entry_day in Hk. destruct (entry_day e) as [D'|].
    + destruct (day_start D) as [x|] eqn:Hx; [|congruence].
      f_equal. exact (day_start_injective D' D x Hm Hk Hx).
    + congruence.
  - intros (e & He & Hd). exists e. split; [exact He|].
    now rewrite day_key_entry_day, Hd.
Qed.

Lemma NoDup_map_seq {A} (f : nat -> A) (n : nat) :
  forall s : nat,
    (forall i j, (s <= i < s + n)%nat -> (s <= j < s + n)%nat ->
                 f i = f j -> i = j) ->
    NoDup (map f (seq s n)).
Proof.
  induction n as [|n IH]; intros s Hinj; cbn [seq map]; constructor.
  - intros Hin. apply in_map_iff in Hin as (j & Hfj & Hj).
    apply in_seq in Hj. assert (j = s) by (apply Hinj; [lia|lia|exact Hfj]).
    lia.
  - apply IH. intros i j Hi Hj. apply Hinj; lia.
Qed.

(** The streak is [n] when each of the [n] local calendar days from
    today back has an entry and the day before them has none. *)
Lemma streak_counts_days (state : Document) (now : Z) (n : nat) :
  midnights_exist ->
  (forall k, (k <= n)%nat -> day_start (local_day now - Z.of_nat k) <> None) ->
  (forall k, (k < n)%nat -> entry_on state (local_day now - Z.of_nat k)) ->
  ~ entry_on state (local_day now - Z.of_nat n) ->
  streak state now = Some n.
Proof.
  intros Hm Hrange Hin Hout.
  assert (Hback : forall k, (k <= n)%nat ->
            day_back now k = day_start (local_day now - Z.of_nat k)).
  { intros k Hk. apply day_back_day_start; [exact Hm|].
    intros j Hj. apply Hrange. lia. }
  apply streak_counts.
  - apply NoDup_map_seq. intros i j Hi Hj Heq.
    rewrite !Hback in Heq by lia.
    destruct (day_start (local_day now - Z.of_nat i)) as [x|] eqn:Hx.
    + symmetry in Heq.
      pose proof (day_start_injective _ _ x Hm Hx Heq). lia.
    + exfalso. apply (Hrange i); [lia|exact Hx].
  - intros k Hk. rewrite Hback by lia.
    apply has_entry_entry_on; [exact Hm|apply Hrange; lia|]. now apply Hin.
  - rewrite Hback by lia. intros H. apply Hout.
    apply has_entry_entry_on in H; [exact H|exact Hm|]. apply Hrange. lia.
Qed.

Lemma streak_loop_None (days : list (option Z)) (fuel : nat) :
  forall (date : option Z) (count : nat),
    streak_loop fuel days date count = None ->
    forall k, (k < fuel)%nat -> has days (Nat.iter k previous_day date) = true.
Proof.
  induction fuel as [|fuel IH]; intros date count Hloop k Hk; [lia|].
  cbn [streak_loop] in Hloop.
  destruct (has days date) eqn:Hhas; [|discriminate].
  destruct k as [|k]; [exact Hhas|].
  rewrite Nat.iter_succ_r. apply (IH _ _ Hloop). lia.
Qed.

Lemma streak_loop_bound (days : list (option Z)) (fuel : nat) :
  forall (date : option Z) (count r : nat),
    streak_loop fuel days date count = Some r ->
    (count <= r < count + fuel)%nat.
Proof.
  induction fuel as [|fuel IH]; intros date count r Hloop; [discriminate|].
  cbn [streak_loop] in Hloop. destruct (has days date).
  - apply IH in Hloop. lia.
  - injection Hloop as <-. lia.
Qed.

(** The loop ends: where every local midnight exists and the days from
    today back, one for each entry and one more, are within the range
    of the time values, the streak is computed, and it is at most the
    number of entries. The days the loop passes are different days, so
    it cannot find an entry on more of them than there are entries. *)
Lemma streak_terminates (state : Document) (now : Z) :
  midnights_exist ->
  (forall k, (k <= List.length (entries state))%nat ->
             day_start (local_day now - Z.of_nat k) <> None) ->
  exists n, (n <= List.length (entries state))%nat /\ streak state now = Some n.
Proof.
  intros Hm Hrange. unfold streak.
  destruct (List.length (entries state) =? 0)%nat eqn:Hzero.
  - exists 0%nat. split; [lia|reflexivity].
  - set (L := List.length (entries state)) in *.
    set (days := map day_key (entries state)).
    destruct (streak_loop (S L) days (setHours0 (Some now)) 0) as [r|] eqn:Hloop.
    + exists r. split; [|reflexivity]. apply streak_loop_bound in Hloop. lia.
    + exfalso.
      pose proof (streak_loop_None days (S L) _ _ Hloop) as Hall.
      assert (Hback : forall k, (k <= L)%nat ->
                day_back now k = day_start (local_day now - Z.of_nat k)).
      { intros k Hk. apply day_back_day_start; [exact Hm|].
        intros j Hj. apply Hrange. fold L. lia. }
      assert (Hle : (List.length (map (day_back now) (seq 0 (S L)))
                     <= List.length days)%nat).
      { apply NoDup_incl_length.
        - apply NoDup_map_seq. intros i j Hi Hj Heq.
          rewrite !Hback in Heq by lia.
          destruct (day_start (local_day now - Z.of_nat i)) as [x|] eqn:Hx.
          + symmetry in Heq.
            pose proof (day_start_injective _ _ x Hm Hx Heq). lia.
          + exfalso. apply (Hrange i); [fold L; lia|exact Hx].
        - intros d Hd. apply in_map_iff in Hd as (k & <- & Hk).
          apply in_seq in Hk. apply has_In. apply Hall. lia. }
      unfold days in Hle. rewrite !length_map, length_seq in Hle. fold L in Hle.
      lia.
Qed.


(** *** Further properties of the handlers *)

(** recordEntry then undoLast, whatever the number of entries: the
    entries are the first 199 of those before; lockables and prefs are
    as before. *)
Theorem undo_after_record_keeps_199 (l : Lockable.t) (state : Document) (w : World) :
  exists state1 w1 state2,
    recordEntry l state w = (Normal state1, w1)
    /\ undoLast state1 w1 = (Normal state2, w1)
    /\ lockables state2 = lockables state
    /\ prefs state2 = prefs state
    /\ entries state2 = firstn 199 (entries state).
Proof. exact (undo_after_record l state w). Qed.

(** undoLast on a Document without entries changes nothing. *)
Theorem undoLast_empty (state : Document) (w : World) :
  entries state = [] -> undoLast state w = (Normal state, w).
Proof.
  intros He. rewrite undoLast_eq, He. destruct state. cbn in *. now subst.
Qed.

(** addLockable gives up, the Document unchanged, when the name or the
    icon is cancelled or empty; otherwise it appends one lockable with
    the name and the icon entered, the colour entered (or [null]) and a
    fresh identifier, and changes nothing else. *)
Theorem addLockable_appends (state : Document) (w : World) :
  exists state' w',
    addLockable state w = (Normal state', w')
    /\ entries state' = entries state
    /\ prefs state' = prefs state
    /\ (let name := prompt_replies w (n_prompt w) in
        let icon := prompt_replies w (S (n_prompt w)) in
        if no_reply name || no_reply icon
        then lockables state' = lockables state
        else lockables state'
             = (lockables state
                ++ [ {| Lockable.id := random_ids w (n_random w);
                        Lockable.name := reply_text name;
                        Lockable.icon := reply_text icon;
                        Lockable.color := prompt_replies w (S (S (n_prompt w))) |} ])%list).
Proof.
  unfold addLockable, bind, prompt, uid, setState, ret. simpl.
  destruct (no_reply (prompt_replies w (n_prompt w))); simpl; [eauto 10|].
  destruct (no_reply (prompt_replies w (S (n_prompt w)))); simpl; eauto 10.
Qed.

(** A file whose [lockables] and [entries] are empty arrays and that
    has no [prefs] is imported as the Document without lockables and
    entries and with the default preferences. *)
Theorem importData_empty_document (text : string) (state : Document) (w : World) :
  JSON_parse text
  = Some (JObject [("lockables", JArray []); ("entries", JArray [])]) ->
  importData (Some text) state w
  = (Normal {| lockables := [];
               entries := [];
               prefs := {| theme := "system";
                           confirmNote := false;
                           quickNoteSuggestions := defaultSuggestions |} |}, w).
Proof.
  intros Hparse. now rewrite (importData_eq _ _ state w Hparse).
Qed.

(** An import that succeeds sets as many entries as the file has. *)
Theorem importData_maps_every_entry
  (text : string) (data : json) (state imported : Document) (w w' : World) :
  JSON_parse text = Some data ->
  import_document data w = (Normal imported, w') ->
  importData (Some text) state w = (Normal imported, w')
  /\ List.length (entries imported)
     = List.length (elements_of (prop data "entries")).
Proof.
  intros Hparse Himp. rewrite (importData_eq _ _ state w Hparse), Himp.
  split; [reflexivity|]. exact (import_document_entries_length _ _ _ _ Himp).
Qed.

(** [JSON.parse(JSON.stringify(v, null, 2))] is [v] for the value of
    every Document. *)
Theorem JSON_roundtrip_document (d : Document) :
  JSON_parse (JSON_stringify (Document_json d)) = Some (Document_json d).
Proof. apply JSON_parse_stringify, Document_json_number_free. Qed.

(** Export, then import, where the timestamps are dates in any form
    [new Date] reads: the Document comes back with each timestamp
    written as [toISOString] writes that date. *)
Theorem export_import_rewrites_timestamps (d state : Document) (w : World) :
  Document_wf valid_timestamp d = true ->
  importData (Some (snd (exportData d))) state w
  = (Normal (normalize_document d), w).
Proof. apply export_import_normalizes. Qed.

(** The streak is computed and is at most the number of entries. *)
Theorem streak_is_computed (state : Document) (now : Z) :
  midnights_exist ->
  (forall k, (k <= List.length (entries state))%nat ->
             day_start (local_day now - Z.of_nat k) <> None) ->
  exists n, (n <= List.length (entries state))%nat /\ streak state now = Some n.
Proof. apply streak_terminates. Qed.

(** *** What toISOString writes, Date.parse reads *)

Lemma chars_append (a b : string) :
  list_ascii_of_string (a ++ b)
  = (list_ascii_of_string a ++ list_ascii_of_string b)%list.
Proof.
  induction a as [|c a IH]; cbn [append list_ascii_of_string app];
    [reflexivity|now rewrite IH].
Qed.

Lemma digit_cases (d : Z) :
  0 <= d <= 9 ->
  d = 0 \/ d = 1 \/ d = 2 \/ d = 3 \/ d = 4 \/ d = 5 \/ d = 6 \/ d = 7
  \/ d = 8 \/ d = 9.
Proof. lia. Qed.

Lemma digit_val_digit_char (d : Z) :
  0 <= d <= 9 -> digit_val (digit_char d) = Some d.
Proof.
  intros H. destruct (digit_cases d H) as [->|[->|[->|[->|[->|[->|[->|[->|[->| ->]]]]]]]]];
    reflexivity.
Qed.

Lemma take_digits_app (n m : nat) :
  forall (acc : Z) (cs : list ascii),
    take_digits (n + m) acc cs
    = match take_digits n acc cs with
      | Some (a, r) => take_digits m a r
      | None => None
      end.
Proof.
  induction n as [|n IH]; intros acc cs; cbn [Nat.add take_digits]; [reflexivity|].
  destruct cs as [|c cs]; [reflexivity|].
  destruct (digit_val c); [apply IH|reflexivity].
Qed.

(** [take_digits] reads back the [n] digits that [digits] writes. *)
Lemma take_digits_digits (n : nat) :
  forall (v acc : Z) (rest : list ascii),
    0 <= v < 10 ^ Z.of_nat n ->
    take_digits n acc (list_ascii_of_string (digits n v) ++ rest)
    = Some (acc * 10 ^ Z.of_nat n + v, rest).
Proof.
  induction n as [|n IH]; intros v acc rest Hv.
  - cbn [digits list_ascii_of_string app take_digits]. f_equal. f_equal.
    change (10 ^ Z.of_nat 0) with 1 in *. lia.
  - rewrite Nat2Z.inj_succ, Z.pow_succ_r in * by lia.
    cbn [digits]. rewrite chars_append, <- app_assoc.
    replace (S n) with (n + 1)%nat by lia. rewrite take_digits_app.
    rewrite IH by (Z.div_mod_to_equations; lia).
    cbn [list_ascii_of_string app take_digits].
    rewrite digit_val_digit_char by (Z.div_mod_to_equations; lia).
    f_equal. f_equal. Z.div_mod_to_equations. lia.
Qed.

(** The day of the month that [civil_from_days] gives exists in its
    month. *)
Lemma civil_from_days_day (z : Z) :
  1 <= snd (civil_from_days z)
       <= DaysInMonth (fst (fst (civil_from_days z))) (snd (fst (civil_from_days z))).
Proof.
  unfold DaysInMonth, civil_from_days.
  set (z' := z + 719468).
  set (era := z' / 146097).
  set (doe := z' - era * 146097).
  assert (Hdoe : 0 <= doe < 146097)
    by (subst doe era; Z.div_mod_to_equations; lia).
  set (yoe := (doe - doe / 1460 + doe / 36524 - doe / 146096) / 365).
  assert (Hyoe : 0 <= yoe <= 399) by (subst yoe; Z.div_mod_to_equations; lia).
  set (doy := doe - (365 * yoe + yoe / 4 - yoe / 100)).
  assert (Hdoy : 0 <= doy <= 365)
    by (subst doy yoe; Z.div_mod_to_equations; lia).
  assert (Hlast : doy < 365 + (yoe + 1) / 4 - yoe / 4 - ((yoe + 1) / 100 - yoe / 100)
                  \/ (yoe = 399 /\ doy <= 365)).
  { subst doy yoe. Z.div_mod_to_equations. lia. }
  set (mp := (5 * doy + 2) / 153).
  assert (Hmp : 0 <= mp <= 11) by (subst mp; Z.div_mod_to_equations; lia).
  cbn [fst snd].
  assert (Hera : (yoe + era * 400) / 400 = era)
    by (Z.div_mod_to_equations; lia).
  clearbody doy. clear Hdoe. clearbody yoe. clearbody era.
  assert (Hd : 1 <= doy - (153 * mp + 2) / 5 + 1)
    by (subst mp; Z.div_mod_to_equations; lia).
  split; [exact Hd|].
  assert (Hnext : mp <= 10 -> doy < (153 * (mp + 1) + 2) / 5)
    by (intros ?; subst mp; Z.div_mod_to_equations; lia).
  unfold days_from_civil.
  destruct (Z.ltb_spec mp 10) as [Hlt|Hge].
  - destruct (Z.eqb_spec (mp + 3) 12) as [H12|H12].
    + replace mp with 9 in * by lia. cbn. rewrite Hera.
      change (5 * doy + 2) with (5 * doy + 2) in *.
      specialize (Hnext ltac:(lia)). cbn in Hnext. Z.div_mod_to_equations. lia.
    + replace (mp + 3 <=? 2) with false by (symmetry; apply Z.leb_gt; lia).
      replace (mp + 3 + 1 <=? 2) with false by (symmetry; apply Z.leb_gt; lia).
      replace (2 <? mp + 3) with true by (symmetry; apply Z.ltb_lt; lia).
      replace (2 <? mp + 3 + 1) with true by (symmetry; apply Z.ltb_lt; lia).
      rewrite Hera. specialize (Hnext ltac:(lia)).
      replace (mp + 3 + 1 - 3) with (mp + 1) by lia.
      replace (mp + 3 - 3) with mp by lia. lia.
  - destruct (Z.eqb_spec (mp - 9) 12) as [H12|H12]; [lia|].
    replace (mp - 9 <=? 2) with true by (symmetry; apply Z.leb_le; lia).
    replace (2 <? mp - 9) with false by (symmetry; apply Z.ltb_ge; lia).
    replace (yoe + era * 400 + 1 - 1) with (yoe + era * 400) by lia.
    rewrite Hera. replace (mp - 9 + 9) with mp by lia.
    assert (Hmp' : mp = 10 \/ mp = 11) by lia. destruct Hmp' as [Hmp'|Hmp'].
    + rewrite Hmp' in *. specialize (Hnext ltac:(lia)). cbn.
      rewrite Hera. cbn in Hnext. lia.
    + rewrite Hmp' in *. cbn.
      destruct Hlast as [Hl|[Hy Hl]].
      * assert (Hera' : (yoe + era * 400 + 1) / 400 = era \/ yoe = 399)
          by (Z.div_mod_to_equations; lia).
        destruct Hera' as [Hera'|Hy].
        -- rewrite Hera'. Z.div_mod_to_equations. lia.
        -- subst yoe. replace ((399 + era * 400 + 1) / 400) with (era + 1)
             by (Z.div_mod_to_equations; lia).
           Z.div_mod_to_equations. lia.
      * subst yoe. replace ((399 + era * 400 + 1) / 400) with (era + 1)
          by (Z.div_mod_to_equations; lia).
        Z.div_mod_to_equations. lia.
Qed.

Lemma civil_from_days_year (z : Z) :
  -100000000 <= z <= 100000000 ->
  -999999 <= fst (fst (civil_from_days z)) <= 999999.
Proof.
  intros Hz. unfold civil_from_days.
  set (z' := z + 719468).
  set (era := z' / 146097).
  set (doe := z' - era * 146097).
  assert (Hdoe : 0 <= doe < 146097)
    by (subst doe era; Z.div_mod_to_equations; lia).
  set (yoe := (doe - doe / 1460 + doe / 36524 - doe / 146096) / 365).
  assert (Hyoe : 0 <= yoe <= 399) by (subst yoe; Z.div_mod_to_equations; lia).
  assert (Hera : -680 <= era <= 689) by (subst era z'; Z.div_mod_to_equations; lia).
  cbn [fst snd]. clearbody yoe.
  set (doy := doe - (365 * yoe + yoe / 4 - yoe / 100)). clearbody doy.
  destruct ((if (5 * doy + 2) / 153 <? 10 then _ else _) <=? 2); lia.
Qed.

Lemma iso_parse_year_digit (d : Z) (cs : list ascii) :
  0 <= d <= 9 ->
  iso_parse_year (digit_char d :: cs) = take_digits 4 0 (digit_char d :: cs).
Proof.
  intros H. destruct (digit_cases d H) as [->|[->|[->|[->|[->|[->|[->|[->|[->| ->]]]]]]]]];
    reflexivity.
Qed.

(** The year as [toISOString] writes it, four digits or a sign and six,
    is read back. *)
Lemma iso_parse_year_ISOString (y : Z) (rest : list ascii) :
  -999999 <= y <= 999999 ->
  iso_parse_year
    (list_ascii_of_string
       (if (0 <=? y) && (y <=? 9999) then digits 4 y
        else (if 0 <=? y then "+" else "-") ++ digits 6 (Z.abs y)) ++ rest)
  = Some (y, rest).
Proof.
  intros Hy.
  destruct (Z.leb_spec 0 y) as [H0|H0]; cbn [andb].
  - destruct (Z.leb_spec y 9999) as [H9|H9].
    + pose proof (take_digits_digits 4 y 0 rest ltac:(cbn; lia)) as Ht.
      cbn [Z.mul] in Ht. rewrite Z.add_0_l in Ht. rewrite <- Ht.
      change (digits 4 y)
        with (String (digit_char (y / 10 / 10 / 10 mod 10))
                (String (digit_char (y / 10 / 10 mod 10))
                   (String (digit_char (y / 10 mod 10))
                      (String (digit_char (y mod 10)) "")))).
      cbn [list_ascii_of_string app].
      apply iso_parse_year_digit. Z.div_mod_to_equations. lia.
    + cbn [append list_ascii_of_string app iso_parse_year].
      rewrite (take_digits_digits 6 (Z.abs y) 0 rest) by (cbn; lia).
      f_equal. f_equal. lia.
  - cbn [append list_ascii_of_string app iso_parse_year].
    rewrite (take_digits_digits 6 (Z.abs y) 0 rest) by (cbn; lia).
    replace (0 * 10 ^ Z.of_nat 6 + Z.abs y =? 0) with false
      by (symmetry; apply Z.eqb_neq; lia).
    f_equal. f_equal. lia.
Qed.

Lemma take_two_digits (v : Z) (rest : list ascii) :
  0 <= v <= 99 ->
  take_digits 2 0 (list_ascii_of_string (digits 2 v) ++ rest) = Some (v, rest).
Proof.
  intros Hv. rewrite (take_digits_digits 2 v 0 rest) by (cbn; lia). reflexivity.
Qed.

(** The fields [Date.parse] finds in the text [toISOString] writes for a
    time value *)
Lemma iso_fields_ISOString (t : Z) :
  Z.abs t <= 8640000000000000 ->
  iso_fields (ISOString t)
  = Some (mkIsoFields (YearFromTime t) (MonthFromTime t + 1) (DateFromTime t)
            (Some (HourFromTime t, MinFromTime t, SecFromTime t, msFromTime t))
            (Some 0)).
Proof.
  intros Ht.
  assert (Hday : -100000000 <= Day t <= 100000000)
    by (unfold Day, msPerDay; Z.div_mod_to_equations; lia).
  pose proof (civil_from_days_year (Day t) Hday) as Hy.
  destruct (civil_from_days_inverse (Day t)) as [Hm _].
  pose proof (civil_from_days_day (Day t)) as Hd.
  assert (Hd31 : DaysInMonth (fst (fst (civil_from_days (Day t))))
                   (snd (fst (civil_from_days (Day t)))) <= 99).
  { unfold DaysInMonth, days_from_civil.
    set (y := fst (fst (civil_from_days (Day t)))).
    set (m := snd (fst (civil_from_days (Day t)))) in *.
    assert (Hcases : m = 1 \/ m = 2 \/ m = 3 \/ m = 4 \/ m = 5 \/ m = 6 \/ m = 7
                     \/ m = 8 \/ m = 9 \/ m = 10 \/ m = 11 \/ m = 12) by lia.
    clearbody m y.
    destruct Hcases as [->|[->|[->|[->|[->|[->|[->|[->|[->|[->|[->| ->]]]]]]]]]]];
      cbn; Z.div_mod_to_equations; lia. }
  unfold iso_fields, ISOString.
  fold (YearFromTime t) in Hy. fold (DateFromTime t) in Hd.
  unfold MonthFromTime.
  set (y := YearFromTime t) in *.
  set (mo := snd (fst (civil_from_days (Day t)))) in *.
  replace (mo - 1 + 1) with mo by lia.
  set (d := DateFromTime t) in *.
  rewrite chars_append, (iso_parse_year_ISOString y _ Hy).
  cbn [append list_ascii_of_string].
  rewrite chars_append, take_two_digits by lia.
  cbn [append list_ascii_of_string].
  rewrite chars_append, take_two_digits by lia.
  cbn [append list_ascii_of_string iso_parse_rest].
  unfold iso_parse_time.
  rewrite chars_append, take_two_digits
    by (unfold HourFromTime; Z.div_mod_to_equations; lia).
  cbn [append list_ascii_of_string].
  rewrite chars_append, take_two_digits
    by (unfold MinFromTime; Z.div_mod_to_equations; lia).
  cbn [append list_ascii_of_string].
  rewrite chars_append, take_two_digits
    by (unfold SecFromTime; Z.div_mod_to_equations; lia).
  cbn [append list_ascii_of_string].
  rewrite chars_append, (take_digits_digits 3 (msFromTime t) 0)
    by (unfold msFromTime, msPerSecond; cbn; Z.div_mod_to_equations; lia).
  cbn [list_ascii_of_string iso_parse_offset]. reflexivity.
Qed.

(** [new Date(d.toISOString())] is the time value of [d], for every
    date [d]. *)
Lemma Date_parse_ISOString (t : Z) :
  Z.abs t <= 8640000000000000 -> Date_parse (ISOString t) = Some t.
Proof.
  intros Ht. unfold Date_parse. rewrite (iso_fields_ISOString t Ht).
  destruct (civil_from_days_inverse (Day t)) as [Hm Hinv].
  pose proof (civil_from_days_day (Day t)) as Hd.
  assert (Hlegal : iso_legal
            (mkIsoFields (YearFromTime t) (MonthFromTime t + 1) (DateFromTime t)
               (Some (HourFromTime t, MinFromTime t, SecFromTime t, msFromTime t))
               (Some 0)) = true).
  { unfold iso_legal.
    cbn [iso_year iso_month iso_day iso_time].
    unfold MonthFromTime, DateFromTime, YearFromTime.
    replace (snd (fst (civil_from_days (Day t))) - 1 + 1)
      with (snd (fst (civil_from_days (Day t)))) by lia.
    repeat (apply andb_true_intro; split); try (apply Z.leb_le; lia).
    - apply Z.leb_le. unfold MinFromTime. Z.div_mod_to_equations. lia.
    - apply Z.leb_le. unfold SecFromTime. Z.div_mod_to_equations. lia.
    - apply orb_true_intro. left. apply Z.leb_le.
      unfold HourFromTime. Z.div_mod_to_equations. lia. }
  rewrite Hlegal. unfold iso_time_value.
  cbn [iso_year iso_month iso_day iso_time iso_offset].
  replace (MakeDay (YearFromTime t) (MonthFromTime t + 1 - 1) (DateFromTime t))
    with (Day t).
  2:{ unfold MakeDay, YearFromTime, MonthFromTime, DateFromTime.
      set (m := snd (fst (civil_from_days (Day t)))) in *.
      replace (m - 1 + 1 - 1) with (m - 1) by lia.
      replace ((m - 1) / 12) with 0 by (Z.div_mod_to_equations; lia).
      replace ((m - 1) mod 12 + 1) with m by (Z.div_mod_to_equations; lia).
      rewrite Z.add_0_r. lia. }
  replace (MakeDate (Day t)
             (MakeTime (HourFromTime t) (MinFromTime t) (SecFromTime t) (msFromTime t))
           - 0 * msPerMinute) with t.
  2:{ unfold MakeDate, MakeTime, Day, HourFromTime, MinFromTime, SecFromTime,
        msFromTime, msPerDay, msPerHour, msPerMinute, msPerSecond.
      Z.div_mod_to_equations. lia. }
  unfold TimeClip. now replace (Z.abs t <=? 8640000000000000) with true
    by (symmetry; apply Z.leb_le; exact Ht).
Qed.

(** *** JSON.parse reads back what JSON.stringify writes without
    indentation *)

Definition reads_back_compact (v : json) : Prop :=
  number_free v = true ->
  forall (fuel : nat) (rest : list ascii),
    (size v <= fuel)%nat ->
    parse_value fuel (serialize_compact v ++ rest) = Some (v, rest).

Lemma serialize_compact_head (v : json) :
  (forall n, v <> JNumber n) ->
  exists c tl, serialize_compact v = c :: tl /\ opens_value c = true.
Proof.
  intros Hn. destruct v as [| [] | n | s | xs | kvs];
    try (do 2 eexists; split; [reflexivity|reflexivity]).
  exfalso. exact (Hn n eq_refl).
Qed.

Lemma parse_elements_compact (f : nat) (rest : list ascii) :
  forall xs : list json,
    xs <> [] ->
    Forall reads_back_compact xs ->
    forallb number_free xs = true ->
    Forall (fun x => (size x <= f)%nat) xs ->
    forall n : nat, (List.length xs <= n)%nat ->
    parse_elements (parse_value f) n
      (join [","%char] (map serialize_compact xs) ++ "]"%char :: rest)
    = Some (xs, rest).
Proof.
  induction xs as [|x xs IH]; intros Hne Hrb Hnf Hsz n Hn; [congruence|].
  inversion Hrb as [|? ? Hx Hxs]; subst.
  inversion Hsz as [|? ? Hsx Hsxs]; subst.
  cbn [forallb] in Hnf. apply andb_prop in Hnf as [Hnx Hnxs].
  destruct n as [|n]; [cbn in Hn; lia|]. cbn [List.length] in Hn.
  cbn [parse_elements].
  destruct xs as [|y ys].
  - cbn [map join]. rewrite (Hx Hnx f _ Hsx). reflexivity.
  - change (join [","%char] (map serialize_compact (x :: y :: ys)))
      with (serialize_compact x ++ [","%char]
              ++ join [","%char] (map serialize_compact (y :: ys)))%list.
    rewrite <- !app_assoc. rewrite (Hx Hnx f _ Hsx).
    cbn [app]. change (skip_ws (","%char :: ?r)) with (","%char :: r).
    cbv beta iota. change (Ascii.eqb "," ",") with true. cbv beta iota.
    rewrite (IH ltac:(discriminate) Hxs Hnxs Hsxs n ltac:(lia)).
    reflexivity.
Qed.

Lemma parse_members_compact (f : nat) (rest : list ascii) :
  forall kvs : list (string * json),
    kvs <> [] ->
    Forall (fun kv => reads_back_compact (snd kv)) kvs ->
    forallb (fun kv => number_free (snd kv)) kvs = true ->
    Forall (fun kv => (size (snd kv) <= f)%nat) kvs ->
    forall n : nat, (List.length kvs <= n)%nat ->
    parse_members (parse_value f) n
      (join [","%char]
         (map (fun kv => (QuoteJSONString (fst kv) ++ ":"%char
                          :: serialize_compact (snd kv))%list) kvs)
         ++ "}"%char :: rest)
    = Some (kvs, rest).
Proof.
  induction kvs as [|[k v] kvs IH]; intros Hne Hrb Hnf Hsz n Hn; [congruence|].
  inversion Hrb as [|? ? Hx Hxs]; subst.
  inversion Hsz as [|? ? Hsx Hsxs]; subst.
  cbn [forallb] in Hnf. apply andb_prop in Hnf as [Hnx Hnxs].
  cbn [snd] in Hx, Hsx, Hnx.
  destruct n as [|n]; [cbn in Hn; lia|]. cbn [List.length] in Hn.
  assert (Hstep : forall tail,
    parse_members (parse_value f) (S n)
      ((QuoteJSONString k ++ ":"%char :: serialize_compact v) ++ tail)
    = match skip_ws tail with
      | c :: r' =>
          if Ascii.eqb c ","
          then match parse_members (parse_value f) n r' with
               | Some (kvs', rest') => Some ((k, v) :: kvs', rest')
               | None => None
               end
          else if Ascii.eqb c "}" then Some ([(k, v)], r') else None
      | [] => None
      end).
  { intros tail. cbn [parse_members].
    rewrite <- app_assoc, QuoteJSONString_app.
    change (skip_ws (dquote :: ?r)) with (dquote :: r). cbv beta iota.
    change (Ascii.eqb dquote dquote) with true. cbv beta iota.
    rewrite parse_quoted. cbn [app].
    change (skip_ws (":"%char :: ?r)) with (":"%char :: r). cbv beta iota.
    change (Ascii.eqb ":" ":") with true. cbv beta iota.
    rewrite (Hx Hnx f _ Hsx).
    unfold chars. rewrite string_of_list_ascii_of_string. reflexivity. }
  destruct kvs as [|kv' kvs'].
  - cbn [map join fst snd]. rewrite Hstep. reflexivity.
  - set (member := fun kv : string * json =>
                     (QuoteJSONString (fst kv) ++ ":"%char
                      :: serialize_compact (snd kv))%list) in *.
    change (join [","%char] (map member ((k, v) :: kv' :: kvs')))
      with (member (k, v) ++ [","%char]
              ++ join [","%char] (map member (kv' :: kvs')))%list.
    unfold member at 1. cbn [fst snd].
    rewrite <- (app_assoc (QuoteJSONString k ++ ":"%char :: serialize_compact v)).
    rewrite Hstep.
    cbn [app]. change (skip_ws (","%char :: ?r)) with (","%char :: r).
    cbv beta iota. change (Ascii.eqb "," ",") with true. cbv beta iota.
    rewrite (IH ltac:(discriminate) Hxs Hnxs Hsxs n ltac:(lia)).
    reflexivity.
Qed.

Lemma serialize_compact_reads_back (v : json) : reads_back_compact v.
Proof.
  induction v as [| b | n | s | xs IH | kvs IH] using json_induction;
    intros Hnf fuel rest Hsz;
    (destruct fuel as [|f];
     [match type of Hsz with (size ?v <= _)%nat => pose proof (size_positive v) end;
      lia|]).
  - reflexivity.
  - destruct b; reflexivity.
  - discriminate.
  - cbn [serialize_compact]. rewrite QuoteJSONString_app.
    cbn [parse_value]. change (skip_ws (dquote :: ?r)) with (dquote :: r).
    cbv beta iota. change (Ascii.eqb dquote "n") with false.
    change (Ascii.eqb dquote "t") with false.
    change (Ascii.eqb dquote "f") with false.
    change (Ascii.eqb dquote dquote) with true. cbv beta iota.
    rewrite parse_quoted. unfold chars.
    now rewrite string_of_list_ascii_of_string.
  - destruct xs as [|x xs]; [reflexivity|].
    cbn [number_free] in Hnf. cbn [size] in Hsz.
    destruct (list_sum_bounds size (x :: xs) size_positive) as [Hall Hlen].
    assert (Hhead : exists c tl, serialize_compact x = c :: tl
                                 /\ opens_value c = true).
    { apply serialize_compact_head, number_free_not_number.
      cbn [forallb] in Hnf. now apply andb_prop in Hnf. }
    destruct Hhead as (c & tl & Hser & Hopen).
    destruct (join_head [","%char] (serialize_compact x)
                (map serialize_compact xs) ("]"%char :: rest) c tl Hser)
      as (tl' & Hjoin).
    change (serialize_compact (JArray (x :: xs)))
      with ("["%char :: join [","%char] (map serialize_compact (x :: xs))
              ++ ["]"%char])%list.
    cbn [app]. rewrite <- app_assoc. cbn [app].
    rewrite (parse_value_array f _ tl' c).
    + rewrite (parse_elements_compact f rest (x :: xs));
        try assumption; try discriminate; try lia.
      * reflexivity.
      * eapply Forall_impl; [|exact Hall]. cbv beta. intros. lia.
    + cbn [map] in Hjoin |- *. rewrite Hjoin. now apply opens_value_skip_ws.
    + now apply opens_value_not_closing.
  - destruct kvs as [|kv kvs]; [reflexivity|].
    cbn [number_free] in Hnf. cbn [size] in Hsz.
    destruct (list_sum_bounds (fun kv => size (snd kv)) (kv :: kvs)
                (fun kv => size_positive (snd kv))) as [Hall Hlen].
    set (member := fun kv : string * json =>
                     (QuoteJSONString (fst kv) ++ ":"%char
                      :: serialize_compact (snd kv))%list) in *.
    destruct (join_head [","%char] (member kv) (map member kvs)
                ("}"%char :: rest) dquote
                (flat_map quote_char (chars (fst kv)) ++ [dquote]
                   ++ ":"%char :: serialize_compact (snd kv))%list)
      as (tl' & Hjoin).
    { unfold member, QuoteJSONString. cbn [app]. now rewrite <- !app_assoc. }
    change (serialize_compact (JObject (kv :: kvs)))
      with ("{"%char :: join [","%char] (map member (kv :: kvs))
              ++ ["}"%char])%list.
    cbn [app]. rewrite <- app_assoc. cbn [app].
    rewrite (parse_value_object f _ tl' dquote).
    + unfold member.
      rewrite (parse_members_compact f rest (kv :: kvs));
        try assumption; try discriminate; try lia.
      * reflexivity.
      * eapply Forall_impl; [|exact Hall]. cbv beta. intros. lia.
    + cbn [map] in Hjoin |- *. rewrite Hjoin. reflexivity.
    + reflexivity.
Qed.

Lemma size_le_serialize_compact (v : json) :
  number_free v = true -> (size v <= List.length (serialize_compact v))%nat.
Proof.
  induction v as [| b | n | s | xs IH | kvs IH] using json_induction;
    intros Hnf.
  - cbn. lia.
  - destruct b; cbn; lia.
  - discriminate.
  - cbn [serialize_compact size]. unfold QuoteJSONString. cbn [List.length]. lia.
  - change (serialize_compact (JArray xs))
      with ("["%char :: join [","%char] (map serialize_compact xs)
              ++ ["]"%char])%list.
    cbn [size number_free] in *.
    cbn [List.length]. rewrite !length_app. cbn [List.length].
    pose proof (length_join [","%char] (map serialize_compact xs)) as Hj.
    rewrite map_map in Hj.
    assert (Hle : (list_sum (map size xs)
                   <= list_sum (map (fun y => List.length (serialize_compact y)) xs))%nat).
    { apply list_sum_le. rewrite forallb_forall in Hnf.
      rewrite Forall_forall in IH |- *. intros y Hy.
      apply IH; [exact Hy|]. now apply Hnf. }
    lia.
  - change (serialize_compact (JObject kvs))
      with ("{"%char
              :: join [","%char]
                   (map (fun kv => (QuoteJSONString (fst kv) ++ ":"%char
                                    :: serialize_compact (snd kv))%list) kvs)
              ++ ["}"%char])%list.
    cbn [size number_free] in *.
    cbn [List.length]. rewrite !length_app. cbn [List.length].
    pose proof (length_join [","%char]
                  (map (fun kv => (QuoteJSONString (fst kv) ++ ":"%char
                                   :: serialize_compact (snd kv))%list) kvs)) as Hj.
    rewrite map_map in Hj.
    assert (Hle : (list_sum (map (fun kv => size (snd kv)) kvs)
                   <= list_sum (map (fun kv => List.length
                          (QuoteJSONString (fst kv) ++ ":"%char
                           :: serialize_compact (snd kv))%list) kvs))%nat).
    { apply list_sum_le. rewrite forallb_forall in Hnf.
      rewrite Forall_forall in IH |- *. intros y Hy.
      rewrite !length_app. cbn [List.length].
      specialize (IH y Hy (Hnf y Hy)). lia. }
    lia.
Qed.

(** [JSON.parse(JSON.stringify(v))] is [v] for a value without
    numbers. *)
Lemma JSON_parse_stringify_compact (v : json) :
  number_free v = true -> JSON_parse (JSON_stringify_compact v) = Some v.
Proof.
  intros Hnf. unfold JSON_parse, JSON_stringify_compact, chars.
  rewrite list_ascii_of_string_of_list_ascii.
  rewrite <- (app_nil_r (serialize_compact v)) at 2.
  rewrite (serialize_compact_reads_back v Hnf); [reflexivity|].
  pose proof (size_le_serialize_compact v Hnf). lia.
Qed.

(** *** The state in localStorage *)

Lemma getItem_setItem_in (kvs : list (string * string)) (key value : string) :
  getItem_in (setItem_in kvs key value) key = Some value.
Proof.
  induction kvs as [|[k v] kvs IH]; cbn [setItem_in getItem_in].
  - now rewrite String.eqb_refl.
  - destruct (String.eqb k key) eqn:Hk; cbn [getItem_in]; rewrite Hk;
      [reflexivity|exact IH].
Qed.

(** The state that a render has stored is the state of the next start:
    where [setItem] has taken the text, [JSON.parse] gives back the
    value of the Document; where it has thrown (the use of the storage
    denied, or the quota exceeded), the next start finds what it would
    have found before. *)
Theorem stored_state_is_restored (storage : Storage) (state : Document) :
  let text := JSON_stringify_compact (Document_json state) in
  let taken :=
    negb (denied storage)
    && negb (over_quota storage
               (setItem_in (items storage) "lockLoggerData" text)) in
  App_initial_state (App_persist storage state)
  = if taken then Document_json state else App_initial_state storage.
Proof.
  intros text taken. unfold App_persist, persist, setItem. fold text.
  subst taken. destruct (denied storage) eqn:Hd; cbn [negb andb]; [reflexivity|].
  destruct (over_quota storage _); cbn [negb]; [reflexivity|].
  unfold App_initial_state, initial_state, getItem. cbn [denied items].
  rewrite getItem_setItem_in.
  replace (String.eqb text "") with false by reflexivity.
  unfold text. now rewrite JSON_parse_stringify_compact by apply Document_json_number_free.
Qed.

(** *** readableTextColor on a short colour *)

Lemma substring_short (n m : nat) (s : string) :
  (String.length s <= n)%nat -> substring n m s = "".
Proof.
  revert s. induction n as [|n IH]; intros s Hs.
  - destruct s; [|cbn in Hs; lia]. now destruct m.
  - destruct s as [|c s]; [reflexivity|]. cbn [substring]. apply IH.
    cbn in Hs. lia.
Qed.

(** A colour with fewer than five characters after its [#], a
    shorthand as [#fff] among them, has no blue component: the text on
    it is white, whatever the colour. *)
Theorem readableTextColor_short (hex : string) :
  (String.length (remove_first_hash hex) <= 4)%nat ->
  readableTextColor (Some hex) = "#ffffff".
Proof.
  intros Hlen. unfold readableTextColor, slice.
  rewrite (substring_short 4 (6 - 4) _ Hlen).
  change (parseInt16 "") with (@None Z).
  destruct (parseInt16 _), (parseInt16 _); reflexivity.
Qed.

(** *** importData: one Document or the other *)

(** A computation that shows no message *)
Definition shows_nothing {A} (c : M A) : Prop :=
  forall w, alerts (snd (c w)) = alerts w.

Lemma ret_shows_nothing {A} (a : A) : shows_nothing (ret a).
Proof. intros w. reflexivity. Qed.

Lemma throw_shows_nothing {A} (e : JsError) : shows_nothing (@throw A e).
Proof. intros w. reflexivity. Qed.

Lemma uid_shows_nothing : shows_nothing uid.
Proof. intros w. reflexivity. Qed.

Lemma Date_now_shows_nothing : shows_nothing Date_now.
Proof. intros w. reflexivity. Qed.

Lemma lift_shows_nothing {A} (c : Completion A) : shows_nothing (lift c).
Proof. intros w. reflexivity. Qed.

Lemma bind_shows_nothing {A B} (c : M A) (k : A -> M B) :
  shows_nothing c -> (forall a, shows_nothing (k a)) -> shows_nothing (bind c k).
Proof.
  intros Hc Hk w. unfold bind. specialize (Hc w).
  destruct (c w) as [[a|e] w1]; cbn [snd] in *; [|exact Hc].
  now rewrite (Hk a w1).
Qed.

Lemma Get_shows_nothing (v : json) (key : string) : shows_nothing (Get v key).
Proof. intros w. now destruct v. Qed.

Lemma String_or_shows_nothing (v : option json) (d : M string) :
  shows_nothing d -> shows_nothing (String_or v d).
Proof.
  intros Hd. unfold String_or.
  destruct v as [j|]; [destruct (ToBoolean j)|]; auto using lift_shows_nothing.
Qed.

Lemma toISOString_shows_nothing (d : option Z) : shows_nothing (toISOString d).
Proof. intros w. now destruct d. Qed.

Lemma mapM_shows_nothing {A B} (f : A -> M B) (xs : list A) :
  (forall x, shows_nothing (f x)) -> shows_nothing (mapM f xs).
Proof.
  intros Hf. induction xs as [|x xs IH]; cbn [mapM].
  - apply ret_shows_nothing.
  - apply bind_shows_nothing; [apply Hf|]. intros y.
    apply bind_shows_nothing; [exact IH|]. intros ys. apply ret_shows_nothing.
Qed.

Lemma import_lockable_shows_nothing (l : json) : shows_nothing (import_lockable l).
Proof.
  unfold import_lockable.
  repeat (apply bind_shows_nothing;
          [first [apply Get_shows_nothing
                 |apply String_or_shows_nothing;
                  first [apply uid_shows_nothing|apply ret_shows_nothing]]
          |intros ?]).
  apply ret_shows_nothing.
Qed.

Lemma import_entry_shows_nothing (data_lockables : list json) (e : json) :
  shows_nothing (import_entry data_lockables e).
Proof.
  unfold import_entry.
  apply bind_shows_nothing; [apply Get_shows_nothing|intros id_].
  apply bind_shows_nothing;
    [apply String_or_shows_nothing, uid_shows_nothing|intros i].
  apply bind_shows_nothing; [apply Get_shows_nothing|intros lockableId_].
  apply bind_shows_nothing;
    [apply String_or_shows_nothing, String_or_shows_nothing, ret_shows_nothing
    |intros li].
  apply bind_shows_nothing; [apply Get_shows_nothing|intros tsISO_].
  apply bind_shows_nothing.
  { destruct tsISO_ as [v|]; [destruct (ToBoolean v)|];
      try apply lift_shows_nothing;
      (apply bind_shows_nothing; [apply Date_now_shows_nothing|intros now;
                                  apply ret_shows_nothing]). }
  intros date.
  apply bind_shows_nothing; [apply toISOString_shows_nothing|intros ts].
  apply bind_shows_nothing; [apply Get_shows_nothing|intros note_].
  apply bind_shows_nothing.
  { destruct note_ as [v|]; [destruct (ToBoolean v)|];
      try apply ret_shows_nothing.
    apply bind_shows_nothing; [apply lift_shows_nothing|intros n;
                               apply ret_shows_nothing]. }
  intros note. apply ret_shows_nothing.
Qed.

Lemma import_prefs_shows_nothing (data_prefs : option json) :
  shows_nothing (import_prefs data_prefs).
Proof.
  unfold import_prefs. apply bind_shows_nothing.
  - destruct (Get_opt data_prefs "quickNoteSuggestions") as [[| | | | xs |]|];
      try apply ret_shows_nothing.
    apply mapM_shows_nothing. intros x. apply lift_shows_nothing.
  - intros suggestions. apply ret_shows_nothing.
Qed.

Lemma import_document_shows_nothing (data : json) :
  shows_nothing (import_document data).
Proof.
  unfold import_document.
  apply bind_shows_nothing; [apply Get_shows_nothing|intros dl].
  destruct (negb (isArray dl)); [apply throw_shows_nothing|].
  apply bind_shows_nothing; [apply Get_shows_nothing|intros de].
  destruct (negb (isArray de)); [apply throw_shows_nothing|].
  apply bind_shows_nothing;
    [apply mapM_shows_nothing, import_lockable_shows_nothing|intros ls].
  apply bind_shows_nothing;
    [apply mapM_shows_nothing, import_entry_shows_nothing|intros es].
  apply bind_shows_nothing; [apply Get_shows_nothing|intros dp].
  apply bind_shows_nothing; [apply import_prefs_shows_nothing|intros p].
  apply ret_shows_nothing.
Qed.

(** importData never throws and never sets a part of a file: either it
    shows nothing and sets the Document built from the file, the same
    whatever the Document before, or it leaves the Document as it was
    and shows one message, which starts with [No se pudo importar: ]. *)
Theorem importData_all_or_nothing (text : string) (state : Document) (w : World) :
  exists state' w',
    importData (Some text) state w = (Normal state', w')
    /\ ((alerts w' = alerts w
         /\ forall before : Document,
              importData (Some text) before w = (Normal state', w'))
        \/ (state' = state
            /\ exists reason,
                 alerts w' = ("No se pudo importar: " ++ reason) :: alerts w)).
Proof.
  destruct (JSON_parse text) as [data|] eqn:Hparse.
  - pose proof (import_document_shows_nothing data w) as Hsilent.
    destruct (import_document data w) as [[imported|err] w1] eqn:Himp;
      cbn [snd] in Hsilent.
    + exists imported, w1. split.
      * now rewrite (importData_eq _ _ state w Hparse), Himp.
      * left. split; [exact Hsilent|]. intros before.
        now rewrite (importData_eq _ _ before w Hparse), Himp.
    + exists state, (alerted ("No se pudo importar: " ++ message_of err) w1).
      split.
      * now rewrite (importData_eq _ _ state w Hparse), Himp.
      * right. split; [reflexivity|]. exists (message_of err).
        cbn [alerted alerts]. now rewrite Hsilent.
  - exists state, (alerted ("No se pudo importar: "
                            ++ message_of (SyntaxError text)) w).
    split.
    + unfold importData, try_catch, bind, throw. rewrite Hparse. reflexivity.
    + right. split; [reflexivity|]. exists (message_of (SyntaxError text)).
      reflexivity.
Qed.

(** The theme that a successful import sets is [system], [light] or
    [dark], whatever the file holds as its theme. *)
Theorem importData_theme_valid
  (text : string) (data : json) (state imported : Document) (w w' : World) :
  JSON_parse text = Some data ->
  import_document data w = (Normal imported, w') ->
  importData (Some text) state w = (Normal imported, w')
  /\ valid_theme (theme (prefs imported)) = true.
Proof.
  intros Hparse Himp. rewrite (importData_eq _ _ state w Hparse), Himp.
  split; [reflexivity|].
  unfold import_document, bind in Himp.
  destruct (Get data "lockables" w) as [[dl|e] w2]; [|discriminate].
  destruct (negb (isArray dl)); [discriminate|].
  destruct (Get data "entries" w2) as [[de|e] w3]; [|discriminate].
  destruct (negb (isArray de)); [discriminate|].
  destruct (mapM import_lockable (elements_of dl) w3) as [[ls|e] w4];
    [|discriminate].
  destruct (mapM (import_entry (elements_of dl)) (elements_of de) w4)
    as [[es|e] w5]; [|discriminate].
  destruct (Get data "prefs" w5) as [[dp|e] w6]; [|discriminate].
  unfold import_prefs, bind in Himp.
  match type of Himp with
  | context [match ?c w6 with _ => _ end] =>
      destruct (c w6) as [[suggestions|e] w7]; [|discriminate]
  end.
  assert (Hth : forall th,
            th = match Get_opt dp "theme" with
                 | Some (JString s) =>
                     if existsb (String.eqb s) ["system"; "light"; "dark"]
                     then s else "system"
                 | _ => "system"
                 end ->
            valid_theme th = true).
  { intros th ->. destruct (Get_opt dp "theme") as [[| | | s | |]|];
      try reflexivity.
    destruct (existsb (String.eqb s) ["system"; "light"; "dark"]) eqn:Hs;
      [exact Hs|reflexivity]. }
  unfold ret in Himp. inversion Himp; subst. cbn [prefs theme].
  now apply Hth.
Qed.

Lemma mapM_nth_error {A B} (f : A -> M B) (xs : list A) :
  forall (w w' : World) (ys : list B) (k : nat) (x : A),
    mapM f xs w = (Normal ys, w') ->
    nth_error xs k = Some x ->
    exists y w1 w2, f x w1 = (Normal y, w2) /\ nth_error ys k = Some y.
Proof.
  induction xs as [|x0 xs IH]; intros w w' ys k x H Hk.
  - destruct k; discriminate.
  - cbn [mapM] in H. unfold bind in H.
    destruct (f x0 w) as [[y0|e] w1] eqn:H0; [|discriminate].
    destruct (mapM f xs w1) as [[ys'|e] w2] eqn:Hrest; [|discriminate].
    inversion H; subst. destruct k as [|k]; cbn [nth_error] in *.
    + inversion Hk; subst. eauto.
    + exact (IH _ _ _ _ _ Hrest Hk).
Qed.

Lemma String_or_falsy (v : option json) (d : M string) :
  truthy v = false -> String_or v d = d.
Proof.
  unfold truthy, String_or. destruct v as [j|]; [|reflexivity].
  now intros ->.
Qed.

Lemma import_entry_without_lockableId
  (data_lockables : list json) (e : json) (w w' : World) (entry : Entry.t) :
  truthy (prop e "lockableId") = false ->
  truthy (first_lockable_id data_lockables) = false ->
  import_entry data_lockables e w = (Normal entry, w') ->
  Entry.lockableId entry = "casa".
Proof.
  intros Hli Hfirst. unfold import_entry, bind.
  destruct (Get e "id" w) as [[id_|err] w1] eqn:Hid; [|discriminate].
  destruct (String_or id_ uid w1) as [[i|err] w2]; [|discriminate].
  destruct (Get e "lockableId" w2) as [[lid|err] w3] eqn:Hlid; [|discriminate].
  assert (lid = prop e "lockableId") as ->.
  { destruct e; cbn in Hlid; inversion Hlid; reflexivity. }
  rewrite (String_or_falsy _ _ Hli), (String_or_falsy _ _ Hfirst).
  cbn [ret].
  destruct (Get e "tsISO" w3) as [[ts_|err] w4]; [|discriminate].
  match goal with
  | |- context [match ?c w4 with _ => _ end] =>
      destruct (c w4) as [[date|err] w5]; [|discriminate]
  end.
  destruct (toISOString date w5) as [[ts|err] w6]; [|discriminate].
  destruct (Get e "note" w6) as [[note_|err] w7]; [|discriminate].
  match goal with
  | |- context [match ?c w7 with _ => _ end] =>
      destruct (c w7) as [[note|err] w8]; [|discriminate]
  end.
  unfold ret. intros H. inversion H; subst. reflexivity.
Qed.

Lemma import_lockable_without_id (l : json) (w w' : World) (l' : Lockable.t) :
  truthy (prop l "id") = false ->
  import_lockable l w = (Normal l', w') ->
  Lockable.id l' = random_ids w (n_random w).
Proof.
  intros Hid. unfold import_lockable, bind.
  destruct (Get l "id" w) as [[id_|err] w1] eqn:Hget; [|discriminate].
  assert (id_ = prop l "id" /\ w1 = w) as [-> ->].
  { destruct l; cbn in Hget; inversion Hget; split; reflexivity. }
  rewrite (String_or_falsy _ _ Hid). cbn [uid].
  destruct (Get l "name" _) as [[name_|err] w2]; [|discriminate].
  destruct (String_or name_ _ w2) as [[n|err] w3]; [|discriminate].
  destruct (Get l "icon" w3) as [[icon_|err] w4]; [|discriminate].
  destruct (String_or icon_ _ w4) as [[ic|err] w5]; [|discriminate].
  destruct (Get l "color" w5) as [[color_|err] w6]; [|discriminate].
  destruct (String_or color_ _ w6) as [[c|err] w7]; [|discriminate].
  intros H. inversion H; subst. reflexivity.
Qed.

(** The [lockableId] put in for an entry that has none is the [id] the
    file gives its first lockable, not the identifier of the first
    lockable that is imported: where the first lockable of the file has
    no [id], it is imported with an identifier drawn for it, and the
    entry is given [casa]. *)
Theorem importData_fallback_lockableId
  (text : string) (data l e : json) (ls es : list json) (k : nat)
  (state imported : Document) (w w' : World) :
  JSON_parse text = Some data ->
  prop data "lockables" = Some (JArray (l :: ls)) ->
  prop data "entries" = Some (JArray es) ->
  truthy (prop l "id") = false ->
  nth_error es k = Some e ->
  truthy (prop e "lockableId") = false ->
  import_document data w = (Normal imported, w') ->
  importData (Some text) state w = (Normal imported, w')
  /\ (exists l' ls', lockables imported = l' :: ls'
                     /\ Lockable.id l' = random_ids w (n_random w))
  /\ (exists entry, nth_error (entries imported) k = Some entry
                    /\ Entry.lockableId entry = "casa").
Proof.
  intros Hparse Hl He Hid Hk Hli Himp.
  rewrite (importData_eq _ _ state w Hparse), Himp. split; [reflexivity|].
  assert (Hdnn : data <> JNull) by (intros ->; discriminate).
  unfold import_document in Himp.
  rewrite (bind_normal _ _ _ _ _ (Get_not_null data "lockables" w Hdnn)), Hl in Himp.
  cbn [isArray negb] in Himp.
  rewrite (bind_normal _ _ _ _ _ (Get_not_null data "entries" w Hdnn)), He in Himp.
  cbn [isArray negb elements_of] in Himp.
  unfold bind in Himp.
  destruct (mapM import_lockable (l :: ls) w) as [[ls0|err] w1] eqn:Hls;
    [|discriminate].
  destruct (mapM (import_entry (l :: ls)) es w1) as [[es0|err] w2] eqn:Hes;
    [|discriminate].
  destruct (Get data "prefs" w2) as [[dp|err] w3]; [|discriminate].
  destruct (import_prefs dp w3) as [[p|err] w4]; [|discriminate].
  inversion Himp; subst. cbn [lockables entries]. split.
  - cbn [mapM] in Hls. unfold bind in Hls.
    destruct (import_lockable l w) as [[l'|err] w4] eqn:Hl'; [|discriminate].
    destruct (mapM import_lockable ls w4) as [[ls'|err] w5]; [|discriminate].
    inversion Hls; subst. exists l', ls'. split; [reflexivity|].
    exact (import_lockable_without_id l w w4 l' Hid Hl').
  - destruct (mapM_nth_error _ _ _ _ _ k e Hes Hk) as (entry & wa & wb & Hentry & Hnth).
    exists entry. split; [exact Hnth|].
    apply (import_entry_without_lockableId (l :: ls) e wa wb entry Hli); [|exact Hentry].
    unfold first_lockable_id. cbn [nth_error Get_opt].
    destruct l; try exact Hid; reflexivity.
Qed.

(** *** What the streak says of the days *)

Lemma streak_loop_Some (days : list (option Z)) (fuel : nat) :
  forall (date : option Z) (count r : nat),
    streak_loop fuel days date count = Some r ->
    (count <= r)%nat
    /\ (forall k, (k < r - count)%nat ->
                  has days (Nat.iter k previous_day date) = true)
    /\ has days (Nat.iter (r - count) previous_day date) = false.
Proof.
  induction fuel as [|fuel IH]; intros date count r Hloop; [discriminate|].
  cbn [streak_loop] in Hloop. destruct (has days date) eqn:Hhas.
  - destruct (IH _ _ _ Hloop) as (Hle & Hin & Hout).
    split; [lia|]. replace (r - count)%nat with (S (r - S count)) by lia.
    split.
    + intros k Hk. destruct k as [|k]; [exact Hhas|].
      rewrite Nat.iter_succ_r. apply Hin. lia.
    + rewrite Nat.iter_succ_r. exact Hout.
  - injection Hloop as <-. split; [lia|]. rewrite Nat.sub_diag. split.
    + intros k Hk. lia.
    + exact Hhas.
Qed.

(** A streak of [n]: each of the [n] days from today back has an entry,
    and the day before them has none. *)
Lemma streak_Some (state : Document) (now : Z) (n : nat) :
  streak state now = Some n ->
  (forall k, (k < n)%nat -> has_entry state (day_back now k))
  /\ ~ has_entry state (day_back now n).
Proof.
  unfold streak. destruct (entries state) as [|e es] eqn:He.
  - cbn [List.length Nat.eqb]. intros H. injection H as <-. split.
    + intros k Hk. lia.
    + intros (e & Hin & _). rewrite He in Hin. destruct Hin.
  - rewrite <- He. replace (List.length (entries state) =? 0)%nat with false
      by (rewrite He; reflexivity).
    intros Hloop. apply streak_loop_Some in Hloop as (_ & Hin & Hout).
    rewrite Nat.sub_0_r in *. split.
    + intros k Hk. apply has_entry_has. exact (Hin k Hk).
    + intros H. apply has_entry_has in H. unfold day_back in H. congruence.
Qed.

Lemma streak_Some_days (state : Document) (now : Z) (n m : nat) :
  midnights_exist ->
  (forall j, (j <= m)%nat -> day_start (local_day now - Z.of_nat j) <> None) ->
  streak state now = Some n ->
  (forall k, (k < n)%nat -> (k <= m)%nat ->
             entry_on state (local_day now - Z.of_nat k))
  /\ ((n <= m)%nat -> ~ entry_on state (local_day now - Z.of_nat n)).
Proof.
  intros Hm Hrange Hs. destruct (streak_Some state now n Hs) as [Hin Hout].
  assert (Hback : forall k, (k <= m)%nat ->
            day_back now k = day_start (local_day now - Z.of_nat k)).
  { intros k Hk. apply day_back_day_start; [exact Hm|].
    intros j Hj. apply Hrange. lia. }
  split.
  - intros k Hk Hkm. specialize (Hin k Hk). rewrite (Hback k Hkm) in Hin.
    apply has_entry_entry_on in Hin; [exact Hin|exact Hm|now apply Hrange].
  - intros Hnm H. apply Hout. rewrite (Hback n Hnm).
    apply has_entry_entry_on; [exact Hm|now apply Hrange|exact H].
Qed.

(** undoLast never lengthens the streak: the streak after it is
    computed and is at most the streak before. *)
Theorem streak_after_undoLast (state : Document) (w : World) (now : Z) :
  midnights_exist ->
  (forall k, (k <= List.length (entries state))%nat ->
             day_start (local_day now - Z.of_nat k) <> None) ->
  exists state' n n',
    undoLast state w = (Normal state', w)
    /\ streak state now = Some n
    /\ streak state' now = Some n'
    /\ (n' <= n)%nat.
Proof.
  intros Hm Hrange. rewrite undoLast_eq.
  set (state' := {| lockables := lockables state;
                    entries := skipn 1 (entries state);
                    prefs := prefs state |}).
  assert (Hlen : (List.length (entries state') <= List.length (entries state))%nat).
  { unfold state'. cbn [entries]. rewrite length_skipn. lia. }
  destruct (streak_terminates state now Hm Hrange) as (n & _ & Hn).
  destruct (streak_terminates state' now Hm) as (n' & _ & Hn').
  { intros k Hk. apply Hrange. lia. }
  exists state', n, n'. split; [reflexivity|]. split; [exact Hn|].
  split; [exact Hn'|].
  destruct (streak_Some state now n Hn) as [_ Hout].
  destruct (streak_Some state' now n' Hn') as [Hin' _].
  destruct (Nat.le_gt_cases n' n) as [Hle|Hgt]; [exact Hle|].
  exfalso. apply Hout. destruct (Hin' n Hgt) as (e & He & Hd).
  exists e. split; [|exact Hd]. unfold state' in He. cbn [entries] in He.
  destruct (entries state) as [|e0 es]; [destruct He|].
  cbn [skipn] in He. now right.
Qed.

(** *** recordEntry and what follows it *)

(** The entry that recordEntry makes falls on the local day of the
    clock. *)
Lemma entry_made_day (confirm : bool) (l : Lockable.t) (w : World) :
  Z.abs (clock w (n_clock w)) <= 8640000000000000 ->
  entry_day (entry_made confirm l w) = Some (local_day (clock w (n_clock w))).
Proof.
  intros Hnow. unfold entry_day, entry_made. cbn [Entry.tsISO].
  now rewrite Date_parse_ISOString.
Qed.

(** After recordEntry the streak is at least 1, at every time of the
    local day of the record: the new entry is read back as an entry of
    today. *)
Theorem streak_after_recordEntry
  (l : Lockable.t) (state : Document) (w : World) (later : Z) :
  midnights_exist ->
  Z.abs (clock w (n_clock w)) <= 8640000000000000 ->
  local_day later = local_day (clock w (n_clock w)) ->
  (forall k, (k <= 200)%nat -> day_start (local_day later - Z.of_nat k) <> None) ->
  exists state' w' n,
    recordEntry l state w = (Normal state', w')
    /\ streak state' later = Some n
    /\ (1 <= n)%nat.
Proof.
  intros Hm Hnow Hday Hrange. rewrite recordEntry_eq.
  set (entry := entry_made (confirmNote (prefs state)) l w).
  set (state' := {| lockables := lockables state;
                    entries := firstn 200 (entry :: entries state);
                    prefs := prefs state |}).
  assert (Hlen : (List.length (entries state') <= 200)%nat).
  { unfold state'. cbn [entries]. rewrite length_firstn. lia. }
  destruct (streak_terminates state' later Hm) as (n & _ & Hn).
  { intros k Hk. apply Hrange. lia. }
  eexists state', _, n. split; [reflexivity|]. split; [exact Hn|].
  destruct n as [|n]; [|lia]. exfalso.
  destruct (streak_Some_days state' later 0 0 Hm) as [_ Hout]; [|exact Hn|].
  { intros j Hj. apply Hrange. lia. }
  apply (Hout (Nat.le_refl 0)). exists entry. split.
  - unfold state'. cbn [entries firstn]. now left.
  - unfold entry. rewrite entry_made_day by exact Hnow.
    f_equal. cbn [Z.of_nat]. lia.
Qed.

Lemma forallb_firstn {A} (p : A -> bool) (n : nat) (xs : list A) :
  forallb p xs = true -> forallb p (firstn n xs) = true.
Proof.
  revert n. induction xs as [|x xs IH]; intros n H; destruct n; try reflexivity.
  cbn [firstn forallb] in *. apply andb_prop in H as [Hx Hxs].
  now rewrite Hx, IH.
Qed.

Lemma note_or_undefined_nonempty (note : option string) :
  match note_or_undefined note with
  | Some n => nonempty n
  | None => true
  end = true.
Proof.
  destruct note as [s|]; [|reflexivity]. cbn [note_or_undefined].
  destruct (String.eqb s "") eqn:Hs; [reflexivity|].
  unfold nonempty. now rewrite Hs.
Qed.

(** What recordEntry writes comes back from an export and an import as
    it is. The timestamp of the new entry is in the form that the
    import writes, so a Document that the round trip reproduces is
    still one after recordEntry, given identifiers that are not empty. *)
Theorem recordEntry_keeps_roundtrip (l : Lockable.t) (state : Document) (w : World) :
  Document_wf canonical_timestamp state = true ->
  nonempty (Lockable.id l) = true ->
  nonempty (random_ids w (n_random w)) = true ->
  Z.abs (clock w (n_clock w)) <= 8640000000000000 ->
  exists state' w',
    recordEntry l state w = (Normal state', w')
    /\ Document_wf canonical_timestamp state' = true
    /\ forall (before : Document) (w0 : World),
         importData (Some (snd (exportData state'))) before w0
         = (Normal state', w0).
Proof.
  intros Hwf Hl Hid Hnow. rewrite recordEntry_eq.
  eexists _, _. split; [reflexivity|].
  match goal with
  | |- Document_wf _ ?s = true /\ _ =>
      assert (Hwf' : Document_wf canonical_timestamp s = true)
  end.
  { unfold Document_wf in *. cbn [lockables entries prefs].
    apply andb_prop in Hwf as [Hwf Ht]. apply andb_prop in Hwf as [Hls Hes].
    rewrite Hls, Ht, andb_true_r. cbn [andb].
    apply forallb_firstn. cbn [forallb]. rewrite Hes, andb_true_r.
    unfold Entry_wf, entry_made.
    cbn [Entry.id Entry.lockableId Entry.tsISO Entry.note].
    rewrite Hid, Hl. cbn [andb].
    unfold canonical_timestamp. rewrite Date_parse_ISOString by exact Hnow.
    rewrite String.eqb_refl. cbn [andb].
    destruct (confirmNote (prefs state)); [|reflexivity].
    apply note_or_undefined_nonempty. }
  split; [exact Hwf'|]. intros before w0.
  destruct (canonical_document _ Hwf') as [Hv Hn].
  rewrite (export_import_normalizes _ before w0 Hv). now rewrite Hn.
Qed.

(** *** shareLast *)

(** Where a way to share is there and every call made is rejected,
    shareLast shows nothing: the rejection of [writeText] is caught and
    dropped, and without [navigator.clipboard] the callback of the
    rejected [share] throws. *)
Theorem shareLast_failure_is_silent
  (navigator : Navigator) (state : Document) (w : World) :
  entries state <> [] ->
  share navigator <> None \/ clipboard navigator <> None ->
  (forall share_ title text,
      share navigator = Some share_ -> share_ title text = false) ->
  (forall writeText text,
      clipboard navigator = Some writeText -> writeText text = false) ->
  snd (shareLast navigator state w) = w.
Proof.
  intros Hne Hway Hshare Hwrite. unfold shareLast.
  destruct (entries state) as [|last rest]; [congruence|].
  unfold copy_to_clipboard, bind.
  destruct (share navigator) as [share_|] eqn:Hs.
  - rewrite (Hshare share_ _ _ eq_refl).
    destruct (clipboard navigator) as [writeText|] eqn:Hc; [|reflexivity].
    now rewrite (Hwrite writeText _ eq_refl).
  - destruct (clipboard navigator) as [writeText|] eqn:Hc.
    + now rewrite (Hwrite writeText _ eq_refl).
    + destruct Hway; congruence.
Qed.

Lemma find_lockable_unchanged (state state' : Document) (id : string) :
  lockables state' = lockables state ->
  find_lockable state' id = find_lockable state id.
Proof. unfold find_lockable. now intros ->. Qed.

(** shareLast after recordEntry tells the record just made: the text
    names the lockable of the button, that lockable being the first of
    its [id], and the time of the clock; it is shared where
    [navigator.share] is there, copied where only the clipboard is,
    and shown where neither is. *)
Theorem shareLast_after_recordEntry
  (navigator : Navigator) (l : Lockable.t) (state : Document) (w : World) :
  find_lockable state (Lockable.id l) = Some l ->
  Z.abs (clock w (n_clock w)) <= 8640000000000000 ->
  let msg := "Último registro: " ++ Lockable.name l ++ " a las "
             ++ toLocaleString (Some (clock w (n_clock w))) in
  exists state' w',
    recordEntry l state w = (Normal state', w')
    /\ shareLast navigator state' w'
       = match share navigator, clipboard navigator with
         | Some share_, Some writeText =>
             if share_ "¿Cerré con llave?" msg
             then (Normal [navigator_share "¿Cerré con llave?" msg], w')
             else if writeText msg
             then (Normal [navigator_share "¿Cerré con llave?" msg;
                           clipboard_writeText msg],
                   alerted "Copiado al portapapeles" w')
             else (Normal [navigator_share "¿Cerré con llave?" msg;
                           clipboard_writeText msg], w')
         | Some share_, None =>
             if share_ "¿Cerré con llave?" msg
             then (Normal [navigator_share "¿Cerré con llave?" msg], w')
             else (Throw (TypeError "writeText"), w')
         | None, Some writeText =>
             if writeText msg
             then (Normal [clipboard_writeText msg],
                   alerted "Copiado al portapapeles" w')
             else (Normal [clipboard_writeText msg], w')
         | None, None => (Normal [], alerted msg w')
         end.
Proof.
  intros Hfind Hnow msg. rewrite recordEntry_eq.
  eexists _, _. split; [reflexivity|].
  unfold shareLast. cbn [entries firstn].
  match goal with
  | |- context [share_message ?s ?e] =>
      assert (Hmsg : share_message s e = msg)
  end.
  { unfold share_message, formatDateTime, entry_made.
    cbn [Entry.lockableId Entry.tsISO].
    rewrite (find_lockable_unchanged state) by reflexivity.
    rewrite Hfind, Date_parse_ISOString by exact Hnow. reflexivity. }
  rewrite Hmsg. unfold copy_to_clipboard, bind, alert, ret, throw, alerted.
  destruct (share navigator) as [share_|], (clipboard navigator) as [writeText|];
    repeat match goal with
           | |- context [if ?b then _ else _] => destruct b
           end; reflexivity.
Qed.

(** *** The bars of the last seven days *)

(** The number of the entries that fall on the local calendar day [D] *)
Definition on_day (D : Z) (e : Entry.t) : bool :=
  match entry_day e with
  | Some D' => D' =? D
  | None => false
  end.

Definition entries_on (state : Document) (D : Z) : nat :=
  List.length (filter (on_day D) (entries state)).

Lemma same_time_refl (a : option Z) : same_time a a = true.
Proof. now apply same_time_eq. Qed.

Lemma same_time_trans (a b c : option Z) :
  same_time a b = true -> same_time b c = same_time a c.
Proof. intros H. apply same_time_eq in H. now subst. Qed.

Lemma bucket_set_bucket (buckets : Buckets) (key key' : option Z) (n : nat) :
  bucket (set_bucket buckets key n) key'
  = if same_time key key' then Some n else bucket buckets key'.
Proof.
  induction buckets as [|[k m] rest IH]; cbn [set_bucket bucket]; [reflexivity|].
  destruct (same_time k key) eqn:Hk; cbn [bucket].
  - rewrite <- (same_time_trans k key key' Hk).
    now destruct (same_time key key').
  - destruct (same_time k key') eqn:Hk'; [|exact IH].
    destruct (same_time key key') eqn:Hkk; [|reflexivity].
    apply same_time_eq in Hk', Hkk. subst. rewrite same_time_refl in Hk.
    discriminate.
Qed.

(** The count under a key, after the rounds of [forEach]: the count
    before, and one more for each entry of that key *)
Lemma bucket_count_entries (es : list Entry.t) (key : option Z) :
  forall buckets : Buckets,
    or_zero (bucket (fold_left count_entry es buckets) key)
    = (or_zero (bucket buckets key)
       + List.length (filter (fun e => same_time (day_key e) key) es))%nat.
Proof.
  induction es as [|e es IH]; intros buckets; cbn [fold_left filter].
  - cbn [List.length]. lia.
  - rewrite IH. unfold count_entry. rewrite bucket_set_bucket.
    destruct (same_time (day_key e) key) eqn:He; cbn [List.length or_zero].
    + apply same_time_eq in He. rewrite He. lia.
    + lia.
Qed.

Lemma same_time_day_key (e : Entry.t) (D : Z) :
  midnights_exist ->
  day_start D <> None ->
  same_time (day_key e) (day_start D) = on_day D e.
Proof.
  intros Hm Hrange. unfold on_day. rewrite day_key_entry_day.
  destruct (entry_day e) as [D'|].
  - destruct (Z.eqb_spec D' D) as [->|Hne]; [apply same_time_refl|].
    destruct (same_time (day_start D') (day_start D)) eqn:Hs; [|reflexivity].
    apply same_time_eq in Hs. destruct (day_start D) as [x|] eqn:Hx; [|congruence].
    exfalso. apply Hne. exact (day_start_injective D' D x Hm Hs Hx).
  - destruct (day_start D); [reflexivity|congruence].
Qed.

Lemma MakeDay_back (t i : Z) :
  MakeDay (YearFromTime t) (MonthFromTime t) (DateFromTime t - i) = Day t - i.
Proof.
  unfold MakeDay, YearFromTime, MonthFromTime, DateFromTime.
  destruct (civil_from_days_inverse (Day t)) as [Hm Hinv].
  set (m := snd (fst (civil_from_days (Day t)))) in *.
  replace ((m - 1) / 12) with 0 by (Z.div_mod_to_equations; lia).
  replace ((m - 1) mod 12 + 1) with m by (Z.div_mod_to_equations; lia).
  rewrite Z.add_0_r. lia.
Qed.

(** [d.setDate(today.getDate() - i)] on a copy of today's midnight is
    the midnight [i] days before. *)
Lemma setDate_back (now i : Z) :
  midnights_exist ->
  day_start (local_day now) <> None ->
  setDate (setHours0 (Some now))
    (option_map (fun dt => dt - i) (getDate (setHours0 (Some now))))
  = day_start (local_day now - i).
Proof.
  intros Hm Hrange. rewrite setHours0_day_start.
  destruct (day_start (local_day now)) as [x|] eqn:Hx; [|congruence].
  apply TimeClip_Some in Hx. subst x.
  unfold getDate, setDate, day_start. cbn [option_map].
  rewrite (Hm (local_day now)), MakeDay_back, Day_MakeDate, TimeWithinDay_MakeDate.
  reflexivity.
Qed.

Lemma last7_days (state : Document) (now : Z) :
  midnights_exist ->
  (forall i, 0 <= i <= 6 -> day_start (local_day now - i) <> None) ->
  last7 state now
  = map (fun i => {| Bar.label := toLocaleDateString (day_start (local_day now - i));
                     Bar.count := entries_on state (local_day now - i) |})
        [6; 5; 4; 3; 2; 1; 0].
Proof.
  intros Hm Hrange. unfold last7. apply map_ext_in. intros i Hi.
  assert (Hi' : 0 <= i <= 6) by (cbn [In] in Hi; lia).
  rewrite setDate_back.
  - f_equal. rewrite bucket_count_entries. cbn [bucket or_zero Nat.add].
    unfold entries_on. f_equal. apply filter_ext. intros e.
    apply same_time_day_key; [exact Hm|now apply Hrange].
  - exact Hm.
  - specialize (Hrange 0 ltac:(lia)). now rewrite Z.sub_0_r in Hrange.
Qed.

(** Each bar of [last7] counts the entries of its local calendar day,
    from the day six days ago to today, and is labelled with the
    midnight that starts that day. *)
Theorem last7_counts_days (state : Document) (now : Z) :
  midnights_exist ->
  (forall i, 0 <= i <= 6 -> day_start (local_day now - i) <> None) ->
  last7 state now
  = map (fun i => {| Bar.label := toLocaleDateString (day_start (local_day now - i));
                     Bar.count := entries_on state (local_day now - i) |})
        [6; 5; 4; 3; 2; 1; 0].
Proof. apply last7_days. Qed.

Lemma entries_on_positive (state : Document) (D : Z) :
  (0 < entries_on state D)%nat <-> entry_on state D.
Proof.
  unfold entries_on, entry_on. split.
  - intros H. destruct (filter (on_day D) (entries state)) as [|e es] eqn:Hf;
      [cbn in H; lia|].
    assert (Hin : In e (filter (on_day D) (entries state)))
      by (rewrite Hf; now left).
    apply filter_In in Hin as [Hin Hon]. exists e. split; [exact Hin|].
    unfold on_day in Hon. destruct (entry_day e) as [D'|]; [|discriminate].
    apply Z.eqb_eq in Hon. now subst.
  - intros (e & Hin & Hd).
    assert (Hf : In e (filter (on_day D) (entries state))).
    { apply filter_In. split; [exact Hin|]. unfold on_day. rewrite Hd.
      apply Z.eqb_refl. }
    destruct (filter (on_day D) (entries state)); [destruct Hf|cbn; lia].
Qed.

(** The streak and the bars agree: counted from the bar of today back,
    the first [n] bars of a streak of [n] are not empty, and the bar
    after them, where the chart has it, is. *)
Theorem streak_agrees_with_last7 (state : Document) (now : Z) (n : nat) :
  midnights_exist ->
  (forall i, 0 <= i <= 6 -> day_start (local_day now - i) <> None) ->
  streak state now = Some n ->
  forall k, (k < 7)%nat ->
    let bar := nth (6 - k) (map Bar.count (last7 state now)) 0%nat in
    ((k < n)%nat -> (0 < bar)%nat) /\ (k = n -> bar = 0%nat).
Proof.
  intros Hm Hrange Hs k Hk bar.
  assert (Hbar : bar = entries_on state (local_day now - Z.of_nat k)).
  { subst bar. rewrite (last7_days state now Hm Hrange).
    destruct k as [|[|[|[|[|[|[|k]]]]]]]; try reflexivity. lia. }
  destruct (streak_Some_days state now n 6 Hm) as [Hin Hout]; [|exact Hs|].
  { intros j Hj. apply Hrange. lia. }
  rewrite Hbar. split.
  - intros Hkn. apply entries_on_positive. apply Hin; lia.
  - intros ->. specialize (Hout ltac:(lia)).
    destruct (entries_on state (local_day now - Z.of_nat n)) eqn:He; [reflexivity|].
    exfalso. apply Hout, entries_on_positive. lia.
Qed.

(** *** The search *)

Lemma prefix_append (t s : string) :
  String.prefix t s = true <-> exists b, s = t ++ b.
Proof.
  revert s. induction t as [|c t IH]; intros s; cbn [append].
  - split; [eauto|]. intros _. now destruct s.
  - destruct s as [|d s]; cbn [String.prefix];
      [split; [discriminate|intros (b & H); discriminate]|].
    destruct (ascii_dec c d) as [->|Hne].
    + rewrite IH. split; intros (b & H); exists b; [now rewrite H|].
      now inversion H.
    + split; [discriminate|]. intros (b & H). inversion H. congruence.
Qed.

Lemma append_associative (a b c : string) : (a ++ b) ++ c = a ++ b ++ c.
Proof. induction a as [|x a IH]; cbn [append]; [reflexivity|now rewrite IH]. Qed.

(** [s.includes(term)]: the text [s] is some text, then [term], then
    some text. *)
Lemma includes_append (s term : string) :
  includes s term = true <-> exists a b, s = a ++ term ++ b.
Proof.
  induction s as [|c s IH]; cbn [includes]; rewrite orb_true_iff, prefix_append.
  - split.
    + intros [(b & H)|H]; [|discriminate]. exists "", b. exact H.
    + intros (a & b & H). left. destruct a; [|discriminate]. now exists b.
  - rewrite IH. split.
    + intros [(b & H)|(a & b & H)].
      * exists "", b. exact H.
      * exists (String c a), b. cbn [append]. now rewrite H.
    + intros (a & b & H). destruct a as [|x a].
      * left. now exists b.
      * right. cbn [append] in H. inversion H. now exists a, b.
Qed.

Lemma includes_trans (s t u : string) :
  includes s t = true -> includes t u = true -> includes s u = true.
Proof.
  rewrite !includes_append. intros (a & b & ->) (c & d & ->).
  exists (a ++ c), (d ++ b). now rewrite !append_associative.
Qed.

Lemma filter_filter_implied {A} (p q : A -> bool) (xs : list A) :
  (forall x, q x = true -> p x = true) ->
  filter q (filter p xs) = filter q xs.
Proof.
  intros H. induction xs as [|x xs IH]; [reflexivity|]. cbn [filter].
  destruct (p x) eqn:Hp; cbn [filter].
  - now rewrite IH.
  - destruct (q x) eqn:Hq; [|exact IH]. rewrite (H x Hq) in Hp. discriminate.
Qed.

(** To search within the results of a search is to search the whole
    history: where the term of one search occurs in the term of
    another, the entries found for the second among those found for
    the first are the entries found for the second. A longer term
    never brings an entry back. *)
Theorem filteredEntries_refines (filter1 filter2 : string) (state : Document) :
  includes (String_toLowerCase (String_trim filter2))
           (String_toLowerCase (String_trim filter1)) = true ->
  filteredEntries filter2
    {| lockables := lockables state;
       entries := filteredEntries filter1 state;
       prefs := prefs state |}
  = filteredEntries filter2 state.
Proof.
  intros Hocc. unfold filteredEntries at 1 3. cbn [entries lockables].
  set (term2 := String_toLowerCase (String_trim filter2)) in *.
  unfold filteredEntries.
  set (term1 := String_toLowerCase (String_trim filter1)) in *.
  destruct (String.eqb term1 "") eqn:H1.
  - reflexivity.
  - destruct (String.eqb term2 "") eqn:H2.
    + apply String.eqb_eq in H2. rewrite H2 in Hocc.
      apply includes_append in Hocc as (a & b & Hab).
      destruct a; [|discriminate]. destruct term1; [discriminate|discriminate].
    + unfold find_lockable. cbn [lockables].
      apply filter_filter_implied. intros e He.
      apply orb_true_iff in He. apply orb_true_iff.
      destruct He as [He|He]; [left|right];
        exact (includes_trans _ _ _ He Hocc).
Qed.

(** *** The button Deshacer *)

(** The button that calls undoLast is disabled exactly when undoLast
    would leave the Document as it is. *)
Theorem undo_disabled_iff_noop (state : Document) (w : World) :
  undo_disabled state = true <-> undoLast state w = (Normal state, w).
Proof.
  unfold undo_disabled. rewrite undoLast_eq. split.
  - intros H. apply Nat.eqb_eq in H.
    destruct state as [ls es p]. cbn [entries lockables prefs] in *.
    destruct es; [reflexivity|discriminate].
  - intros H. apply Nat.eqb_eq.
    injection H as He. apply (f_equal entries) in He. cbn [entries skipn] in He.
    destruct (entries state) as [|e es]; [reflexivity|].
    apply (f_equal (@List.length Entry.t)) in He. cbn [List.length] in He. lia.
Qed.
End App.

Arguments JNull {number}.
Arguments JBool {number} b.
Arguments JNumber {number} n.
Arguments JString {number} s.
Arguments JArray {number} elements.
Arguments JObject {number} properties.

(** ** A browser to run the handlers in

    The Numbers of this browser are the integers, written in decimal;
    its time zone is that of Buenos Aires, three hours behind UTC all
    year; it reads no date that is not in the Date Time String Format;
    its messages are those of V8. *)

Definition Z_toString (n : Z) : string := NilZero.string_of_int (Z.to_int n).

Definition Z_parse (s : string) : option Z :=
  match NilZero.int_of_string s with
  | Some i =>
      let n := Z.of_int i in
      if String.eqb (Z_toString n) s then Some n else None
  | None => None
  end.

Definition Z_truthy (n : Z) : bool := negb (n =? 0).

Definition Z_isFinite (n : Z) : bool := true.

Definition buenos_aires (t : Z) (isUTC : bool) : Z := -10800000.

Definition no_heuristics (s : string) : option Z := None.

Definition v8_message (err : JsError) : string :=
  match err with
  | Error m => m
  | TypeError key => "Cannot read properties of null (reading '" ++ key ++ "')"
  | NotPrimitive => "Cannot convert object to primitive value"
  | SyntaxError _ => "Unexpected token"
  | RangeError => "Invalid time value"
  end.

Definition run_importData : option string -> Document -> M Document :=
  importData Z Z_truthy Z_toString TimeClip Z_parse buenos_aires no_heuristics
    v8_message.

Definition run_exportData : Document -> string * string :=
  exportData Z Z_isFinite Z_toString.

Definition run_streak : Document -> Z -> option nat :=
  streak buenos_aires no_heuristics.

(** A world: the identifiers id0, id1, ...; a clock that starts on
    2024-01-15 at 10:30:00 UTC and advances a second a reading; every
    prompt cancelled; nothing drawn or shown so far. *)
Definition sample_world : World :=
  {| random_ids := fun k => "id" ++ Z_toString (Z.of_nat k);
     clock := fun k => 1705314600000 + 1000 * Z.of_nat k;
     prompt_replies := fun _ => None;
     n_random := 0; n_clock := 0; n_prompt := 0;
     alerts := [] |}.

(** [s] between double quotes *)
Definition quoted (s : string) : string :=
  String dquote (s ++ String dquote "").

(** The file [{"entries": []}] *)
Definition file_without_lockables : string :=
  "{" ++ quoted "entries" ++ ": []}".

(** The file [{"lockables": [], "entries": [{"tsISO": "not a date"}]}] *)
Definition file_with_invalid_timestamp : string :=
  "{" ++ quoted "lockables" ++ ": [], " ++ quoted "entries" ++ ": [{"
  ++ quoted "tsISO" ++ ": " ++ quoted "not a date" ++ "}]}".

(** The file [{"lockables": [], "entries": [{}, ..., {}]}] with [n]
    entries *)
Definition file_with_entries (n : nat) : string :=
  "{" ++ quoted "lockables" ++ ": [], " ++ quoted "entries" ++ ": ["
  ++ String.concat ", " (repeat "{}" n) ++ "]}".

(** A Document at the cap: 200 entries, a minute apart *)
Definition numbered_entry (k : nat) : Entry.t :=
  {| Entry.id := "e" ++ Z_toString (Z.of_nat k);
     Entry.lockableId := "casa";
     Entry.tsISO := ISOString (1700000000000 - 60000 * Z.of_nat k);
     Entry.note := None |}.

Definition full_document : Document :=
  {| lockables := lockables defaultState;
     entries := map numbered_entry (seq 0 200);
     prefs := prefs defaultState |}.

Definition casa : Lockable.t :=
  {| Lockable.id := "casa"; Lockable.name := "Casa"; Lockable.icon := "🏠";
     Lockable.color := Some "#0ea5e9" |}.

(** A Document with one entry, its timestamp an ISO 8601 text without
    milliseconds, and the Document with that timestamp as [toISOString]
    writes it *)
Definition document_with_timestamp (ts : string) : Document :=
  {| lockables := lockables defaultState;
     entries := [ {| Entry.id := "e1"; Entry.lockableId := "casa";
                     Entry.tsISO := ts; Entry.note := Some "Con alarma" |} ];
     prefs := prefs defaultState |}.

(** Entries at the given instants *)
Definition document_with_entries_at (ts : list string) : Document :=
  {| lockables := lockables defaultState;
     entries := map (fun t => {| Entry.id := "e"; Entry.lockableId := "casa";
                                 Entry.tsISO := t; Entry.note := None |}) ts;
     prefs := prefs defaultState |}.

(** The strings of this browser are ASCII texts: [trim] drops the white
    space of ASCII at both ends, [toLowerCase] maps A-Z to a-z. Its
    dates are written as 15/1/24, 07:30, its weekdays as lun, mar, ...,
    both in the local time. *)

Definition ascii_toLowerCase_char (c : ascii) : ascii :=
  let n := nat_of_ascii c in
  if ((65 <=? n) && (n <=? 90))%nat then ascii_of_nat (n + 32) else c.

Fixpoint ascii_toLowerCase (s : string) : string :=
  match s with
  | String c s' => String (ascii_toLowerCase_char c) (ascii_toLowerCase s')
  | EmptyString => EmptyString
  end.

Definition reverse (s : string) : string :=
  string_of_list_ascii (rev (list_ascii_of_string s)).

Definition ascii_trim (s : string) : string :=
  reverse (trim_start (reverse (trim_start s))).

Definition es_AR_short (d : option Z) : string :=
  match d with
  | Some t =>
      let t' := t + buenos_aires t true in
      Z_toString (DateFromTime t') ++ "/" ++ Z_toString (MonthFromTime t' + 1)
      ++ "/" ++ digits 2 (YearFromTime t' mod 100)
      ++ ", " ++ digits 2 (HourFromTime t') ++ ":" ++ digits 2 (MinFromTime t')
  | None => "Invalid Date"
  end.

Definition es_AR_weekday (d : option Z) : string :=
  match d with
  | Some t =>
      nth (Z.to_nat ((Day (t + buenos_aires t true) + 4) mod 7))
        ["dom"; "lun"; "mar"; "mié"; "jue"; "vie"; "sáb"] ""
  | None => "Invalid Date"
  end.

Definition run_last7 : Document -> Z -> list Bar.t :=
  last7 buenos_aires no_heuristics es_AR_weekday.

Definition run_filteredEntries : string -> Document -> list Entry.t :=
  filteredEntries ascii_trim ascii_toLowerCase.

Definition run_shareLast : Navigator -> Document -> M (list NavigatorCall) :=
  shareLast buenos_aires no_heuristics es_AR_short.

(** A navigator without [share] and [clipboard], and one on which both
    are there and every call is rejected *)
Definition bare_navigator : Navigator :=
  {| share := None; clipboard := None |}.

Definition rejecting_navigator : Navigator :=
  {| share := Some (fun _ _ => false); clipboard := Some (fun _ => false) |}.

(** The file [{"lockables": [{"name": "Bici"}], "entries": [{}]}] *)
Definition file_without_ids : string :=
  "{" ++ quoted "lockables" ++ ": [{" ++ quoted "name" ++ ": " ++ quoted "Bici"
  ++ "}], " ++ quoted "entries" ++ ": [{}]}".

(** The file [{"lockables": [], "entries": [], "prefs": {"theme":
    "blue"}}] *)
Definition file_with_theme_blue : string :=
  "{" ++ quoted "lockables" ++ ": [], " ++ quoted "entries" ++ ": [], "
  ++ quoted "prefs" ++ ": {" ++ quoted "theme" ++ ": " ++ quoted "blue" ++ "}}".

(** A Document with notes: two entries of Casa, one of Auto *)
Definition document_with_notes : Document :=
  {| lockables := lockables defaultState;
     entries :=
       [ {| Entry.id := "e3"; Entry.lockableId := "casa";
            Entry.tsISO := "2024-01-15T10:30:00.000Z";
            Entry.note := Some "Salí apurado" |};
         {| Entry.id := "e2"; Entry.lockableId := "auto";
            Entry.tsISO := "2024-01-14T10:30:00.000Z";
            Entry.note := Some "En casa de Ana" |};
         {| Entry.id := "e1"; Entry.lockableId := "casa";
            Entry.tsISO := "2024-01-13T10:30:00.000Z";
            Entry.note := None |} ];
     prefs := prefs defaultState |}.


(** ** Time zones with a constant offset *)

Definition constant_offset (tza : Z) : Z -> bool -> Z := fun _ _ => tza.

Lemma constant_offset_midnights (tza : Z) : midnights_exist (constant_offset tza).
Proof. intros D. unfold LocalTime, UTC, constant_offset. lia. Qed.

Lemma constant_offset_in_range (tza now : Z) (k : nat) :
  Z.abs tza <= msPerDay ->
  Z.abs now <= 8000000000000000 ->
  (k <= 1000)%nat ->
  day_start (constant_offset tza)
    (local_day (constant_offset tza) now - Z.of_nat k) <> None.
Proof.
  intros Htza Hnow Hk.
  unfold day_start, local_day, LocalTime, UTC, constant_offset, MakeDate, Day,
    TimeClip, msPerDay in *.
  match goal with
  | |- (if ?b then _ else _) <> None => replace b with true; [discriminate|]
  end.
  symmetry. apply Z.leb_le. Z.div_mod_to_equations. lia.
Qed.

(** In a zone with a constant offset of at most a day, at a time within
    8e15 ms of the epoch: the streak is 2 with entries on today and
    yesterday only, 0 without an entry today, and for a Document of at
    most 1000 entries it is computed and at most their number. *)
Theorem streak_constant_offset
  (tza : Z) (Date_parse_other : string -> option Z) (state : Document) (now : Z) :
  Z.abs tza <= msPerDay ->
  Z.abs now <= 8000000000000000 ->
  let zone := constant_offset tza in
  let today := local_day zone now in
  let on_day := entry_on zone Date_parse_other state in
  (on_day today ->
   on_day (today - 1) ->
   (forall e, In e (entries state) ->
              entry_day zone Date_parse_other e = Some today
              \/ entry_day zone Date_parse_other e = Some (today - 1)) ->
   streak zone Date_parse_other state now = Some 2%nat)
  /\ (~ on_day today -> streak zone Date_parse_other state now = Some 0%nat)
  /\ ((List.length (entries state) <= 1000)%nat ->
      exists n, (n <= List.length (entries state))%nat
                /\ streak zone Date_parse_other state now = Some n).
Proof.
  intros Htza Hnow zone today on_day.
  pose proof (constant_offset_midnights tza) as Hm.
  assert (Hrange : forall k, (k <= 1000)%nat ->
            day_start zone (today - Z.of_nat k) <> None).
  { intros k Hk. now apply constant_offset_in_range. }
  assert (Htoday : today - Z.of_nat 0 = today) by (cbn; lia).
  split; [|split].
  - intros H0 H1 Honly.
    apply (streak_counts_days zone Date_parse_other state now 2 Hm).
    + intros k Hk. apply Hrange. lia.
    + intros k Hk. destruct k as [|[|k]]; [| |lia].
      * fold today. now rewrite Htoday.
      * exact H1.
    + intros (e & He & Hd). fold today in Hd. cbn [Z.of_nat] in Hd.
      destruct (Honly e He) as [H|H]; rewrite H in Hd; injection Hd; lia.
  - intros H0.
    apply (streak_counts_days zone Date_parse_other state now 0 Hm).
    + intros k Hk. apply Hrange. lia.
    + intros k Hk. lia.
    + fold today. now rewrite Htoday.
  - intros Hlen. apply (streak_terminates zone Date_parse_other state now Hm).
    intros k Hk. apply Hrange. lia.
Qed.

(** ** The caches *)

(** After [activate] every cache has the current name, and the caches
    of that name are those there were. *)
Theorem onactivate_keeps_current (Response : Type) (caches : CacheStorage Response) :
  Forall (fun kc => fst kc = CACHE_NAME) (onactivate caches)
  /\ forall kc, In kc (onactivate caches)
                <-> In kc caches /\ fst kc = CACHE_NAME.
Proof.
  unfold onactivate. split.
  - apply Forall_forall. intros kc Hin. apply filter_In in Hin as [_ H].
    now apply String.eqb_eq.
  - intros kc. rewrite filter_In. now rewrite String.eqb_eq.
Qed.

Lemma Cache_match_put (Response : Type) (c : Cache Response)
  (u u' : string) (r : Response) :
  Cache_match Response c u' <> None ->
  Cache_match Response (Cache_put Response c u r) u' <> None.
Proof.
  induction c as [|[k r0] c IH]; cbn [Cache_put Cache_match]; [congruence|].
  intros H. destruct (String.eqb k u) eqn:Hku; cbn [Cache_match];
    destruct (String.eqb k u') eqn:Hku'; try discriminate; auto.
Qed.

Lemma Cache_match_put_same (Response : Type) (c : Cache Response)
  (u : string) (r : Response) :
  Cache_match Response (Cache_put Response c u r) u <> None.
Proof.
  induction c as [|[k r0] c IH]; cbn [Cache_put Cache_match].
  - rewrite String.eqb_refl. discriminate.
  - destruct (String.eqb k u) eqn:Hku; cbn [Cache_match]; rewrite Hku;
      [discriminate|exact IH].
Qed.

Lemma Cache_match_put_all (Response : Type)
  (fetched : list (string * Response)) (u : string) :
  forall c : Cache Response,
    Cache_match Response c u <> None \/ In u (map fst fetched) ->
    Cache_match Response
      (fold_left (fun c' ur => Cache_put Response c' (fst ur) (snd ur)) fetched c) u
    <> None.
Proof.
  induction fetched as [|[u0 r0] fetched IH]; intros c H; cbn [fold_left fst snd].
  - destruct H as [H|[]]. exact H.
  - apply IH. cbn [map fst In] in H. destruct H as [H|[->|H]].
    + left. now apply Cache_match_put.
    + left. apply Cache_match_put_same.
    + right. exact H.
Qed.

Lemma fetchAll_urls (Response : Type) (fetch : Network Response) (urls : list string) :
  forall c, fetchAll Response fetch urls = Some c -> map fst c = urls.
Proof.
  induction urls as [|u urls IH]; intros c H; cbn [fetchAll] in H.
  - injection H as <-. reflexivity.
  - destruct (fetch (mkRequest "GET" u)) as [r|]; [|discriminate].
    destruct (fetchAll Response fetch urls) as [c'|]; [|discriminate].
    injection H as <-. cbn [map fst]. f_equal. now apply IH.
Qed.

Lemma caches_match_update (Response : Type) (name u : string)
  (f : Cache Response -> Cache Response) :
  (forall c, Cache_match Response (f c) u <> None) ->
  forall caches : CacheStorage Response,
    caches_match (caches_update Response caches name f) (mkRequest "GET" u) <> None.
Proof.
  intros Hf. induction caches as [|[k c] rest IH];
    cbn [caches_update caches_match method url String.eqb Ascii.eqb Bool.eqb].
  - specialize (Hf []). destruct (Cache_match Response (f []) u); congruence.
  - destruct (String.eqb k name);
      cbn [caches_match method url String.eqb Ascii.eqb Bool.eqb].
    + specialize (Hf c). destruct (Cache_match Response (f c) u); congruence.
    + destruct (Cache_match Response c u); [discriminate|exact IH].
Qed.

Lemma caches_match_opened (Response : Type) (name : string) (request : Request) :
  forall caches : CacheStorage Response,
    caches_match (caches_update Response caches name (fun c => c)) request
    = caches_match caches request.
Proof.
  induction caches as [|[k c] rest IH]; cbn [caches_update caches_match].
  - now destruct (String.eqb (method request) "GET").
  - destruct (String.eqb k name); cbn [caches_match]; [reflexivity|].
    now rewrite IH.
Qed.

Lemma oninstall_caches (Response : Type)
  (caches : CacheStorage Response) (fetch : Network Response) :
  (snd (oninstall caches fetch) = true ->
   forall u, In u ASSETS ->
             caches_match (fst (oninstall caches fetch)) (mkRequest "GET" u) <> None)
  /\ (snd (oninstall caches fetch) = false ->
      forall request,
        caches_match (fst (oninstall caches fetch)) request
        = caches_match caches request).
Proof.
  unfold oninstall.
  destruct (fetchAll Response fetch ASSETS) as [fetched|] eqn:Hfetch; cbn [fst snd].
  - split; [|discriminate]. intros _ u Hu.
    apply caches_match_update. intros c. apply Cache_match_put_all. right.
    now rewrite (fetchAll_urls Response fetch ASSETS fetched Hfetch).
  - split; [discriminate|]. intros _ request. apply caches_match_opened.
Qed.




(** After an install that succeeded, a GET request is answered with a
    response even when the network fails: the cached response, or
    else the cached [./index.html]. *)
Theorem offline_after_install (Response : Type)
  (caches : CacheStorage Response) (fetch0 fetch : Network Response)
  (request : Request) :
  snd (oninstall caches fetch0) = true ->
  method request = "GET" ->
  fetch request = None ->
  exists response,
    onfetch (fst (oninstall caches fetch0)) fetch request
    = RespondWith (Some response).
Proof.
  intros Hinstalled Hget Hoffline. unfold onfetch.
  rewrite Hget. cbn [String.eqb Ascii.eqb Bool.eqb negb].
  destruct (caches_match (fst (oninstall caches fetch0)) request) as [cached|];
    [eauto|].
  rewrite Hoffline.
  pose proof (proj1 (oninstall_caches Response caches fetch0) Hinstalled
                "./index.html" ltac:(cbn; auto)) as Hindex.
  destruct (caches_match (fst (oninstall caches fetch0))
              (mkRequest "GET" "./index.html")) as [r|]; [eauto|congruence].
Qed.

Lemma Cache_match_put_eq (Response : Type) (c : Cache Response)
  (u u' : string) (r : Response) :
  Cache_match Response (Cache_put Response c u r) u'
  = if String.eqb u u' then Some r else Cache_match Response c u'.
Proof.
  induction c as [|[k r0] c IH]; cbn [Cache_put Cache_match].
  - reflexivity.
  - destruct (String.eqb k u) eqn:Hku; cbn [Cache_match].
    + apply String.eqb_eq in Hku. subst k.
      now destruct (String.eqb u u').
    + destruct (String.eqb k u') eqn:Hku'; [|exact IH].
      destruct (String.eqb u u') eqn:Huu'; [|reflexivity].
      apply String.eqb_eq in Hku', Huu'. subst.
      rewrite String.eqb_refl in Hku. discriminate.
Qed.

Lemma Cache_match_put_fetched (Response : Type)
  (fetched : list (string * Response)) (u : string) (r : Response) :
  NoDup (map fst fetched) ->
  In (u, r) fetched ->
  forall c : Cache Response,
    Cache_match Response
      (fold_left (fun c' ur => Cache_put Response c' (fst ur) (snd ur)) fetched c) u
    = Some r.
Proof.
  induction fetched as [|[u0 r0] fetched IH]; intros Hnd Hin c; [destruct Hin|].
  cbn [map fst] in Hnd. inversion Hnd as [|? ? Hnotin Hnd']; subst.
  cbn [fold_left fst snd]. destruct Hin as [Heq|Hin].
  - inversion Heq; subst. clear IH.
    assert (Hkeep : forall c', Cache_match Response c' u = Some r ->
              Cache_match Response
                (fold_left (fun c' ur => Cache_put Response c' (fst ur) (snd ur))
                   fetched c') u = Some r).
    { clear Hnd' Hnd. induction fetched as [|[u1 r1] fetched IH]; intros c' Hc';
        [exact Hc'|].
      cbn [fold_left fst snd]. apply IH.
      - intros H. apply Hnotin. cbn [map fst In]. now right.
      - rewrite Cache_match_put_eq. destruct (String.eqb u1 u) eqn:H1; [|exact Hc'].
        apply String.eqb_eq in H1. subst. exfalso. apply Hnotin.
        cbn [map fst In]. now left. }
    apply Hkeep. rewrite Cache_match_put_eq. now rewrite String.eqb_refl.
  - now apply IH.
Qed.

Lemma fetchAll_fetched (Response : Type) (fetch : Network Response)
  (urls : list string) :
  forall c u, fetchAll Response fetch urls = Some c -> In u urls ->
    exists r, fetch (mkRequest "GET" u) = Some r /\ In (u, r) c.
Proof.
  induction urls as [|u0 urls IH]; intros c u H Hu; [destruct Hu|].
  cbn [fetchAll] in H.
  destruct (fetch (mkRequest "GET" u0)) as [r0|] eqn:H0; [|discriminate].
  destruct (fetchAll Response fetch urls) as [c'|]; [|discriminate].
  injection H as <-. destruct Hu as [->|Hu].
  - exists r0. split; [exact H0|now left].
  - destruct (IH c' u eq_refl Hu) as (r & Hr & Hin). exists r.
    split; [exact Hr|now right].
Qed.

Lemma caches_update_opened (Response : Type) (name : string)
  (f : Cache Response -> Cache Response) :
  forall caches : CacheStorage Response,
    caches_update Response (caches_update Response caches name (fun c => c)) name f
    = caches_update Response caches name f.
Proof.
  induction caches as [|[k c] rest IH]; cbn [caches_update].
  - now rewrite String.eqb_refl.
  - destruct (String.eqb k name) eqn:Hk; cbn [caches_update]; rewrite Hk;
      [reflexivity|now rewrite IH].
Qed.

Lemma caches_match_activated (Response : Type) (u : string) (r : Response)
  (f : Cache Response -> Cache Response) :
  (forall c, Cache_match Response (f c) u = Some r) ->
  forall caches : CacheStorage Response,
    caches_match (onactivate (caches_update Response caches CACHE_NAME f))
      (mkRequest "GET" u)
    = Some r.
Proof.
  intros Hf. unfold onactivate.
  induction caches as [|[k c] rest IH]; cbn [caches_update filter fst].
  - change (String.eqb CACHE_NAME CACHE_NAME) with true. cbv iota.
    cbn [caches_match method url String.eqb Ascii.eqb Bool.eqb].
    now rewrite Hf.
  - destruct (String.eqb k CACHE_NAME) eqn:Hk; cbn [filter fst]; rewrite Hk.
    + cbn [caches_match method url String.eqb Ascii.eqb Bool.eqb].
      now rewrite Hf.
    + exact IH.
Qed.

(** After an install that succeeded and the activation that follows, a
    GET request for an asset of [ASSETS] is answered with the response
    fetched at the install: not with one of an older cache, and
    whether or not the network answers. *)
Theorem assets_fresh_after_activate (Response : Type)
  (caches : CacheStorage Response) (fetch0 fetch : Network Response)
  (u : string) :
  snd (oninstall caches fetch0) = true ->
  In u ASSETS ->
  onfetch (onactivate (fst (oninstall caches fetch0))) fetch (mkRequest "GET" u)
  = RespondWith (fetch0 (mkRequest "GET" u)).
Proof.
  unfold oninstall.
  destruct (fetchAll Response fetch0 ASSETS) as [fetched|] eqn:Hfetch;
    cbn [fst snd]; [|discriminate].
  intros _ Hu.
  destruct (fetchAll_fetched Response fetch0 ASSETS fetched u Hfetch Hu)
    as (r & Hr & Hin).
  rewrite caches_update_opened. unfold onfetch.
  cbn [method String.eqb Ascii.eqb Bool.eqb negb].
  rewrite (caches_match_activated Response u r).
  - now rewrite Hr.
  - apply Cache_match_put_fetched; [|exact Hin].
    rewrite (fetchAll_urls Response fetch0 ASSETS fetched Hfetch).
    unfold ASSETS. repeat constructor; cbn [In]; intuition discriminate.
Qed.

(** ** The claims at concrete inputs *)

(** C1, where the code leaves the invariant: the import of a file with
    201 entries succeeds, shows no message, and sets a Document with all
    201 entries, one more than the cap that recordEntry keeps. *)
Theorem importData_exceeds_cap :
  exists state' w',
    run_importData (Some (file_with_entries 201)) defaultState sample_world
    = (Normal state', w')
    /\ alerts w' = []
    /\ List.length (entries state') = 201%nat
    /\ ~ entries_capped state'.
Proof.
  pose (r := run_importData (Some (file_with_entries 201)) defaultState
               sample_world).
  assert (Hfst : exists s, fst r = Normal s /\ List.length (entries s) = 201%nat).
  { let v := eval vm_compute in (fst r) in
    match v with Normal ?s => exists s end.
    split; vm_compute; reflexivity. }
  destruct Hfst as (s & Hs & Hlen).
  exists s, (snd r). split; [rewrite <- Hs; apply surjective_pairing|].
  split; [vm_compute; reflexivity|]. split; [exact Hlen|].
  unfold entries_capped. rewrite Hlen. lia.
Qed.

Lemma recordEntry_sequence_witness :
  entries defaultState = []
  /\ exists state' w',
       recordEntries (lockables defaultState) defaultState sample_world
       = (Normal state', w')
       /\ List.length (entries state') = 3%nat
       /\ map Entry.lockableId (entries state') = ["oficina"; "auto"; "casa"]
       /\ map Entry.id (entries state') = ["id2"; "id1"; "id0"].
Proof.
  split; [reflexivity|].
  destruct (recordEntry_sequence_newest_first
              (lockables defaultState) defaultState sample_world eq_refl)
    as (state' & w' & Hrun & Hlen & Hentries & _).
  exists state', w'. split; [exact Hrun|]. split; [exact Hlen|].
  rewrite Hentries. split; reflexivity.
Defined.

Lemma importData_rejects_witness :
  run_importData (Some file_without_lockables) defaultState sample_world
  = (Normal defaultState,
     alerted "No se pudo importar: Formato inválido" sample_world).
Proof.
  destruct (importData_rejects_malformed Z Z_truthy Z_toString TimeClip Z_parse
              buenos_aires no_heuristics v8_message
              file_without_lockables (JObject [("entries", JArray [])])
              defaultState sample_world eq_refl eq_refl)
    as (reason & Hrun & Hreason).
  unfold run_importData. rewrite Hrun, Hreason; [reflexivity|discriminate].
Defined.

(** C4 as the claim has it fails at the cap: with 200 entries before,
    the entry in the last place is cut off by recordEntry, and undoLast
    gives back the first 199 only. *)
Lemma undo_after_record_loses_oldest :
  List.length (entries full_document) = 200%nat
  /\ exists state1 w1 state2,
       recordEntry casa full_document sample_world = (Normal state1, w1)
       /\ undoLast state1 w1 = (Normal state2, w1)
       /\ List.length (entries state2) = 199%nat
       /\ state2 <> full_document.
Proof.
  split; [reflexivity|].
  destruct (undo_after_record casa full_document sample_world)
    as (state1 & w1 & state2 & Hrec & Hundo & _ & _ & Hentries).
  exists state1, w1, state2. split; [exact Hrec|]. split; [exact Hundo|].
  assert (Hlen : List.length (entries state2) = 199%nat).
  { rewrite Hentries. reflexivity. }
  split; [exact Hlen|]. intros ->. discriminate Hlen.
Qed.

Lemma undo_after_record_witness :
  (List.length (entries defaultState) < 200)%nat
  /\ exists state1 w1,
       recordEntry casa defaultState sample_world = (Normal state1, w1)
       /\ undoLast state1 w1 = (Normal defaultState, w1).
Proof.
  split; [cbn; lia|].
  apply (undo_after_record_identity casa defaultState sample_world).
  cbn. lia.
Defined.

Lemma importData_invalid_timestamp_witness :
  exists w',
    run_importData (Some file_with_invalid_timestamp) defaultState sample_world
    = (Normal defaultState,
       alerted "No se pudo importar: Invalid time value" w').
Proof.
  destruct (importData_invalid_timestamp_rejected Z Z_truthy Z_toString TimeClip
              Z_parse buenos_aires no_heuristics v8_message
              file_with_invalid_timestamp
              (JObject [("lockables", JArray []);
                        ("entries", JArray [JObject [("tsISO", JString "not a date")]])])
              [] [JObject [("tsISO", JString "not a date")]]
              defaultState sample_world eq_refl eq_refl eq_refl)
    as (err & w' & Hrun & Herr).
  - constructor. exists (JString "not a date"). repeat split.
  - exists w'. unfold run_importData. rewrite Hrun, Herr; [reflexivity| |].
    + constructor.
    + constructor; [|constructor]. split; [discriminate|reflexivity].
Defined.

(** The file [{"lockables": [{"id": {"toString": 1}}], "entries": []}] *)
Definition file_with_own_toString : string :=
  "{" ++ quoted "lockables" ++ ": [{" ++ quoted "id" ++ ": {"
  ++ quoted "toString" ++ ": 1}}], " ++ quoted "entries" ++ ": []}".

(** An [id] that is an object with a property [toString]: [String]
    throws on it, and the import is given up with the message of that
    TypeError. *)
Lemma importData_own_toString :
  run_importData (Some file_with_own_toString) defaultState sample_world
  = (Normal defaultState,
     alerted "No se pudo importar: Cannot convert object to primitive value"
       sample_world).
Proof.
  unfold run_importData.
  rewrite (importData_eq Z Z_truthy Z_toString TimeClip Z_parse buenos_aires
             no_heuristics v8_message file_with_own_toString
             (JObject [("lockables",
                        JArray [JObject [("id", JObject [("toString", JNumber 1)])]]);
                       ("entries", JArray [])])
             defaultState sample_world)
    by (vm_compute; reflexivity).
  reflexivity.
Qed.



Lemma buenos_aires_midnights : midnights_exist buenos_aires.
Proof. intros D. unfold LocalTime, UTC, buenos_aires. lia. Qed.



(** C9 as the claim has it fails on a colour in the shorthand notation:
    [#fff] is white, of luminance 255, and the text on it is white. *)
Lemma shorthand_white_gets_white_text :
  css_hex_rgb "#fff" = Some (255, 255, 255)
  /\ Qle_bool 140 (luminance (255, 255, 255)) = true
  /\ readableTextColor (Some "#fff") = "#ffffff"
  /\ css_hex_rgb "#ffffff" = Some (255, 255, 255)
  /\ readableTextColor (Some "#ffffff") = "#18181b".
Proof. repeat split. Qed.

Lemma readableTextColor_witness :
  readableTextColor (Some "#0ea5e9") = "#ffffff"
  /\ readableTextColor (Some "#FACC15") = "#18181b".
Proof.
  split.
  - apply (proj1 (readableTextColor_threshold "0" "e" "a" "5" "e" "9"
                    0 14 10 5 14 9
                    eq_refl eq_refl eq_refl eq_refl eq_refl eq_refl)).
    reflexivity.
  - apply (proj1 (proj2 (readableTextColor_threshold "F" "A" "C" "C" "1" "5"
                           15 10 12 12 1 5
                           eq_refl eq_refl eq_refl eq_refl eq_refl eq_refl))).
    discriminate.
Defined.

(** The file [{"lockables": [], "entries": []}] *)
Definition file_with_empty_arrays : string :=
  "{" ++ quoted "lockables" ++ ": [], " ++ quoted "entries" ++ ": []}".

Lemma handlers_keep_cap_witness :
  entries_capped defaultState
  /\ exists state' w',
       recordEntry casa defaultState sample_world = (Normal state', w')
       /\ entries_capped state'.
Proof.
  assert (Hcap : entries_capped defaultState) by (unfold entries_capped; cbn; lia).
  split; [exact Hcap|].
  exact (proj1 (handlers_keep_cap defaultState sample_world Hcap) casa).
Defined.

Lemma undoLast_empty_witness :
  undoLast defaultState sample_world = (Normal defaultState, sample_world).
Proof. apply (undoLast_empty defaultState sample_world). reflexivity. Defined.

Lemma importData_empty_document_witness :
  run_importData (Some file_with_empty_arrays) full_document sample_world
  = (Normal {| lockables := [];
               entries := [];
               prefs := prefs defaultState |}, sample_world).
Proof.
  apply (importData_empty_document Z Z_truthy Z_toString TimeClip Z_parse
           buenos_aires no_heuristics v8_message).
  vm_compute. reflexivity.
Defined.

Lemma export_import_rewrites_timestamps_witness :
  run_importData
    (Some (snd (run_exportData (document_with_timestamp "2024-01-15T07:30:00-03:00"))))
    defaultState sample_world
  = (Normal (document_with_timestamp "2024-01-15T10:30:00.000Z"), sample_world).
Proof.
  unfold run_importData, run_exportData.
  rewrite (export_import_rewrites_timestamps Z Z_truthy Z_isFinite Z_toString
             TimeClip Z_parse buenos_aires no_heuristics v8_message).
  - reflexivity.
  - vm_compute. reflexivity.
Defined.

Lemma streak_is_computed_witness :
  exists n,
    (n <= 2)%nat
    /\ run_streak
         (document_with_entries_at
            ["2024-01-15T03:30:00.000Z"; "2024-01-13T12:00:00.000Z"])
         1705314600000 = Some n.
Proof.
  apply (streak_is_computed buenos_aires no_heuristics
           (document_with_entries_at
              ["2024-01-15T03:30:00.000Z"; "2024-01-13T12:00:00.000Z"])
           1705314600000 buenos_aires_midnights).
  intros k Hk. cbn [document_with_entries_at entries map List.length] in Hk.
  destruct k as [|[|[|k]]]; [| | |lia]; vm_compute; discriminate.
Defined.

Lemma streak_constant_offset_witness :
  run_streak
    (document_with_entries_at
       ["2024-01-15T03:30:00.000Z"; "2024-01-15T02:30:00.000Z"])
    1705314600000 = Some 2%nat.
Proof.
  apply (proj1 (streak_constant_offset (-10800000) no_heuristics
                  (document_with_entries_at
                     ["2024-01-15T03:30:00.000Z"; "2024-01-15T02:30:00.000Z"])
                  1705314600000
                  ltac:(vm_compute; discriminate) ltac:(vm_compute; discriminate))).
  - eexists. split; [left; reflexivity|vm_compute; reflexivity].
  - eexists. split; [right; left; reflexivity|vm_compute; reflexivity].
  - intros e [<- | [<- | []]]; [left|right]; vm_compute; reflexivity.
Defined.

Lemma importData_maps_every_entry_witness :
  exists imported w',
    run_importData (Some (file_with_entries 3)) defaultState sample_world
    = (Normal imported, w')
    /\ List.length (entries imported) = 3%nat.
Proof.
  pose (data := @JObject Z [("lockables", JArray []);
                            ("entries", JArray [JObject []; JObject []; JObject []])]).
  pose (r := import_document Z Z_truthy Z_toString TimeClip buenos_aires
               no_heuristics data sample_world).
  assert (Hfst : exists s, fst r = Normal s).
  { let v := eval vm_compute in (fst r) in
    match v with Normal ?s => exists s end.
    vm_compute. reflexivity. }
  destruct Hfst as (s & Hs).
  exists s, (snd r).
  apply (importData_maps_every_entry Z Z_truthy Z_toString TimeClip Z_parse
           buenos_aires no_heuristics v8_message
           (file_with_entries 3) data defaultState s sample_world (snd r)).
  - vm_compute. reflexivity.
  - rewrite <- Hs. apply surjective_pairing.
Defined.

(** A network that answers every request with its URL, and one that is
    down *)
Definition online : Network string := fun request => Some (url request).
Definition offline : Network string := fun _ => None.


Lemma offline_after_install_witness :
  exists response,
    onfetch (fst (oninstall [] online)) offline (mkRequest "GET" "./about.html")
    = RespondWith (Some response).
Proof.
  apply (offline_after_install string [] online offline
           (mkRequest "GET" "./about.html"));
    reflexivity.
Defined.

(** ** The further properties at concrete inputs *)

Lemma buenos_aires_week (now : Z) :
  Z.abs now <= 8000000000000000 ->
  forall i, 0 <= i <= 6 ->
    day_start buenos_aires (local_day buenos_aires now - i) <> None.
Proof.
  intros Hnow i Hi.
  pose proof (constant_offset_in_range (-10800000) now (Z.to_nat i)
                ltac:(vm_compute; discriminate) Hnow ltac:(lia)) as H.
  rewrite Z2Nat.id in H by lia. exact H.
Qed.

Lemma readableTextColor_short_witness :
  readableTextColor (Some "#fff") = "#ffffff".
Proof. apply (readableTextColor_short "#fff"). cbn. lia. Defined.

Lemma importData_theme_valid_witness :
  exists imported w',
    run_importData (Some file_with_theme_blue) defaultState sample_world
    = (Normal imported, w')
    /\ valid_theme (theme (prefs imported)) = true.
Proof.
  pose (data := @JObject Z [("lockables", JArray []); ("entries", JArray []);
                            ("prefs", JObject [("theme", JString "blue")])]).
  pose (r := import_document Z Z_truthy Z_toString TimeClip buenos_aires
               no_heuristics data sample_world).
  assert (Hfst : exists s, fst r = Normal s).
  { let v := eval vm_compute in (fst r) in
    match v with Normal ?s => exists s end.
    vm_compute. reflexivity. }
  destruct Hfst as (s & Hs).
  exists s, (snd r).
  apply (importData_theme_valid Z Z_truthy Z_toString TimeClip Z_parse
           buenos_aires no_heuristics v8_message
           file_with_theme_blue data defaultState s sample_world (snd r)).
  - vm_compute. reflexivity.
  - rewrite <- Hs. apply surjective_pairing.
Defined.

Lemma importData_fallback_lockableId_witness :
  exists imported w',
    run_importData (Some file_without_ids) defaultState sample_world
    = (Normal imported, w')
    /\ (exists l' ls', lockables imported = l' :: ls' /\ Lockable.id l' = "id0")
    /\ (exists entry, nth_error (entries imported) 0 = Some entry
                      /\ Entry.lockableId entry = "casa").
Proof.
  pose (l := @JObject Z [("name", JString "Bici")]).
  pose (data := @JObject Z [("lockables", JArray [l]);
                            ("entries", JArray [JObject []])]).
  pose (r := import_document Z Z_truthy Z_toString TimeClip buenos_aires
               no_heuristics data sample_world).
  assert (Hfst : exists s, fst r = Normal s).
  { let v := eval vm_compute in (fst r) in
    match v with Normal ?s => exists s end.
    vm_compute. reflexivity. }
  destruct Hfst as (s & Hs).
  exists s, (snd r).
  apply (importData_fallback_lockableId Z Z_truthy Z_toString TimeClip Z_parse
           buenos_aires no_heuristics v8_message
           file_without_ids data l (JObject []) [] [JObject []] 0
           defaultState s sample_world (snd r)).
  - vm_compute. reflexivity.
  - reflexivity.
  - reflexivity.
  - reflexivity.
  - reflexivity.
  - reflexivity.
  - rewrite <- Hs. apply surjective_pairing.
Defined.

Lemma assets_fresh_after_activate_witness :
  onfetch (onactivate (fst (oninstall [("lock-logger-v0", [("./main.js", "old")])]
                              online)))
    offline (mkRequest "GET" "./main.js")
  = RespondWith (Some "./main.js").
Proof.
  apply (assets_fresh_after_activate string
           [("lock-logger-v0", [("./main.js", "old")])] online offline "./main.js").
  - reflexivity.
  - cbn. auto.
Defined.

Lemma streak_after_recordEntry_witness :
  exists state' w' n,
    recordEntry casa defaultState sample_world = (Normal state', w')
    /\ run_streak state' 1705314600000 = Some n
    /\ (1 <= n)%nat.
Proof.
  apply (streak_after_recordEntry buenos_aires no_heuristics casa defaultState
           sample_world 1705314600000 buenos_aires_midnights).
  - vm_compute. discriminate.
  - vm_compute. reflexivity.
  - intros k Hk.
    apply (constant_offset_in_range (-10800000) 1705314600000 k);
      [vm_compute; discriminate|vm_compute; discriminate|lia].
Defined.

Lemma streak_after_undoLast_witness :
  exists state' n n',
    undoLast document_with_notes sample_world = (Normal state', sample_world)
    /\ run_streak document_with_notes 1705314600000 = Some n
    /\ run_streak state' 1705314600000 = Some n'
    /\ (n' <= n)%nat.
Proof.
  apply (streak_after_undoLast buenos_aires no_heuristics document_with_notes
           sample_world 1705314600000 buenos_aires_midnights).
  intros k Hk.
  apply (constant_offset_in_range (-10800000) 1705314600000 k);
    [vm_compute; discriminate|vm_compute; discriminate|].
  cbn [document_with_notes entries List.length] in Hk. lia.
Defined.

Lemma recordEntry_keeps_roundtrip_witness :
  exists state' w',
    recordEntry casa defaultState sample_world = (Normal state', w')
    /\ run_importData (Some (snd (run_exportData state'))) defaultState sample_world
       = (Normal state', sample_world).
Proof.
  destruct (recordEntry_keeps_roundtrip Z Z_truthy Z_isFinite Z_toString TimeClip
              Z_parse buenos_aires no_heuristics v8_message
              casa defaultState sample_world)
    as (state' & w' & Hrec & _ & Hround).
  - vm_compute. reflexivity.
  - reflexivity.
  - vm_compute. reflexivity.
  - vm_compute. discriminate.
  - exists state', w'. split; [exact Hrec|]. apply Hround.
Defined.

Lemma shareLast_failure_is_silent_witness :
  snd (run_shareLast rejecting_navigator document_with_notes sample_world)
  = sample_world.
Proof.
  apply (shareLast_failure_is_silent buenos_aires no_heuristics es_AR_short
           rejecting_navigator document_with_notes sample_world).
  - discriminate.
  - left. discriminate.
  - intros share_ title text H. injection H as <-. reflexivity.
  - intros writeText text H. injection H as <-. reflexivity.
Defined.

Lemma shareLast_after_recordEntry_witness :
  exists state' w',
    recordEntry casa defaultState sample_world = (Normal state', w')
    /\ run_shareLast bare_navigator state' w'
       = (Normal [], alerted "Último registro: Casa a las 15/1/24, 07:30" w').
Proof.
  destruct (shareLast_after_recordEntry buenos_aires no_heuristics es_AR_short
              bare_navigator casa defaultState sample_world)
    as (state' & w' & Hrec & Hshare).
  - reflexivity.
  - vm_compute. discriminate.
  - exists state', w'. split; [exact Hrec|].
    unfold run_shareLast. rewrite Hshare. cbn [share clipboard bare_navigator].
    do 2 f_equal.
Defined.

(** At 07:30 of 15 January 2024 in Buenos Aires, with entries at 07:30
    of the 15th, of the 14th and of the 13th *)
Lemma last7_counts_days_witness :
  map Bar.count (run_last7 document_with_notes 1705314600000)
  = [0; 0; 0; 0; 1; 1; 1]%nat
  /\ map Bar.label (run_last7 document_with_notes 1705314600000)
     = ["mar"; "mié"; "jue"; "vie"; "sáb"; "dom"; "lun"].
Proof.
  unfold run_last7.
  rewrite (last7_counts_days buenos_aires no_heuristics es_AR_weekday
             document_with_notes 1705314600000 buenos_aires_midnights
             (buenos_aires_week 1705314600000 ltac:(vm_compute; discriminate))).
  split; vm_compute; reflexivity.
Defined.

Lemma streak_agrees_with_last7_witness :
  run_streak document_with_notes 1705314600000 = Some 3%nat
  /\ (0 < nth 6 (map Bar.count (run_last7 document_with_notes 1705314600000)) 0)%nat
  /\ nth 3 (map Bar.count (run_last7 document_with_notes 1705314600000)) 0%nat
     = 0%nat.
Proof.
  assert (Hs : run_streak document_with_notes 1705314600000 = Some 3%nat)
    by (vm_compute; reflexivity).
  pose proof (streak_agrees_with_last7 buenos_aires no_heuristics es_AR_weekday
                document_with_notes 1705314600000 3 buenos_aires_midnights
                (buenos_aires_week 1705314600000 ltac:(vm_compute; discriminate))
                Hs) as H.
  split; [exact Hs|]. split.
  - apply (proj1 (H 0%nat ltac:(lia))). lia.
  - apply (proj2 (H 3%nat ltac:(lia))). reflexivity.
Defined.

Lemma filteredEntries_refines_witness :
  map Entry.id (run_filteredEntries "ca" document_with_notes) = ["e3"; "e2"; "e1"]
  /\ run_filteredEntries " CASA "
       {| lockables := lockables document_with_notes;
          entries := run_filteredEntries "ca" document_with_notes;
          prefs := prefs document_with_notes |}
     = run_filteredEntries " CASA " document_with_notes.
Proof.
  split; [vm_compute; reflexivity|].
  apply (filteredEntries_refines ascii_trim ascii_toLowerCase "ca" " CASA "
           document_with_notes).
  vm_compute. reflexivity.
Defined.
